(** * chuckram: consensus, ledger, mempool and peer-to-peer core

    A shallow embedding of the agreement machinery of the blockchain node:

    - [JsNumber]    IEEE-754 binary64 values, the [number] type of the sources;
    - [Sha256]      the digest behind [createHash('sha256')];
    - [Ledger]      [StateManager] and [BlockchainService]
                    (apps/blockchain-node/src/app/blockchain);
    - [Mempool]     [MempoolService] (apps/blockchain-node/src/app/mempool);
    - [Consensus]   [ConsensusEngine] (libs/core/consensus);
    - [P2P]         [P2PNetwork] (libs/core/p2p);
    - [CoreBlockchain] the balance update of the library class [Blockchain]
                    (libs/core/blockchain).

    Definitions come first, the properties of the specification after them. *)

From Stdlib Require Import ZArith Lia List String Ascii Bool Floats DecimalString Sorted.
From stdpp Require Import gmap strings list fin_maps.

Local Open Scope Z_scope.

(* ===================================================================== *)
(** ** JavaScript numbers *)
(* ===================================================================== *)

(** A JavaScript [number] is an IEEE-754 binary64 value.  Finite values are
    kept as [mant * 2^expo]; a non-zero finite value is canonical when
    [2^52 <= |mant| < 2^53] (normal) or [expo = -1074] (subnormal).  The sign
    of zero is not kept: no operation of the embedded code observes it. *)
Module JsNumber.

Inductive number : Type :=
| Finite (mant expo : Z)
| PInf
| NInf
| NaN.

Definition zero : number := Finite 0 0.

Definition neg (x : number) : number :=
  match x with
  | Finite m e => Finite (- m) e
  | PInf => NInf
  | NInf => PInf
  | NaN => NaN
  end.

(** [scale n d e] is the fraction [(n / d) / 2^e] as a pair. *)
Definition scale (n d e : Z) : Z * Z :=
  if 0 <=? e then (n, d * 2 ^ e) else (n * 2 ^ (- e), d).

(** Exponent [e] with [2^52 <= (n/d) / 2^e < 2^53], not below the
    subnormal exponent -1074. *)
Definition exponent_of (n d : Z) : Z :=
  let k := Z.log2 n - Z.log2 d in
  let '(a, b) := scale n d (k - 52) in
  Z.max (if 2 ^ 52 * b <=? a then k - 52 else k - 53) (-1074).

(** Round to nearest, ties to even, of the non-negative fraction [a / b]. *)
Definition nearest_even (a b : Z) : Z :=
  let q := a / b in
  let r := a mod b in
  if 2 * r <? b then q
  else if b <? 2 * r then q + 1
  else if Z.even q then q else q + 1.

(** The binary64 value nearest to [n / d], for [0 < n] and [0 < d]. *)
Definition round_pos (n d : Z) : number :=
  let e := exponent_of n d in
  let '(a, b) := scale n d e in
  let m := nearest_even a b in
  let '(m, e) := if m =? 2 ^ 53 then (2 ^ 52, e + 1) else (m, e) in
  if 971 <? e then PInf
  else if m =? 0 then zero
  else Finite m e.

(** The binary64 value nearest to [n / d], for [0 < d]. *)
Definition round (n d : Z) : number :=
  match n with
  | Z0 => zero
  | Zpos _ => round_pos n d
  | Zneg _ => neg (round_pos (- n) d)
  end.

(** [Number(z)] for a BigInt or an integer literal [z]. *)
Definition of_Z (z : Z) : number := round z 1.

(** A decimal literal [n / d], e.g. [0.66] is [literal 66 100]. *)
Definition literal (n d : Z) : number := round n d.

(** The exact value of a finite number as a fraction with positive
    denominator. *)
Definition frac (m e : Z) : Z * Z :=
  if 0 <=? e then (m * 2 ^ e, 1) else (m, 2 ^ (- e)).

Definition add (x y : number) : number :=
  match x, y with
  | NaN, _ | _, NaN => NaN
  | PInf, NInf | NInf, PInf => NaN
  | PInf, _ | _, PInf => PInf
  | NInf, _ | _, NInf => NInf
  | Finite m1 e1, Finite m2 e2 =>
      let '(a, b) := frac m1 e1 in
      let '(c, d) := frac m2 e2 in
      round (a * d + c * b) (b * d)
  end.

Definition sub (x y : number) : number := add x (neg y).

Definition div (x y : number) : number :=
  match x, y with
  | NaN, _ | _, NaN => NaN
  | Finite m1 e1, Finite m2 e2 =>
      let '(a, b) := frac m1 e1 in
      let '(c, d) := frac m2 e2 in
      match c with
      | Z0 => match a with Z0 => NaN | Zpos _ => PInf | Zneg _ => NInf end
      | Zpos _ => round (a * d) (b * c)
      | Zneg _ => round (- (a * d)) (b * (- c))
      end
  | Finite _ _, _ => zero
  | PInf, Finite m _ => if m <? 0 then NInf else PInf
  | NInf, Finite m _ => if m <? 0 then PInf else NInf
  | _, _ => NaN
  end.

(** Comparison; [None] when an operand is NaN. *)
Definition compare (x y : number) : option comparison :=
  match x, y with
  | NaN, _ | _, NaN => None
  | PInf, PInf | NInf, NInf => Some Eq
  | PInf, _ | _, NInf => Some Gt
  | NInf, _ | _, PInf => Some Lt
  | Finite m1 e1, Finite m2 e2 =>
      let '(a, b) := frac m1 e1 in
      let '(c, d) := frac m2 e2 in
      Some (a * d ?= c * b)
  end.

(** [x < y], [x > y], [x >= y]: false on NaN. *)
Definition ltb (x y : number) : bool :=
  match compare x y with Some Lt => true | _ => false end.
Definition gtb (x y : number) : bool := ltb y x.
Definition geb (x y : number) : bool :=
  match compare x y with Some Gt | Some Eq => true | _ => false end.

(** [Math.max(x, y)]: NaN when an operand is NaN. *)
Definition Math_max (x y : number) : number :=
  match compare x y with
  | None => NaN
  | Some Lt => y
  | Some _ => x
  end.

(** [x || 0] on a number: the falsy numbers are 0 and NaN. *)
Definition orZero (x : number) : number :=
  match x with
  | NaN => zero
  | Finite 0 _ => zero
  | _ => x
  end.

(** The kernel's binary64 value of a number, used to cross-check the
    model against the hardware arithmetic. *)
Definition to_float (x : number) : float :=
  match x with
  | Finite m e =>
      let f := Z.ldexp (PrimFloat.of_uint63 (Uint63.of_Z (Z.abs m))) e in
      if m <? 0 then PrimFloat.opp f else f
  | PInf => PrimFloat.infinity
  | NInf => PrimFloat.neg_infinity
  | NaN => PrimFloat.nan
  end.

(** Zero, a positive finite value or +Infinity. *)
Definition nonneg (x : number) : Prop :=
  match x with
  | Finite m _ => 0 <= m
  | PInf => True
  | _ => False
  end.

Arguments round_pos : simpl never.
Arguments round : simpl never.
Arguments of_Z : simpl never.
Arguments literal : simpl never.
Arguments add : simpl never.
Arguments sub : simpl never.
Arguments div : simpl never.
Arguments compare : simpl never.
Arguments ltb : simpl never.
Arguments gtb : simpl never.
Arguments geb : simpl never.
Arguments Math_max : simpl never.

End JsNumber.

(* ===================================================================== *)
(** ** SHA-256 *)
(* ===================================================================== *)

(** [createHash('sha256').update(s).digest('hex')] of Node's crypto module
    (FIPS 180-4), on the bytes of [s]; 32-bit words are kept in [Z] with the
    wrap-around written out. *)
Module Sha256.

Definition mask32 (x : Z) : Z := Z.land x 4294967295.
Definition add32 (x y : Z) : Z := mask32 (x + y).
Definition rotr (n x : Z) : Z :=
  Z.lor (Z.shiftr x n) (mask32 (Z.shiftl x (32 - n))).

Definition ch (x y z : Z) : Z :=
  Z.lxor (Z.land x y) (Z.land (Z.lxor x 4294967295) z).
Definition maj (x y z : Z) : Z :=
  Z.lxor (Z.lxor (Z.land x y) (Z.land x z)) (Z.land y z).
Definition bsig0 (x : Z) : Z := Z.lxor (Z.lxor (rotr 2 x) (rotr 13 x)) (rotr 22 x).
Definition bsig1 (x : Z) : Z := Z.lxor (Z.lxor (rotr 6 x) (rotr 11 x)) (rotr 25 x).
Definition ssig0 (x : Z) : Z := Z.lxor (Z.lxor (rotr 7 x) (rotr 18 x)) (Z.shiftr x 3).
Definition ssig1 (x : Z) : Z := Z.lxor (Z.lxor (rotr 17 x) (rotr 19 x)) (Z.shiftr x 10).

(** The constants of FIPS 180-4 are the first 32 bits of the fractional
    parts of the square roots (initial hash value) and of the cube roots
    (round constants) of the first primes. *)
Definition is_prime (n : Z) : bool :=
  forallb (fun d => negb (n mod d =? 0)) (List.map Z.of_nat (List.seq 2 (Z.to_nat (n - 2)))).

Definition primes : list Z :=
  Eval vm_compute in List.filter is_prime (List.map Z.of_nat (List.seq 2 310)).

(** The largest [r] below [2^36] with [r ^ k <= x], bit by bit. *)
Definition root (k x : Z) : Z :=
  List.fold_left
    (fun r b => let r' := r + Z.shiftl 1 (Z.of_nat b) in if r' ^ k <=? x then r' else r)
    (List.rev (List.seq 0 36)) 0.

Definition frac32 (k p : Z) : Z := mask32 (root k (Z.shiftl p (32 * k))).

Definition K : list Z := Eval vm_compute in List.map (frac32 3) primes.

Definition H0 : list Z := Eval vm_compute in List.map (frac32 2) (List.firstn 8 primes).

Definition bytes_of_string (s : string) : list Z :=
  List.map (fun c => Z.of_N (N_of_ascii c)) (list_ascii_of_string s).

(** The message followed by 0x80, zeros up to 56 modulo 64, and the bit
    length as a 64-bit big-endian integer. *)
Definition pad (msg : list Z) : list Z :=
  let len := Z.of_nat (List.length msg) in
  let zeros := Z.to_nat ((55 - len) mod 64) in
  let bits := 8 * len in
  msg ++ [128] ++ List.repeat 0 zeros
      ++ List.map (fun i => Z.land (Z.shiftr bits (8 * i)) 255) [7; 6; 5; 4; 3; 2; 1; 0].

Fixpoint words (bs : list Z) : list Z :=
  match bs with
  | b3 :: b2 :: b1 :: b0 :: rest =>
      (Z.shiftl b3 24 + Z.shiftl b2 16 + Z.shiftl b1 8 + b0) :: words rest
  | _ => []
  end.

Fixpoint chunks (fuel : nat) (ws : list Z) : list (list Z) :=
  match fuel, ws with
  | S fuel, _ :: _ => List.firstn 16 ws :: chunks fuel (List.skipn 16 ws)
  | _, _ => []
  end.

(** The message schedule, most recent word first. *)
Fixpoint extend (n : nat) (rev_w : list Z) : list Z :=
  match n with
  | O => rev_w
  | S n =>
      let w := add32 (add32 (ssig1 (List.nth 1 rev_w 0)) (List.nth 6 rev_w 0))
                     (add32 (ssig0 (List.nth 14 rev_w 0)) (List.nth 15 rev_w 0)) in
      extend n (w :: rev_w)
  end.

Definition schedule (chunk : list Z) : list Z :=
  List.rev (extend 48 (List.rev chunk)).

Definition step (s : list Z) (kw : Z * Z) : list Z :=
  match s with
  | [a; b; c; d; e; f; g; h] =>
      let t1 := add32 (add32 (add32 h (bsig1 e)) (add32 (ch e f g) (fst kw))) (snd kw) in
      let t2 := add32 (bsig0 a) (maj a b c) in
      [add32 t1 t2; a; b; c; add32 d t1; e; f; g]
  | _ => s
  end.

Definition compress (h : list Z) (chunk : list Z) : list Z :=
  let s := List.fold_left step (List.combine K (schedule chunk)) h in
  List.map (fun p => add32 (fst p) (snd p)) (List.combine h s).

Definition hex_digit (d : Z) : ascii :=
  List.nth (Z.to_nat d) (list_ascii_of_string "0123456789abcdef") "0"%char.

Definition hex_word (w : Z) : list ascii :=
  List.map (fun i => hex_digit (Z.land (Z.shiftr w (4 * i)) 15)) [7; 6; 5; 4; 3; 2; 1; 0].

Definition sha256 (s : string) : string :=
  let ws := words (pad (bytes_of_string s)) in
  let h := List.fold_left compress (chunks (List.length ws) ws) H0 in
  string_of_list_ascii (List.concat (List.map hex_word h)).

Arguments sha256 : simpl never.

End Sha256.

(* ===================================================================== *)
(** ** Results of calls that may throw *)
(* ===================================================================== *)

(** A method that may throw (or, for an [async] method, reject) is a state
    transformer returning [Throw e] together with the state as the call left
    it: everything mutated before the [throw] stays mutated. *)
Inductive result (E A : Type) : Type :=
| Ok (a : A)
| Throw (e : E).
Arguments Ok {E A} a.
Arguments Throw {E A} e.

Definition M (E S A : Type) : Type := S -> result E A * S.

Definition ret {E S A} (a : A) : M E S A := fun s => (Ok a, s).
Definition throw {E S A} (e : E) : M E S A := fun s => (Throw e, s).
Definition bind {E S A B} (c : M E S A) (k : A -> M E S B) : M E S B :=
  fun s =>
    match c s with
    | (Ok a, s') => k a s'
    | (Throw e, s') => (Throw e, s')
    end.
Definition modify {E S} (f : S -> S) : M E S unit := fun s => (Ok tt, f s).

Notation "'let!' x ':=' c 'in' k" := (bind c (fun x => k))
  (at level 10, x name, c at level 100, k at level 200).
Notation "c ;;; k" := (bind c (fun _ => k))
  (at level 100, k at level 200, right associativity).

(** [for (const x of xs) { await body(x) }]: stops at the first throw. *)
Fixpoint forEachM {E S A} (body : A -> M E S unit) (xs : list A) : M E S unit :=
  match xs with
  | [] => ret tt
  | x :: xs => body x ;;; forEachM body xs
  end.

(** ['0'.repeat(n)] *)
Fixpoint zeros (n : nat) : string :=
  match n with
  | O => EmptyString
  | S n => String "0" (zeros n)
  end.

(** The decimal text of an integer-valued number inside a template literal. *)
Definition showZ (z : Z) : string :=
  NilZero.string_of_int (Z.to_int z).

(* ===================================================================== *)
(** ** Ledger: StateManager and BlockchainService *)
(* ===================================================================== *)

Module Ledger.

Inductive TransactionType : Type :=
| TRANSFER | VOTE | PROPOSAL | VALIDATOR_REGISTRATION | IDENTITY_REGISTRATION
| REWARD | FEE | MINT | BURN.

(** The [data] payload of a VALIDATOR_REGISTRATION transaction. *)
Record TxData : Type := {
  validatorType : string;
  stake : option Z
}.

Record Transaction : Type := {
  tx_id : string;
  tx_from : string;
  tx_to : string;
  tx_amount : Z;
  tx_fee : Z;
  tx_timestamp : Z;
  tx_type : TransactionType;
  tx_data : option TxData;
  tx_signature : string;
  tx_nonce : JsNumber.number
}.

Record BlockHeader : Type := {
  version : Z;
  previousHash : string;
  merkleRoot : string;
  timestamp : Z;
  height : Z;
  validatorAddress : string;
  validatorSignature : option string
}.

Record Block : Type := {
  header : BlockHeader;
  transactions : list Transaction;
  hash : string;
  nonce : Z
}.

(** An entry of the validator registry kept by the state manager. *)
Record ValidatorEntry : Type := {
  ve_address : string;
  ve_type : string;
  ve_stake : Z;
  ve_registeredAt : Z;
  ve_active : bool;
  ve_lastActiveBlock : Z
}.

(** Events sent through the injected event emitter. *)
Inductive Event : Type :=
| StateUpdated (h : Z) (lastHash : option string) (balanceUpdates : option nat)
| BlockAdded (b : Block)
| ValidatorRegistered (address vtype : string) (stakeValue : Z).

Inductive Error : Type :=
| InsufficientBalance (address : string) (has needs : Z)
| UnsupportedTransactionType (t : TransactionType)
| TypeError.

(** *** StateManager *)

Record StateManager : Type := {
  balances : gmap string Z;
  validators : gmap string ValidatorEntry;
  nonces : gmap string JsNumber.number;
  sm_chainHeight : Z;
  sm_lastBlockHash : option string;
  sm_emitted : list Event
}.

Definition systemAddress : string := zeros 40.

Definition getBalance (address : string) (s : StateManager) : Z :=
  default 0 (balances s !! address).

Definition setBalance (address : string) (balance : Z) (s : StateManager)
  : StateManager :=
  {| balances := <[address := balance]> (balances s);
     validators := validators s;
     nonces := nonces s;
     sm_chainHeight := sm_chainHeight s;
     sm_lastBlockHash := sm_lastBlockHash s;
     sm_emitted := sm_emitted s |}.

(** [this.nonces.get(address) || 0] *)
Definition getNonce (address : string) (s : StateManager) : JsNumber.number :=
  match nonces s !! address with
  | Some n => JsNumber.orZero n
  | None => JsNumber.zero
  end.

Definition setNonce (address : string) (n : JsNumber.number) (s : StateManager)
  : StateManager :=
  {| balances := balances s;
     validators := validators s;
     nonces := <[address := n]> (nonces s);
     sm_chainHeight := sm_chainHeight s;
     sm_lastBlockHash := sm_lastBlockHash s;
     sm_emitted := sm_emitted s |}.

Definition setValidator (address : string) (v : ValidatorEntry) (s : StateManager)
  : StateManager :=
  {| balances := balances s;
     validators := <[address := v]> (validators s);
     nonces := nonces s;
     sm_chainHeight := sm_chainHeight s;
     sm_lastBlockHash := sm_lastBlockHash s;
     sm_emitted := sm_emitted s |}.

Definition sm_emit (e : Event) (s : StateManager) : StateManager :=
  {| balances := balances s;
     validators := validators s;
     nonces := nonces s;
     sm_chainHeight := sm_chainHeight s;
     sm_lastBlockHash := sm_lastBlockHash s;
     sm_emitted := sm_emitted s ++ [e] |}.

Definition setChainState (h : Z) (lastHash : string) (s : StateManager)
  : StateManager :=
  {| balances := balances s;
     validators := validators s;
     nonces := nonces s;
     sm_chainHeight := h;
     sm_lastBlockHash := Some lastHash;
     sm_emitted := sm_emitted s |}.

(** The fee goes to the system address when it is positive. *)
Definition creditFee (feeValue : Z) (s : StateManager) : StateManager :=
  if 0 <? feeValue
  then setBalance systemAddress (getBalance systemAddress s + feeValue) s
  else s.

Definition applyTransferTransaction (tx : Transaction) : M Error StateManager unit :=
  fun s =>
    let amountValue := tx_amount tx in
    let feeValue := tx_fee tx in
    let totalDebit := amountValue + feeValue in
    let senderBalance := getBalance (tx_from tx) s in
    if senderBalance <? totalDebit
    then (Throw (InsufficientBalance (tx_from tx) senderBalance totalDebit), s)
    else
      let s := setBalance (tx_from tx) (senderBalance - totalDebit) s in
      let recipientBalance := getBalance (tx_to tx) s in
      let s := setBalance (tx_to tx) (recipientBalance + amountValue) s in
      (Ok tt, creditFee feeValue s).

Definition applyMintTransaction (tx : Transaction) : M Error StateManager unit :=
  fun s =>
    let amountValue := tx_amount tx in
    let recipientBalance := getBalance (tx_to tx) s in
    (Ok tt, setBalance (tx_to tx) (recipientBalance + amountValue) s).

Definition applyBurnTransaction (tx : Transaction) : M Error StateManager unit :=
  fun s =>
    let amountValue := tx_amount tx in
    let feeValue := tx_fee tx in
    let totalDebit := amountValue + feeValue in
    let senderBalance := getBalance (tx_from tx) s in
    if senderBalance <? totalDebit
    then (Throw (InsufficientBalance (tx_from tx) senderBalance totalDebit), s)
    else
      let s := setBalance (tx_from tx) (senderBalance - totalDebit) s in
      (Ok tt, creditFee feeValue s).

(** Destructuring an absent [data] raises a TypeError before any update. *)
Definition applyValidatorRegistration (tx : Transaction) : M Error StateManager unit :=
  fun s =>
    let feeValue := tx_fee tx in
    match tx_data tx with
    | None => (Throw TypeError, s)
    | Some d =>
        let stakeValue := default 0 (stake d) in
        let totalDebit := feeValue + stakeValue in
        let senderBalance := getBalance (tx_from tx) s in
        if senderBalance <? totalDebit
        then (Throw (InsufficientBalance (tx_from tx) senderBalance totalDebit), s)
        else
          let s := setBalance (tx_from tx) (senderBalance - totalDebit) s in
          let s := creditFee feeValue s in
          let s :=
            setValidator (tx_from tx)
              {| ve_address := tx_from tx;
                 ve_type := validatorType d;
                 ve_stake := stakeValue;
                 ve_registeredAt := tx_timestamp tx;
                 ve_active := true;
                 ve_lastActiveBlock := sm_chainHeight s |} s in
          (Ok tt, sm_emit (ValidatorRegistered (tx_from tx) (validatorType d) stakeValue) s)
    end.

Definition applyRewardTransaction (tx : Transaction) : M Error StateManager unit :=
  fun s =>
    let amountValue := tx_amount tx in
    let recipientBalance := getBalance (tx_to tx) s in
    (Ok tt, setBalance (tx_to tx) (recipientBalance + amountValue) s).

(** The nonce of the sender moves to [Math.max(currentNonce, tx.nonce + 1)],
    except for the system sender.  Nonces are numbers: the sum is rounded
    to binary64, so that [tx.nonce + 1] is [tx.nonce] again from [2^53]
    on. *)
Definition updateNonce (tx : Transaction) : M Error StateManager unit :=
  fun s =>
    if String.eqb (tx_from tx) systemAddress then (Ok tt, s)
    else
      let currentNonce := getNonce (tx_from tx) s in
      (Ok tt, setNonce (tx_from tx)
                (JsNumber.Math_max currentNonce
                   (JsNumber.add (tx_nonce tx) (JsNumber.of_Z 1))) s).

Definition applyTransaction (tx : Transaction) : M Error StateManager unit :=
  match tx_type tx with
  | TRANSFER => applyTransferTransaction tx
  | MINT => applyMintTransaction tx
  | BURN => applyBurnTransaction tx
  | VALIDATOR_REGISTRATION => applyValidatorRegistration tx
  | REWARD => applyRewardTransaction tx
  | t => throw (UnsupportedTransactionType t)
  end ;;;
  updateNonce tx.

(** [applyBlock]: the [catch] clause logs and rethrows, so a failing
    transaction leaves the state as the transactions before it made it. *)
Definition applyBlock (block : Block) : M Error StateManager unit :=
  forEachM applyTransaction (transactions block) ;;;
  modify (setChainState (height (header block)) (hash block)) ;;;
  modify (sm_emit (StateUpdated (height (header block)) (Some (hash block))
                     (Some (List.length (transactions block))))).

(** *** BlockchainService *)

Record BlockchainService : Type := {
  blocks : gmap string Block;
  blocksByHeight : gmap Z string;
  lastBlockHash : option string;
  chainHeight : Z;
  initialized : bool;
  stateManager : StateManager;
  emitted : list Event
}.

Definition getBlock (h : string) (s : BlockchainService) : option Block :=
  blocks s !! h.

(** [if (!hash) return null]: an absent or empty hash gives no block. *)
Definition getBlockByHeight (h : Z) (s : BlockchainService) : option Block :=
  match blocksByHeight s !! h with
  | None => None
  | Some bh => if String.eqb bh "" then None else getBlock bh s
  end.

Definition calculateBlockHash (block : Block) : string :=
  let h := header block in
  Sha256.sha256
    (showZ (version h) ++ previousHash h ++ merkleRoot h ++ showZ (timestamp h)
       ++ showZ (height h) ++ validatorAddress h ++ showZ (nonce block))%string.

Definition calculateMerkleRoot (txs : list Transaction) : string :=
  match txs with
  | [] => zeros 64
  | _ => Sha256.sha256 (String.concat "" (List.map tx_id txs))
  end.

Definition validateGenesisBlock (block : Block) : bool :=
  (height (header block) =? 0) && String.eqb (previousHash (header block)) (zeros 64).

(** "In a real implementation, this would verify signatures, check
    balances, etc." *)
Definition validateTransaction (tx : Transaction) : bool := true.

Definition validateBlock (block : Block) (s : BlockchainService) : bool :=
  if String.eqb (hash block) "" then false
  else if negb (String.eqb (calculateBlockHash block) (hash block)) then false
  else if height (header block) =? 0 then validateGenesisBlock block
  else
    match getBlockByHeight (height (header block) - 1) s with
    | None => false
    | Some prevBlock =>
        if negb (String.eqb (hash prevBlock) (previousHash (header block))) then false
        else if negb (height (header block) =? height (header prevBlock) + 1) then false
        else if timestamp (header block) <=? timestamp (header prevBlock) then false
        else if negb (String.eqb (calculateMerkleRoot (transactions block))
                                 (merkleRoot (header block))) then false
        else forallb validateTransaction (transactions block)
    end.

Definition indexBlock (block : Block) (s : BlockchainService) : BlockchainService :=
  {| blocks := <[hash block := block]> (blocks s);
     blocksByHeight := <[height (header block) := hash block]> (blocksByHeight s);
     lastBlockHash := lastBlockHash s;
     chainHeight := chainHeight s;
     initialized := initialized s;
     stateManager := stateManager s;
     emitted := emitted s |}.

Definition setHead (block : Block) (s : BlockchainService) : BlockchainService :=
  {| blocks := blocks s;
     blocksByHeight := blocksByHeight s;
     lastBlockHash := Some (hash block);
     chainHeight := height (header block);
     initialized := initialized s;
     stateManager := stateManager s;
     emitted := emitted s |}.

Definition emit (e : Event) (s : BlockchainService) : BlockchainService :=
  {| blocks := blocks s;
     blocksByHeight := blocksByHeight s;
     lastBlockHash := lastBlockHash s;
     chainHeight := chainHeight s;
     initialized := initialized s;
     stateManager := stateManager s;
     emitted := emitted s ++ [e] |}.

(** A call into the injected state manager. *)
Definition onStateManager {A} (c : M Error StateManager A)
  : M Error BlockchainService A :=
  fun s =>
    let '(r, sm) := c (stateManager s) in
    (r, {| blocks := blocks s;
           blocksByHeight := blocksByHeight s;
           lastBlockHash := lastBlockHash s;
           chainHeight := chainHeight s;
           initialized := initialized s;
           stateManager := sm;
           emitted := emitted s |}).

Definition addBlock (block : Block) : M Error BlockchainService bool :=
  fun s =>
    match blocks s !! hash block with
    | Some _ => (Ok false, s)
    | None =>
        if negb (validateBlock block s) then (Ok false, s)
        else
          let s := indexBlock block s in
          ((if chainHeight s <? height (header block)
            then
              modify (setHead block) ;;;
              onStateManager (applyBlock block) ;;;
              modify (emit (StateUpdated (height (header block)) (Some (hash block)) None))
            else ret tt) ;;;
           modify (emit (BlockAdded block)) ;;;
           ret true) s
    end.

(** *** Queries of the state manager *)

(** [getTotalSupply]: the sum of all balances. *)
Definition getTotalSupply (s : StateManager) : Z :=
  map_fold (fun _ balance total => total + balance) 0 (balances s).

(** [StateManager.validateTransaction]: the nonce must not lie below the
    sender's, and the sender of a TRANSFER, BURN or VALIDATOR_REGISTRATION
    must hold amount + fee + stake. *)
Definition StateManager_validateTransaction (tx : Transaction) (s : StateManager)
  : bool :=
  if negb (String.eqb (tx_from tx) systemAddress)
     && JsNumber.ltb (tx_nonce tx) (getNonce (tx_from tx) s)
  then false
  else
    match tx_type tx with
    | TRANSFER | BURN | VALIDATOR_REGISTRATION =>
        let amount := tx_amount tx in
        let fee := tx_fee tx in
        let stake :=
          match tx_type tx, tx_data tx with
          | VALIDATOR_REGISTRATION, Some d => default 0 (stake d)
          | _, _ => 0
          end in
        let totalNeeded := amount + fee + stake in
        let balance := getBalance (tx_from tx) s in
        if balance <? totalNeeded then false else true
    | _ => true
    end.

(** *** Queries of the blockchain service *)

(** The heights [hi, hi - 1, ..., lo + 1] of a descending loop. *)
Definition descending (hi lo : Z) : list Z := List.rev (seqZ (lo + 1) (hi - lo)).

(** [getLatestBlocks(limit)]: from the chain height down, while the height
    is above [Math.max(0, chainHeight - limit)]. *)
Definition getLatestBlocks (limit : Z) (s : BlockchainService) : list Block :=
  omap (fun h => getBlockByHeight h s)
       (descending (chainHeight s) (Z.max 0 (chainHeight s - limit))).

(** [getBlockRange(startHeight, endHeight)] *)
Definition getBlockRange (startHeight endHeight : Z) (s : BlockchainService)
  : list Block :=
  omap (fun h => getBlockByHeight h s) (seqZ startHeight (endHeight - startHeight + 1)).

(** An entry of [getAddressTransactions]: the transaction with the
    block's height, hash and timestamp spread over it. *)
Record AddressTransaction : Type := {
  at_tx : Transaction;
  at_blockHeight : Z;
  at_blockHash : string
}.

Definition addressEntry (block : Block) (tx : Transaction) : AddressTransaction :=
  {| at_tx := {| tx_id := tx_id tx; tx_from := tx_from tx; tx_to := tx_to tx;
                 tx_amount := tx_amount tx; tx_fee := tx_fee tx;
                 tx_timestamp := timestamp (header block);
                 tx_type := tx_type tx; tx_data := tx_data tx;
                 tx_signature := tx_signature tx; tx_nonce := tx_nonce tx |};
     at_blockHeight := height (header block);
     at_blockHash := hash block |}.

Definition concerns (address : string) (tx : Transaction) : bool :=
  String.eqb (tx_from tx) address || String.eqb (tx_to tx) address.

(** The inner loop of [getAddressTransactions]; [true] when the function
    returned from inside it. *)
Fixpoint collectFromBlock (address : string) (limit : Z) (block : Block)
    (txs : list Transaction) (acc : list AddressTransaction)
  : list AddressTransaction * bool :=
  match txs with
  | [] => (acc, false)
  | tx :: rest =>
      if concerns address tx
      then
        let acc := acc ++ [addressEntry block tx] in
        if limit <=? Z.of_nat (List.length acc) then (acc, true)
        else collectFromBlock address limit block rest acc
      else collectFromBlock address limit block rest acc
  end.

(** The outer loop, over the heights from the chain height down to 0. *)
Fixpoint collectFromHeights (address : string) (limit : Z) (s : BlockchainService)
    (heights : list Z) (acc : list AddressTransaction) : list AddressTransaction :=
  match heights with
  | [] => acc
  | h :: heights' =>
      match getBlockByHeight h s with
      | None => collectFromHeights address limit s heights' acc
      | Some block =>
          let '(acc, returned) :=
            collectFromBlock address limit block (transactions block) acc in
          if returned then acc
          else collectFromHeights address limit s heights' acc
      end
  end.

Definition getAddressTransactions (address : string) (limit : Z)
    (s : BlockchainService) : list AddressTransaction :=
  collectFromHeights address limit s (descending (chainHeight s) (-1)) [].

(** What [handleReceivedBlock] does besides [addBlock]. *)
Inductive Relay : Type :=
| PotentialReorg (b : Block)
| Relayable (b : Block).

(** [handleReceivedBlock]: an exception of [addBlock] is caught and
    logged. *)
Definition handleReceivedBlock (block : Block) (s : BlockchainService)
  : list Relay * BlockchainService :=
  match addBlock block s with
  | (Ok true, s') =>
      ((if chainHeight s' <? height (header block) then [PotentialReorg block] else [])
         ++ [Relayable block], s')
  | (Ok false, s') => ([], s')
  | (Throw _, s') => ([], s')
  end.

(** *** Vocabulary of the properties and sample data *)

(** The debit a transaction needs from its sender, for the types that
    check the balance. *)
Definition requiredDebit (tx : Transaction) : option Z :=
  match tx_type tx with
  | TRANSFER | BURN => Some (tx_amount tx + tx_fee tx)
  | VALIDATOR_REGISTRATION =>
      match tx_data tx with
      | Some d => Some (tx_fee tx + default 0 (stake d))
      | None => None
      end
  | _ => None
  end.

(** The block with its hash field recomputed. *)
Definition seal (b : Block) : Block :=
  {| header := header b; transactions := transactions b;
     hash := calculateBlockHash b; nonce := nonce b |}.

Definition withHeight (h : Z) (b : Block) : Block :=
  {| header := {| version := version (header b);
                  previousHash := previousHash (header b);
                  merkleRoot := merkleRoot (header b);
                  timestamp := timestamp (header b);
                  height := h;
                  validatorAddress := validatorAddress (header b);
                  validatorSignature := validatorSignature (header b) |};
     transactions := transactions b; hash := hash b; nonce := nonce b |}.

Definition emptyStateManager : StateManager :=
  {| balances := ∅; validators := ∅; nonces := ∅; sm_chainHeight := 0;
     sm_lastBlockHash := None; sm_emitted := [] |}.

Definition emptyService : BlockchainService :=
  {| blocks := ∅; blocksByHeight := ∅; lastBlockHash := None; chainHeight := 0;
     initialized := false; stateManager := emptyStateManager; emitted := [] |}.

(** A block of height 0 with the all-zero previous hash whose stored hash
    is not the recomputed one. *)
Definition forgedGenesis : Block :=
  {| header := header (seal
       {| header := {| version := 1; previousHash := zeros 64; merkleRoot := zeros 64;
                       timestamp := 1700000000000; height := 0;
                       validatorAddress := "GENESIS"; validatorSignature := None |};
          transactions := []; hash := ""; nonce := 0 |});
     transactions := []; hash := "abc"; nonce := 0 |}.

Definition sampleGenesis : Block :=
  seal {| header := {| version := 1; previousHash := zeros 64; merkleRoot := zeros 64;
                       timestamp := 1700000000000; height := 0;
                       validatorAddress := "GENESIS"; validatorSignature := None |};
          transactions := []; hash := ""; nonce := 0 |}.

Definition transfer (i from to : string) (amount fee n : Z) : Transaction :=
  {| tx_id := i; tx_from := from; tx_to := to; tx_amount := amount; tx_fee := fee;
     tx_timestamp := 1700000001000; tx_type := TRANSFER; tx_data := None;
     tx_signature := "sig"; tx_nonce := JsNumber.of_Z n |}.

Definition fundedState (who : string) (balance : Z) : StateManager :=
  setBalance who balance emptyStateManager.

Definition claimTransfer : Transaction := transfer "tx" "alice" "bob" 100 16 0.


(** A transfer with the nonce [2^53]. *)
Definition lateTransfer : Transaction :=
  transfer "tx" "alice" "bob" 100 16 9007199254740992.

(** The service after the genesis block was added, with 100 units credited to alice. *)
Definition sampleService : BlockchainService :=
  let s := snd (addBlock sampleGenesis emptyService) in
  {| blocks := blocks s; blocksByHeight := blocksByHeight s;
     lastBlockHash := lastBlockHash s; chainHeight := chainHeight s;
     initialized := true;
     stateManager := setBalance "alice" 100 (stateManager s);
     emitted := emitted s |}.

Definition sampleTx1 : Transaction := transfer "tx1" "alice" "bob" 10 1 0.
Definition sampleTx2 : Transaction := transfer "tx2" "carol" "bob" 5 0 0.
Definition sampleTxs : list Transaction := [sampleTx1; sampleTx2].

Definition sampleBlock : Block :=
  seal {| header := {| version := 1; previousHash := hash sampleGenesis;
                       merkleRoot := calculateMerkleRoot sampleTxs;
                       timestamp := 1700000005000; height := 1;
                       validatorAddress := "GOV1"; validatorSignature := None |};
          transactions := sampleTxs; hash := ""; nonce := 0 |}.

(** The change of the total supply a transaction stands for. *)
Definition supplyDelta (tx : Transaction) : Z :=
  match tx_type tx with
  | MINT | REWARD => tx_amount tx
  | BURN => - tx_amount tx
  | VALIDATOR_REGISTRATION =>
      match tx_data tx with
      | Some d => - default 0 (stake d)
      | None => 0
      end
  | _ => 0
  end.

(** The block with other transactions in place of its own. *)
Definition withTransactions (txs : list Transaction) (b : Block) : Block :=
  {| header := header b; transactions := txs; hash := hash b; nonce := nonce b |}.

(** The matching transactions of the blocks indexed at the given heights,
    in the order the loops of [getAddressTransactions] meet them. *)
Definition matchingEntries (address : string) (s : BlockchainService)
    (heights : list Z) : list AddressTransaction :=
  List.flat_map
    (fun h =>
       match getBlockByHeight h s with
       | Some block =>
           List.map (addressEntry block) (List.filter (concerns address) (transactions block))
       | None => []
       end) heights.

Definition mintTx (i to : string) (amount : Z) : Transaction :=
  {| tx_id := i; tx_from := systemAddress; tx_to := to; tx_amount := amount;
     tx_fee := 0; tx_timestamp := 1700000001000; tx_type := MINT; tx_data := None;
     tx_signature := "sig"; tx_nonce := JsNumber.of_Z 0 |}.

Definition registrationTx (i from : string) (stakeValue fee n : Z) : Transaction :=
  {| tx_id := i; tx_from := from; tx_to := ""; tx_amount := 0; tx_fee := fee;
     tx_timestamp := 1700000001000; tx_type := VALIDATOR_REGISTRATION;
     tx_data := Some {| validatorType := "CITIZEN"; stake := Some stakeValue |};
     tx_signature := "sig"; tx_nonce := JsNumber.of_Z n |}.

(** A block over the sample service whose only transaction can be paid. *)
Definition payableBlock : Block :=
  seal {| header := {| version := 1; previousHash := hash sampleGenesis;
                       merkleRoot := calculateMerkleRoot [sampleTx1];
                       timestamp := 1700000005000; height := 1;
                       validatorAddress := "GOV1"; validatorSignature := None |};
          transactions := [sampleTx1]; hash := ""; nonce := 0 |}.

(** The transaction of the payable block with another recipient and
    amount under the same id. *)
Definition rewrittenTx : Transaction := transfer "tx1" "alice" "mallory" 99 1 0.

(** A second block of height 0, by another validator. *)
Definition rivalGenesis : Block :=
  seal {| header := {| version := 1; previousHash := zeros 64; merkleRoot := zeros 64;
                       timestamp := 1700000000000; height := 0;
                       validatorAddress := "RIVAL"; validatorSignature := None |};
          transactions := []; hash := ""; nonce := 0 |}.

End Ledger.

(* ===================================================================== *)
(** ** Mempool: MempoolService *)
(* ===================================================================== *)

Module Mempool.
Import JsNumber.

(** A pooled transaction: the submitted fields and the admission time. *)
Record PendingTx : Type := {
  ptx : Ledger.Transaction;
  addedAt : Z
}.

Definition fee (t : PendingTx) : Z := Ledger.tx_fee (ptx t).

(** The values read through [configService.get]. *)
Record MempoolConfig : Type := {
  maxSize : Z;
  maxSizePerAccount : Z;
  minFee : number;
  expirationTime : Z
}.

Inductive Error : Type :=
| MempoolFull
| AccountLimitReached
| FeeBelowMinimum.

(** [pendingTransactions] is a [Map]: its entries are kept in insertion
    order, the order [values()] enumerates them in. *)
Record MempoolService : Type := {
  pendingTransactions : list (string * PendingTx);
  transactionsByAccount : gmap string (gset string);
  added : list string
}.

Definition has (txId : string) (s : MempoolService) : bool :=
  existsb (fun e => String.eqb (fst e) txId) (pendingTransactions s).

Definition getTransaction (txId : string) (s : MempoolService) : option PendingTx :=
  snd <$> List.find (fun e => String.eqb (fst e) txId) (pendingTransactions s).

Definition getTransactionsByAccount (address : string) (s : MempoolService)
  : gset string :=
  default ∅ (transactionsByAccount s !! address).

Definition getAllTransactions (s : MempoolService) : list PendingTx :=
  List.map snd (pendingTransactions s).

Definition addTransaction (cfg : MempoolConfig) (now : Z) (transaction : Ledger.Transaction)
  : M Error MempoolService bool :=
  fun s =>
    let txId := Ledger.tx_id transaction in
    if has txId s then (Ok false, s)
    else if maxSize cfg <=? Z.of_nat (List.length (pendingTransactions s))
    then (Throw MempoolFull, s)
    else
      let from := Ledger.tx_from transaction in
      let accountTransactions := getTransactionsByAccount from s in
      if maxSizePerAccount cfg <=? Z.of_nat (size accountTransactions)
      then (Throw AccountLimitReached, s)
      else if ltb (of_Z (Ledger.tx_fee transaction)) (minFee cfg)
      then (Throw FeeBelowMinimum, s)
      else
        let txWithTimestamp := {| ptx := transaction; addedAt := now |} in
        (Ok true,
         {| pendingTransactions := pendingTransactions s ++ [(txId, txWithTimestamp)];
            transactionsByAccount :=
              <[from := {[txId]} ∪ accountTransactions]> (transactionsByAccount s);
            added := added s ++ [txId] |}).

Definition removeTransaction (txId : string) (s : MempoolService)
  : bool * MempoolService :=
  match getTransaction txId s with
  | None => (false, s)
  | Some transaction =>
      let from := Ledger.tx_from (ptx transaction) in
      let remaining := getTransactionsByAccount from s ∖ {[txId]} in
      (true,
       {| pendingTransactions :=
            List.filter (fun e => negb (String.eqb (fst e) txId)) (pendingTransactions s);
          transactionsByAccount :=
            match transactionsByAccount s !! from with
            | None => transactionsByAccount s
            | Some _ =>
                if decide (size remaining = 0%nat)
                then delete from (transactionsByAccount s)
                else <[from := remaining]> (transactionsByAccount s)
            end;
          added := added s |})
  end.

(** [(a, b) => Number(b.fee) - Number(a.fee)] *)
Definition comparefn (a b : PendingTx) : number :=
  sub (of_Z (fee b)) (of_Z (fee a)).

(** [Array.prototype.sort] is stable: an element moves behind another one
    only when the comparison function returns a value greater than zero
    (a NaN counts as zero). *)
Fixpoint insert_sorted {A} (cmp : A -> A -> number) (x : A) (l : list A) : list A :=
  match l with
  | [] => [x]
  | y :: l' => if gtb (cmp x y) zero then y :: insert_sorted cmp x l' else x :: l
  end.

Fixpoint sort {A} (cmp : A -> A -> number) (l : list A) : list A :=
  match l with
  | [] => []
  | x :: l' => insert_sorted cmp x (sort cmp l')
  end.

(** [l.slice(0, e)] for an integer [e]; a negative [e] counts from the end. *)
Definition slice0 {A} (l : list A) (e : Z) : list A :=
  let len := Z.of_nat (List.length l) in
  let final := if e <? 0 then Z.max (len + e) 0 else Z.min e len in
  firstn (Z.to_nat final) l.

Definition getTransactionsForBlock (maxCount : Z) (s : MempoolService)
  : list PendingTx :=
  let sorted := sort comparefn (getAllTransactions s) in
  slice0 sorted maxCount.

(** [handleBlockAdded]: the transactions of the block leave the pool;
    the result counts the removals. *)
Definition handleBlockAdded (block : Ledger.Block) (s : MempoolService)
  : Z * MempoolService :=
  List.fold_left
    (fun acc tx =>
       let '(r, s') := removeTransaction (Ledger.tx_id tx) (snd acc) in
       (if r then fst acc + 1 else fst acc, s'))
    (Ledger.transactions block) (0, s).

(** [removeExpiredTransactions]: the loop runs over the entries of the
    map and deletes none but the entry it stands on, so it meets every
    entry the map held when the loop began. *)
Definition removeExpiredTransactions (cfg : MempoolConfig) (now : Z)
    (s : MempoolService) : Z * MempoolService :=
  List.fold_left
    (fun acc e =>
       if expirationTime cfg <? now - addedAt (snd e)
       then
         let '(r, s') := removeTransaction (fst e) (snd acc) in
         (if r then fst acc + 1 else fst acc, s')
       else acc)
    (pendingTransactions s) (0, s).

(** *** Vocabulary of the properties and sample data *)

(** The sort leaves [x] before [y] only if the comparison function does
    not ask for the opposite order. *)
Definition inOrder (x y : PendingTx) : Prop := gtb (comparefn x y) zero = false.

Definition sampleConfig : MempoolConfig :=
  {| maxSize := 5000; maxSizePerAccount := 100; minFee := of_Z 1;
     expirationTime := 3600000 |}.

Definition emptyPool : MempoolService :=
  {| pendingTransactions := []; transactionsByAccount := ∅; added := [] |}.

Definition feeTx (i from : string) (f : Z) : Ledger.Transaction :=
  {| Ledger.tx_id := i; Ledger.tx_from := from; Ledger.tx_to := "bob";
     Ledger.tx_amount := 1; Ledger.tx_fee := f; Ledger.tx_timestamp := 1700000001000;
     Ledger.tx_type := Ledger.TRANSFER; Ledger.tx_data := None;
     Ledger.tx_signature := "sig"; Ledger.tx_nonce := JsNumber.of_Z 0 |}.

(** Two transactions whose fees, 2^53 and 2^53 + 1, have the same
    [Number] value, admitted in this order. *)
Definition samplePool : MempoolService :=
  let s := snd (addTransaction sampleConfig 1700000002000
                  (feeTx "low" "alice" 9007199254740992) emptyPool) in
  snd (addTransaction sampleConfig 1700000003000
         (feeTx "high" "carol" 9007199254740993) s).

(** The ids pooled for an account, read off the pool itself. *)
Definition idsOf (a : string) (s : MempoolService) : gset string :=
  list_to_set
    (List.map fst
       (List.filter (fun e => String.eqb (Ledger.tx_from (ptx (snd e))) a)
                    (pendingTransactions s))).

(** The pool is a map (no id twice) and the account index agrees with
    it, holding no empty set. *)
Definition indexed (s : MempoolService) : Prop :=
  NoDup (List.map fst (pendingTransactions s))
  /\ (forall a, getTransactionsByAccount a s = idsOf a s)
  /\ (forall a, transactionsByAccount s !! a <> Some ∅).

Definition expired (cfg : MempoolConfig) (now : Z) (e : string * PendingTx) : bool :=
  expirationTime cfg <? now - addedAt (snd e).

Definition inBlock (block : Ledger.Block) (e : string * PendingTx) : bool :=
  existsb (fun tx => String.eqb (fst e) (Ledger.tx_id tx)) (Ledger.transactions block).

(** A pool of three transactions with fees 3, 7 and 5, admitted in this
    order at the times 100, 200 and 300. *)
Definition smallPool : MempoolService :=
  let s := snd (addTransaction sampleConfig 100 (feeTx "t3" "alice" 3) emptyPool) in
  let s := snd (addTransaction sampleConfig 200 (feeTx "t7" "carol" 7) s) in
  snd (addTransaction sampleConfig 300 (feeTx "t5" "alice" 5) s).

End Mempool.

(* ===================================================================== *)
(** ** Currency: CurrencyConverter *)
(* ===================================================================== *)

(** The amounts are BigInt values: [/] truncates towards zero and [%]
    takes the sign of the dividend, which are [Z.quot] and [Z.rem]. *)
Module Currency.

Definition CASH_PER_CHUCKRAM : Z := 16.
Definition CHUCKRAMS_PER_FANAM : Z := 4.
Definition FANAMS_PER_VARAHA : Z := 16.
Definition CHUCKRAMS_PER_LAKH : Z := 100000.
Definition CHUCKRAMS_PER_CRORE : Z := 10000000.

Record ChuckramDenomination : Type := {
  crores : Z;
  lakhs : Z;
  varahas : Z;
  fanams : Z;
  chuckrams : Z;
  cash : Z
}.

Definition cashPerCrore : Z := CHUCKRAMS_PER_CRORE * CASH_PER_CHUCKRAM.
Definition cashPerLakh : Z := CHUCKRAMS_PER_LAKH * CASH_PER_CHUCKRAM.
Definition cashPerVaraha : Z := FANAMS_PER_VARAHA * CHUCKRAMS_PER_FANAM * CASH_PER_CHUCKRAM.
Definition cashPerFanam : Z := CHUCKRAMS_PER_FANAM * CASH_PER_CHUCKRAM.
Definition cashPerChuckram : Z := CASH_PER_CHUCKRAM.

Definition cashToDenomination (totalCash : Z) : ChuckramDenomination :=
  let remaining := totalCash in
  let crores := Z.quot remaining cashPerCrore in
  let remaining := Z.rem remaining cashPerCrore in
  let lakhs := Z.quot remaining cashPerLakh in
  let remaining := Z.rem remaining cashPerLakh in
  let varahas := Z.quot remaining cashPerVaraha in
  let remaining := Z.rem remaining cashPerVaraha in
  let fanams := Z.quot remaining cashPerFanam in
  let remaining := Z.rem remaining cashPerFanam in
  let chuckrams := Z.quot remaining cashPerChuckram in
  let cash := Z.rem remaining cashPerChuckram in
  {| crores := crores; lakhs := lakhs; varahas := varahas; fanams := fanams;
     chuckrams := chuckrams; cash := cash |}.

Definition denominationToCash (denom : ChuckramDenomination) : Z :=
  crores denom * cashPerCrore
  + lakhs denom * cashPerLakh
  + varahas denom * cashPerVaraha
  + fanams denom * cashPerFanam
  + chuckrams denom * cashPerChuckram
  + cash denom.

Definition cashToChuckrams (cash : Z) : Z := Z.quot cash CASH_PER_CHUCKRAM.
Definition chuckramsToCash (chuckrams : Z) : Z := chuckrams * CASH_PER_CHUCKRAM.
Definition chuckramsToFanams (chuckrams : Z) : Z := Z.quot chuckrams CHUCKRAMS_PER_FANAM.
Definition fanamsToChuckrams (fanams : Z) : Z := fanams * CHUCKRAMS_PER_FANAM.

(** One part of the display, pushed when the count is positive. *)
Definition part (count : Z) (unit : string) : list string :=
  if 0 <? count then [(showZ count ++ " " ++ unit)%string] else [].

Definition formatDenomination (denom : ChuckramDenomination) : string :=
  let parts :=
    part (crores denom) "Cr" ++ part (lakhs denom) "L" ++ part (varahas denom) "V"
    ++ part (fanams denom) "F" ++ part (chuckrams denom) "₹C" ++ part (cash denom) "c" in
  match parts with
  | [] => "0 c"
  | _ => String.concat " " parts
  end.

(** *** Vocabulary of the properties *)

(** The breakdowns [cashToDenomination] produces for amounts that are
    not negative. *)
Definition canonical (d : ChuckramDenomination) : Prop :=
  0 <= crores d /\ 0 <= lakhs d < 100 /\ 0 <= varahas d
  /\ 0 <= fanams d < 16 /\ 0 <= chuckrams d < 4 /\ 0 <= cash d < 16
  /\ varahas d * cashPerVaraha + fanams d * cashPerFanam
     + chuckrams d * cashPerChuckram + cash d < cashPerLakh.

End Currency.

(* ===================================================================== *)
(** ** CoreBlockchain: the balance update of the library class Blockchain *)
(* ===================================================================== *)

Module CoreBlockchain.

Definition balanceOf (a : string) (b : gmap string Z) : Z := default 0 (b !! a).

(** [processTransaction]: the fee is added back under [tx.from]. *)
Definition processTransaction (tx : Ledger.Transaction) (b : gmap string Z)
  : gmap string Z :=
  let b :=
    if String.eqb (Ledger.tx_from tx) "SYSTEM" then b
    else <[Ledger.tx_from tx :=
             balanceOf (Ledger.tx_from tx) b - Ledger.tx_amount tx - Ledger.tx_fee tx]> b in
  let b := <[Ledger.tx_to tx := balanceOf (Ledger.tx_to tx) b + Ledger.tx_amount tx]> b in
  if 0 <? Ledger.tx_fee tx
  then <[Ledger.tx_from tx := balanceOf (Ledger.tx_from tx) b + Ledger.tx_fee tx]> b
  else b.

End CoreBlockchain.

(* ===================================================================== *)
(** ** Consensus: ConsensusEngine *)
(* ===================================================================== *)

Module Consensus.
Import JsNumber.

Inductive ValidatorType : Type := GOVERNMENT | CITIZEN.

(** [votingPower] is integer valued wherever the repository sets it; below
    [2^53] its sums are exact, so they are accumulated in [Z] and converted
    where the code divides.  Heights are integers as well. *)
Record Validator : Type := {
  address : string;
  vtype : ValidatorType;
  stake : option Z;
  votingPower : Z;
  active : bool;
  lastActiveBlock : Z;
  registeredAt : Z
}.

Record ConsensusConfig : Type := {
  minValidators : Z;
  maxValidators : Z;
  blockTime : Z;
  governmentValidatorRatio : number;
  citizenValidatorRatio : number;
  requiredConsensus : number;
  validatorRotationInterval : Z
}.

(** Validators are objects: the two maps hold references, and
    [finalizeBlock] writes [lastActiveBlock] through them. *)
Definition ref : Type := positive.

Record ConsensusState : Type := {
  currentValidators : gmap string ref;
  pendingValidators : gmap string ref;
  lastRotationBlock : Z;
  currentProposer : string;
  round : Z
}.

(** The ECDSA signature of [CryptoUtils.sign] is kept symbolic. *)
Inductive Signature : Type := Signed (privateKey data : string).

Record Vote : Type := {
  validatorAddress : string;
  blockHash : string;
  blockHeight : Z;
  signature : Signature;
  timestamp : Z
}.

Inductive Error : Type :=
| InvalidOrInactiveValidator
| NoActiveValidators.

(** [objects] is the store of validator objects; [notified] lists the
    blocks the [onBlockFinalized] callback was called with. *)
Record ConsensusEngine : Type := {
  config : ConsensusConfig;
  state : ConsensusState;
  votes : gmap string (list Vote);
  onBlockFinalized : bool;
  objects : gmap ref Validator;
  notified : list Ledger.Block
}.

Definition set_state (f : ConsensusState -> ConsensusState) (eng : ConsensusEngine)
  : ConsensusEngine :=
  {| config := config eng; state := f (state eng); votes := votes eng;
     onBlockFinalized := onBlockFinalized eng; objects := objects eng;
     notified := notified eng |}.

Definition set_votes (f : gmap string (list Vote) -> gmap string (list Vote))
    (eng : ConsensusEngine) : ConsensusEngine :=
  {| config := config eng; state := state eng; votes := f (votes eng);
     onBlockFinalized := onBlockFinalized eng; objects := objects eng;
     notified := notified eng |}.

Definition set_objects (f : gmap ref Validator -> gmap ref Validator)
    (eng : ConsensusEngine) : ConsensusEngine :=
  {| config := config eng; state := state eng; votes := votes eng;
     onBlockFinalized := onBlockFinalized eng; objects := f (objects eng);
     notified := notified eng |}.

Definition notify (block : Ledger.Block) (eng : ConsensusEngine) : ConsensusEngine :=
  {| config := config eng; state := state eng; votes := votes eng;
     onBlockFinalized := onBlockFinalized eng; objects := objects eng;
     notified := notified eng ++ [block] |}.

Definition set_current (f : gmap string ref -> gmap string ref) (st : ConsensusState)
  : ConsensusState :=
  {| currentValidators := f (currentValidators st);
     pendingValidators := pendingValidators st;
     lastRotationBlock := lastRotationBlock st;
     currentProposer := currentProposer st;
     round := round st |}.

Definition set_pending (f : gmap string ref -> gmap string ref) (st : ConsensusState)
  : ConsensusState :=
  {| currentValidators := currentValidators st;
     pendingValidators := f (pendingValidators st);
     lastRotationBlock := lastRotationBlock st;
     currentProposer := currentProposer st;
     round := round st |}.

Definition set_lastRotationBlock (h : Z) (st : ConsensusState) : ConsensusState :=
  {| currentValidators := currentValidators st;
     pendingValidators := pendingValidators st;
     lastRotationBlock := h;
     currentProposer := currentProposer st;
     round := round st |}.

Definition set_proposer (p : string) (st : ConsensusState) : ConsensusState :=
  {| currentValidators := currentValidators st;
     pendingValidators := pendingValidators st;
     lastRotationBlock := lastRotationBlock st;
     currentProposer := p;
     round := round st + 1 |}.

Definition set_lastActiveBlock (h : Z) (v : Validator) : Validator :=
  {| address := address v; vtype := vtype v; stake := stake v;
     votingPower := votingPower v; active := active v;
     lastActiveBlock := h; registeredAt := registeredAt v |}.

(** [new ConsensusEngine(config)] *)
Definition create (cfg : ConsensusConfig) : ConsensusEngine :=
  {| config := cfg;
     state := {| currentValidators := ∅; pendingValidators := ∅;
                 lastRotationBlock := 0; currentProposer := ""; round := 0 |};
     votes := ∅;
     onBlockFinalized := false;
     objects := ∅;
     notified := [] |}.

(** A new validator object in the store. *)
Definition alloc (v : Validator) (eng : ConsensusEngine) : ref * ConsensusEngine :=
  let l := fresh (dom (objects eng)) in
  (l, set_objects (insert l v) eng).

(** One step of the [forEach] loops that count validators by type. *)
Definition countStep (objs : gmap ref Validator) (a : string) (l : ref) (acc : Z * Z)
  : Z * Z :=
  match objs !! l with
  | Some v =>
      match vtype v with
      | GOVERNMENT => (fst acc + 1, snd acc)
      | CITIZEN => (fst acc, snd acc + 1)
      end
  | None => acc
  end.

Definition addValidator (l : ref) (eng : ConsensusEngine) : bool * ConsensusEngine :=
  let st := state eng in
  let cfg := config eng in
  let currentCount := Z.of_nat (size (currentValidators st)) in
  let pendingCount := Z.of_nat (size (pendingValidators st)) in
  let totalValidators := currentCount + pendingCount in
  if maxValidators cfg <=? totalValidators then (false, eng)
  else
    match objects eng !! l with
    | None => (false, eng)
    | Some validator =>
        let counts := map_fold (countStep (objects eng)) (0, 0) (currentValidators st) in
        let counts := map_fold (countStep (objects eng)) counts (pendingValidators st) in
        let '(govCount, citizenCount) :=
          match vtype validator with
          | GOVERNMENT => (fst counts + 1, snd counts)
          | CITIZEN => (fst counts, snd counts + 1)
          end in
        let total := govCount + citizenCount in
        let govRatio := div (of_Z govCount) (of_Z total) in
        let citizenRatio := div (of_Z citizenCount) (of_Z total) in
        let maxGovRatio := add (governmentValidatorRatio cfg) (literal 1 10) in
        let maxCitizenRatio := add (citizenValidatorRatio cfg) (literal 1 10) in
        match vtype validator with
        | GOVERNMENT =>
            if gtb govRatio maxGovRatio then (false, eng)
            else (true, set_state (set_pending (insert (address validator) l)) eng)
        | CITIZEN =>
            if gtb citizenRatio maxCitizenRatio then (false, eng)
            else (true, set_state (set_pending (insert (address validator) l)) eng)
        end
    end.

(** One step of the [forEach] of [hasConsensus]: the accumulator is
    [(totalVotingPower, collectedVotingPower)]. *)
Definition powerStep (objs : gmap ref Validator) (uniqueVoters : gset string)
    (a : string) (l : ref) (acc : Z * Z) : Z * Z :=
  match objs !! l with
  | Some validator =>
      (fst acc + votingPower validator,
       if decide (address validator ∈ uniqueVoters)
       then snd acc + votingPower validator else snd acc)
  | None => acc
  end.

Definition epsilon : number := literal 1 10000.
Arguments epsilon : simpl never.

Definition hasConsensus (blockHash : string) (eng : ConsensusEngine) : bool :=
  match votes eng !! blockHash with
  | None => false
  | Some [] => false
  | Some vs =>
      let uniqueVoters : gset string := list_to_set (List.map validatorAddress vs) in
      let '(totalVotingPower, collectedVotingPower) :=
        map_fold (powerStep (objects eng) uniqueVoters) (0, 0)
                 (currentValidators (state eng)) in
      if totalVotingPower =? 0 then false
      else
        let consensusRatio := div (of_Z collectedVotingPower) (of_Z totalVotingPower) in
        geb consensusRatio (sub (requiredConsensus (config eng)) epsilon)
  end.

(** [rotateValidators]: every pending entry is set into the current map
    (replacing an entry under the same address), the pending map is
    cleared, and the current entries more than 100 blocks behind are
    deleted. *)
Definition stale (objs : gmap ref Validator) (currentHeight : Z) (l : ref) : bool :=
  match objs !! l with
  | Some validator => 100 <? currentHeight - lastActiveBlock validator
  | None => false
  end.

Definition rotateValidators (currentHeight : Z) (eng : ConsensusEngine)
  : ConsensusEngine :=
  let promoted :=
    map_fold (fun a l cur => <[a := l]> cur)
             (currentValidators (state eng)) (pendingValidators (state eng)) in
  let toRemove :=
    map_fold (fun a l acc => if stale (objects eng) currentHeight l then a :: acc else acc)
             [] promoted in
  let kept := List.fold_right (fun a cur => delete a cur) promoted toRemove in
  set_state (fun st =>
               set_lastRotationBlock currentHeight
                 (set_pending (fun _ => ∅) (set_current (fun _ => kept) st))) eng.

Section Collation.
(** [a.localeCompare(b)]: the collation of the host. *)
Variable localeCompare : string -> string -> comparison.

(** The stable [sort((a, b) => a.address.localeCompare(b.address))]. *)
Fixpoint insertByAddress (v : Validator) (l : list Validator) : list Validator :=
  match l with
  | [] => [v]
  | w :: l' =>
      match localeCompare (address v) (address w) with
      | Gt => w :: insertByAddress v l'
      | _ => v :: l
      end
  end.

Definition sortByAddress (l : list Validator) : list Validator :=
  List.fold_right insertByAddress [] l.

(** [findIndex], with -1 when no element matches. *)
Fixpoint findIndex {A} (p : A -> bool) (l : list A) : Z :=
  match l with
  | [] => -1
  | x :: l' =>
      if p x then 0
      else let i := findIndex p l' in if i <? 0 then -1 else i + 1
  end.

(** The validator objects of the current map. *)
Definition currentObjects (eng : ConsensusEngine) : list Validator :=
  omap (fun e => objects eng !! snd e) (map_to_list (currentValidators (state eng))).

Definition selectNextProposer : M Error ConsensusEngine unit :=
  fun eng =>
    let validators := sortByAddress (List.filter active (currentObjects eng)) in
    match validators with
    | [] => (Throw NoActiveValidators, eng)
    | first :: _ =>
        let currentIndex :=
          findIndex (fun v => String.eqb (address v) (currentProposer (state eng)))
                    validators in
        let nextIndex := (currentIndex + 1) mod Z.of_nat (List.length validators) in
        let next := List.nth (Z.to_nat nextIndex) validators first in
        (Ok tt, set_state (set_proposer (address next)) eng)
    end.

(** [initializeGenesis(validators)], on references to the validator
    objects. *)
Definition initializeGenesis (validators : list ref) (eng : ConsensusEngine)
  : ConsensusEngine :=
  let vs := omap (fun l => pair l <$> objects eng !! l) validators in
  let eng :=
    List.fold_left
      (fun eng lv => set_state (set_current (insert (address (snd lv)) (fst lv))) eng)
      vs eng in
  match sortByAddress (List.map snd vs) with
  | [] => eng
  | first :: _ =>
      set_state (fun st =>
                   {| currentValidators := currentValidators st;
                      pendingValidators := pendingValidators st;
                      lastRotationBlock := lastRotationBlock st;
                      currentProposer := address first;
                      round := round st |}) eng
  end.

(** [validator.lastActiveBlock = block.header.height] on every object
    of the current map. *)
Definition touchValidators (h : Z) (eng : ConsensusEngine) : ConsensusEngine :=
  set_objects
    (fun objs =>
       map_fold (fun a l objs => alter (set_lastActiveBlock h) l objs)
                objs (currentValidators (state eng))) eng.

Definition finalizeBlock (block : Ledger.Block) : M Error ConsensusEngine unit :=
  let h := Ledger.height (Ledger.header block) in
  modify (touchValidators h) ;;;
  (fun eng =>
     if validatorRotationInterval (config eng) <=? h - lastRotationBlock (state eng)
     then (Ok tt, rotateValidators h eng)
     else (Ok tt, eng)) ;;;
  selectNextProposer ;;;
  (fun eng =>
     if onBlockFinalized eng then (Ok tt, notify block eng) else (Ok tt, eng)) ;;;
  modify (set_votes (delete (Ledger.hash block))).

Definition voteOnBlock (block : Ledger.Block) (voter : string)
    (validatorPrivateKey : string) (now : Z) : M Error ConsensusEngine Vote :=
  fun eng =>
    match currentValidators (state eng) !! voter ≫= (fun l => objects eng !! l) with
    | None => (Throw InvalidOrInactiveValidator, eng)
    | Some validator =>
        if negb (active validator) then (Throw InvalidOrInactiveValidator, eng)
        else
          let vote :=
            {| validatorAddress := voter;
               blockHash := Ledger.hash block;
               blockHeight := Ledger.height (Ledger.header block);
               signature := Signed validatorPrivateKey (Ledger.hash block);
               timestamp := now |} in
          let blockVotes := default [] (votes eng !! Ledger.hash block) in
          let hasAlreadyVoted :=
            existsb (fun v => String.eqb (validatorAddress v) voter) blockVotes in
          let blockVotes := if hasAlreadyVoted then blockVotes else blockVotes ++ [vote] in
          let eng := set_votes (insert (Ledger.hash block) blockVotes) eng in
          let hasReachedConsensus := hasConsensus (Ledger.hash block) eng in
          if hasReachedConsensus && bool_decide (is_Some (votes eng !! Ledger.hash block))
          then (finalizeBlock block ;;; ret vote) eng
          else (Ok vote, eng)
    end.

End Collation.

(** *** Vocabulary of the properties and sample data *)

(** [⌈0.66 * n⌉] *)
Definition need (n : Z) : Z := (66 * n + 99) / 100.

(** The reference leads to the object of an active validator. *)
Definition activeRef (objs : gmap ref Validator) (l : ref) : bool :=
  match objs !! l with
  | Some v => active v
  | None => false
  end.

(** The addresses whose vote [voteOnBlock] accepts: the current validators
    that are active. *)
Definition activeValidators (eng : ConsensusEngine) : gset string :=
  dom (filter (fun e : string * ref => activeRef (objects eng) e.2 = true)
              (currentValidators (state eng))).

(** The distinct addresses recorded for a block hash that are current
    validators. *)
Definition supporters (blockHash : string) (eng : ConsensusEngine) : gset string :=
  list_to_set (List.map validatorAddress (default [] (votes eng !! blockHash)))
  ∩ dom (currentValidators (state eng)).


(** Every current validator has voting power 1. *)
Definition unitPower (eng : ConsensusEngine) : Prop :=
  forall a l, currentValidators (state eng) !! a = Some l ->
    exists v, objects eng !! l = Some v /\ address v = a /\ votingPower v = 1.

(** No rotation is due at the height of the block, or some active current
    validator has no pending validator waiting under its address: the
    rotation inside [finalizeBlock] then leaves an active validator. *)
Definition finalizable (block : Ledger.Block) (eng : ConsensusEngine) : Prop :=
  Ledger.height (Ledger.header block) - lastRotationBlock (state eng)
  < validatorRotationInterval (config eng)
  \/ exists a, a ∈ activeValidators eng /\ pendingValidators (state eng) !! a = None.

(** The consensus test on [collected] out of [total] voting power. *)
Definition ratioReached (cfg : ConsensusConfig) (collected total : Z) : bool :=
  geb (div (of_Z collected) (of_Z total)) (sub (requiredConsensus cfg) epsilon).



(** The vote [voteOnBlock] builds, and the engine once it is recorded. *)
Definition castVote (block : Ledger.Block) (voter key : string) (now : Z) : Vote :=
  {| validatorAddress := voter;
     blockHash := Ledger.hash block;
     blockHeight := Ledger.height (Ledger.header block);
     signature := Signed key (Ledger.hash block);
     timestamp := now |}.

Definition recordVote (block : Ledger.Block) (voter key : string) (now : Z)
    (eng : ConsensusEngine) : ConsensusEngine :=
  let blockVotes := default [] (votes eng !! Ledger.hash block) in
  set_votes
    (insert (Ledger.hash block)
       (if existsb (fun v => String.eqb (validatorAddress v) voter) blockVotes
        then blockVotes else blockVotes ++ [castVote block voter key now])) eng.

(** A sequence of [voteOnBlock] calls [(voter, key, now)] for one block;
    a call that throws leaves the engine as the throw left it. *)
Fixpoint castVotes (cmp : string -> string -> comparison) (block : Ledger.Block)
    (calls : list (string * string * Z)) (eng : ConsensusEngine) : ConsensusEngine :=
  match calls with
  | [] => eng
  | (voter, key, now) :: calls =>
      castVotes cmp block calls (snd (voteOnBlock cmp block voter key now eng))
  end.

(** The distinct active current validators among the callers of a
    sequence of calls: the voters whose calls do not throw. *)
Definition distinctValidators (calls : list (string * string * Z))
    (eng : ConsensusEngine) : gset string :=
  list_to_set (List.map (fun c => c.1.1) calls) ∩ activeValidators eng.

(** The consensus threshold [0.66 - 0.0001] in the kernel's binary64
    arithmetic. *)
Definition threshold64 : float :=
  PrimFloat.sub
    (PrimFloat.div (PrimFloat.of_uint63 (Uint63.of_Z 66))
                   (PrimFloat.of_uint63 (Uint63.of_Z 100)))
    (PrimFloat.div (PrimFloat.of_uint63 (Uint63.of_Z 1))
                   (PrimFloat.of_uint63 (Uint63.of_Z 10000))).

(** The configuration of the engine's test suite. *)
Definition testConfig : ConsensusConfig :=
  {| minValidators := 4; maxValidators := 100; blockTime := 5000;
     governmentValidatorRatio := literal 5 10;
     citizenValidatorRatio := literal 5 10;
     requiredConsensus := literal 66 100;
     validatorRotationInterval := 100 |}.

Definition validator (a : string) (t : ValidatorType) : Validator :=
  {| address := a; vtype := t;
     stake := match t with GOVERNMENT => None | CITIZEN => Some 1000 end;
     votingPower := 1; active := true; lastActiveBlock := 0;
     registeredAt := 1700000000000 |}.

(** The collation of addresses made of digits and upper-case letters. *)
Definition codeUnitCompare : string -> string -> comparison := String.compare.

(** [consensus['onBlockFinalized'] = callback] *)
Definition installCallback (eng : ConsensusEngine) : ConsensusEngine :=
  {| config := config eng; state := state eng; votes := votes eng;
     onBlockFinalized := true; objects := objects eng; notified := notified eng |}.

(** A fresh engine initialised with new validator objects. *)
Definition genesisEngine (cfg : ConsensusConfig) (vs : list Validator) : ConsensusEngine :=
  let '(refs, eng) :=
    List.fold_left
      (fun acc v => let '(l, eng) := alloc v (snd acc) in (fst acc ++ [l], eng))
      vs ([], create cfg) in
  installCallback (initializeGenesis codeUnitCompare refs eng).

Definition testEngine : ConsensusEngine :=
  genesisEngine testConfig
    [validator "GOV1" GOVERNMENT; validator "GOV2" GOVERNMENT;
     validator "CIT1" CITIZEN; validator "CIT2" CITIZEN].

Definition blockAt (h : Z) (bh : string) : Ledger.Block :=
  {| Ledger.header :=
       {| Ledger.version := 1; Ledger.previousHash := "0"; Ledger.merkleRoot := "0";
          Ledger.timestamp := 1700000005000; Ledger.height := h;
          Ledger.validatorAddress := "GOV1"; Ledger.validatorSignature := None |};
     Ledger.transactions := []; Ledger.hash := bh; Ledger.nonce := 0 |}.

Definition call (a : string) : string * string * Z := (a, "privateKey", 1700000006000).

(** 247 validators of voting power 1, and the votes of the first [n]. *)
Definition numbered (i : Z) : string := ("V" ++ showZ i)%string.
Definition largeEngine : ConsensusEngine :=
  genesisEngine testConfig (List.map (fun i => validator (numbered i) CITIZEN) (seqZ 1 247)).
Definition firstVoters (n : Z) : list (string * string * Z) :=
  List.map (fun i => call (numbered i)) (seqZ 1 n).

(** The test engine after a second object was registered under the
    address GOV1. *)
Definition shadowedEngine : ConsensusEngine :=
  let '(l, eng) := alloc (validator "GOV1" GOVERNMENT) testEngine in
  snd (addValidator l eng).

(** [addValidator] on a new validator object. *)
Definition stage (v : Validator) (eng : ConsensusEngine) : ConsensusEngine :=
  let '(l, eng) := alloc v eng in
  snd (addValidator l eng).

Definition retired (a : string) (t : ValidatorType) : Validator :=
  {| address := a; vtype := t;
     stake := match t with GOVERNMENT => None | CITIZEN => Some 1000 end;
     votingPower := 1; active := false; lastActiveBlock := 0;
     registeredAt := 1700000000000 |}.

(** The test engine after an inactive validator was registered under the
    address of each of its four validators. *)
Definition retiringEngine : ConsensusEngine :=
  stage (retired "CIT2" CITIZEN)
    (stage (retired "GOV2" GOVERNMENT)
       (stage (retired "CIT1" CITIZEN)
          (stage (retired "GOV1" GOVERNMENT) testEngine))).





(** Executable forms of [unitPower] and [wellKeyed]. *)
Definition unitPowerb (eng : ConsensusEngine) : bool :=
  forallb (fun e : string * ref =>
             match objects eng !! e.2 with
             | Some v => String.eqb (address v) e.1 && (votingPower v =? 1)
             | None => false
             end)
          (map_to_list (currentValidators (state eng))).



End Consensus.

(* ===================================================================== *)
(** ** P2P: P2PNetwork *)
(* ===================================================================== *)

Module P2P.

Record Peer : Type := {
  peer_id : string;
  peer_address : string;
  peer_port : Z;
  lastSeen : Z;
  peer_version : string;
  peer_chainHeight : Z
}.

Record NetworkConfig : Type := {
  port : Z;
  maxPeers : Z;
  seedPeers : list Peer;
  networkId : string;
  version : string
}.

Inductive MessageType : Type :=
| HANDSHAKE | BLOCK_ANNOUNCEMENT | BLOCK_REQUEST | BLOCK_RESPONSE
| TRANSACTION_ANNOUNCEMENT | PEER_DISCOVERY | PEER_LIST | CONSENSUS_MESSAGE
| PING | PONG.

Record HandshakePayload : Type := {
  hs_version : string;
  hs_networkId : string;
  hs_chainHeight : Z;
  hs_peerId : string
}.

(** The [payload] of a message is untyped; these are the shapes the
    handlers read. *)
Inductive Payload : Type :=
| PHandshake (p : HandshakePayload)
| PBlockAnnouncement (blockHash : string) (blockHeight : Z) (previousHash : string)
| PTransaction (tx : Ledger.Transaction)
| PPeers (peers : list Peer)
| POpaque (data : string)
| PEmpty.

(** A socket: its identity and the [url] a client socket has. *)
Record WebSocket : Type := {
  ws_id : positive;
  url : option string
}.

Inductive Signature : Type :=
| Signed (privateKey : string) (t : MessageType) (p : Payload) (from : string) (ts : Z).

Record NetworkMessage : Type := {
  msg_type : MessageType;
  payload : Payload;
  msg_from : string;
  msg_timestamp : Z;
  msg_signature : option Signature
}.

(** What the node does to the outside: frames sent, sockets closed,
    connections opened, events emitted to its listeners. *)
Inductive Effect : Type :=
| Send (ws : WebSocket) (m : NetworkMessage)
| Close (ws : WebSocket) (code : Z) (reason : string)
| Connect (p : Peer)
| Emit (event : string) (p : Payload).

Inductive Error : Type := TypeError.

Record P2PNetwork : Type := {
  config : NetworkConfig;
  peers : gmap string Peer;
  connections : gmap string WebSocket;
  nodeId : string;
  privateKey : string;
  effects : list Effect
}.

Definition set_peers (f : gmap string Peer -> gmap string Peer) (n : P2PNetwork)
  : P2PNetwork :=
  {| config := config n; peers := f (peers n); connections := connections n;
     nodeId := nodeId n; privateKey := privateKey n; effects := effects n |}.

Definition set_connections (f : gmap string WebSocket -> gmap string WebSocket)
    (n : P2PNetwork) : P2PNetwork :=
  {| config := config n; peers := peers n; connections := f (connections n);
     nodeId := nodeId n; privateKey := privateKey n; effects := effects n |}.

Definition perform (e : Effect) (n : P2PNetwork) : P2PNetwork :=
  {| config := config n; peers := peers n; connections := connections n;
     nodeId := nodeId n; privateKey := privateKey n; effects := effects n ++ [e] |}.

Definition sendMessage (now : Z) (ws : WebSocket) (t : MessageType) (p : Payload)
    (n : P2PNetwork) : P2PNetwork :=
  let sig :=
    match t with
    | PING | PONG => None
    | _ => Some (Signed (privateKey n) t p (nodeId n) now)
    end in
  perform (Send ws {| msg_type := t; payload := p; msg_from := nodeId n;
                      msg_timestamp := now; msg_signature := sig |}) n.

Definition sendHandshake (now : Z) (ws : WebSocket) (n : P2PNetwork) : P2PNetwork :=
  sendMessage now ws HANDSHAKE
    (PHandshake {| hs_version := version (config n);
                   hs_networkId := networkId (config n);
                   hs_chainHeight := 0;
                   hs_peerId := nodeId n |}) n.

Definition sendPong (now : Z) (ws : WebSocket) (n : P2PNetwork) : P2PNetwork :=
  sendMessage now ws PONG PEmpty n.

Definition requestPeerDiscovery (now : Z) (ws : WebSocket) (n : P2PNetwork)
  : P2PNetwork :=
  sendMessage now ws PEER_DISCOVERY PEmpty n.

(** [!ws.url]: no url, or an empty one. *)
Definition noUrl (ws : WebSocket) : bool :=
  match url ws with
  | None => true
  | Some u => String.eqb u ""
  end.

(** A payload without the handshake fields has an undefined [networkId],
    which differs from the configured one. *)
Definition handleHandshake (now : Z) (p : Payload) (tempPeerId : string)
    (ws : WebSocket) (n : P2PNetwork) : P2PNetwork :=
  match p with
  | PHandshake hs =>
      if negb (String.eqb (hs_networkId hs) (networkId (config n)))
      then perform (Close ws 1002 "Invalid network ID") n
      else
        let peer :=
          {| peer_id := hs_peerId hs;
             peer_address := default "" (url ws);
             peer_port := port (config n);
             lastSeen := now;
             peer_version := hs_version hs;
             peer_chainHeight := hs_chainHeight hs |} in
        let n := set_peers (fun ps => <[peer_id peer := peer]> (delete tempPeerId ps)) n in
        let n :=
          match connections n !! tempPeerId with
          | Some connection =>
              set_connections
                (fun cs => <[peer_id peer := connection]> (delete tempPeerId cs)) n
          | None => n
          end in
        let n := if noUrl ws then sendHandshake now ws n else n in
        requestPeerDiscovery now ws n
  | _ => perform (Close ws 1002 "Invalid network ID") n
  end.

Definition connectToPeer (peer : Peer) (n : P2PNetwork) : P2PNetwork :=
  match connections n !! peer_id peer with
  | Some _ => n
  | None => perform (Connect peer) n
  end.

Definition handlePeerDiscovery (p : Payload) (ws : WebSocket)
  : M Error P2PNetwork unit :=
  match p with
  | PPeers ps =>
      modify (fun n =>
        List.fold_left
          (fun n peer =>
             match peers n !! peer_id peer with
             | Some _ => n
             | None =>
                 if String.eqb (peer_id peer) (nodeId n) then n
                 else connectToPeer peer (set_peers (insert (peer_id peer) peer) n)
             end) ps n)
  | _ => throw TypeError
  end.

Definition handleMessage (now : Z) (message : NetworkMessage) (peerId : string)
    (ws : WebSocket) : M Error P2PNetwork unit :=
  match msg_type message with
  | HANDSHAKE => modify (handleHandshake now (payload message) peerId ws)
  | BLOCK_ANNOUNCEMENT => modify (perform (Emit "block-announcement" (payload message)))
  | TRANSACTION_ANNOUNCEMENT => modify (perform (Emit "transaction" (payload message)))
  | PEER_DISCOVERY => handlePeerDiscovery (payload message) ws
  | CONSENSUS_MESSAGE => modify (perform (Emit "consensus-message" (payload message)))
  | PING => modify (sendPong now ws)
  | PONG =>
      modify (set_peers (alter (fun peer =>
        {| peer_id := peer_id peer; peer_address := peer_address peer;
           peer_port := peer_port peer; lastSeen := now;
           peer_version := peer_version peer;
           peer_chainHeight := peer_chainHeight peer |}) peerId))
  | _ => ret tt
  end.

(** The ['message'] listener: an exception of the handler is caught and
    logged. *)
Definition onMessage (now : Z) (message : NetworkMessage) (peerId : string)
    (ws : WebSocket) (n : P2PNetwork) : P2PNetwork :=
  snd (handleMessage now message peerId ws n).

Definition handlePeerDisconnect (peerId : string) (n : P2PNetwork) : P2PNetwork :=
  set_connections (delete peerId) (set_peers (delete peerId) n).

(** [cleanupStalePeers]: every peer not seen for more than two minutes
    is disconnected; the loop deletes none but the entry it stands on. *)
Definition staleTimeout : Z := 120000.

Definition cleanupStalePeers (now : Z) (n : P2PNetwork) : P2PNetwork :=
  map_fold
    (fun peerId peer n =>
       if staleTimeout <? now - lastSeen peer then handlePeerDisconnect peerId n else n)
    n (peers n).

(** *** Vocabulary of the properties and sample data *)

(** The [networkId] field a payload carries, if any. *)
Definition payloadNetworkId (p : Payload) : option string :=
  match p with
  | PHandshake hs => Some (hs_networkId hs)
  | _ => None
  end.

Definition sampleNetwork : P2PNetwork :=
  {| config := {| port := 8333; maxPeers := 50; seedPeers := [];
                  networkId := "chuckram-mainnet"; version := "1.0.0" |};
     peers := {["CHKpeer1" :=
                  {| peer_id := "CHKpeer1"; peer_address := "ws://10.0.0.1:8333";
                     peer_port := 8333; lastSeen := 1700000000000;
                     peer_version := "1.0.0"; peer_chainHeight := 7 |}]};
     connections := {["CHKpeer1" := {| ws_id := 1; url := Some "ws://10.0.0.1:8333" |}]};
     nodeId := "CHKself";
     privateKey := "key";
     effects := [] |}.

Definition inboundSocket : WebSocket := {| ws_id := 2; url := None |}.

Definition foreignHandshake : NetworkMessage :=
  {| msg_type := HANDSHAKE;
     payload := PHandshake {| hs_version := "1.0.0"; hs_networkId := "chuckram-testnet";
                              hs_chainHeight := 3; hs_peerId := "CHKpeer2" |};
     msg_from := "CHKpeer2";
     msg_timestamp := 1700000001000;
     msg_signature := None |}.


End P2P.

(* ===================================================================== *)
(** * Properties *)
(* ===================================================================== *)

(** ** JavaScript numbers *)

Module JsNumberFacts.
Import JsNumber.

Lemma scale_neg (n d e : Z) : e < 0 -> scale n d e = (n * 2 ^ (- e), d).
Proof. intros H. unfold scale. apply Z.leb_gt in H. by rewrite H. Qed.

Lemma scale_nonneg (n d e : Z) : 0 <= e -> scale n d e = (n, d * 2 ^ e).
Proof. intros H. unfold scale. apply Z.leb_le in H. by rewrite H. Qed.

Lemma nearest_even_1 (a : Z) : nearest_even a 1 = a.
Proof. unfold nearest_even. rewrite Z.div_1_r, Z.mod_1_r. reflexivity. Qed.

(** The result of [round_pos] once the exponent and the rounded
    significand are known. *)
Lemma round_pos_eq (n d e a b : Z) :
  exponent_of n d = e ->
  scale n d e = (a, b) ->
  nearest_even a b <> 2 ^ 53 ->
  nearest_even a b <> 0 ->
  e <= 971 ->
  round_pos n d = Finite (nearest_even a b) e.
Proof.
  intros He Hs H53 H0 Hmax. unfold round_pos. rewrite He, Hs.
  apply Z.eqb_neq in H53, H0. rewrite H53, H0.
  assert (Hf : (971 <? e) = false) by (apply Z.ltb_ge; lia).
  rewrite Hf. reflexivity.
Qed.

Lemma pow2_split (k : Z) : 0 <= k <= 52 -> 2 ^ (52 - k) * 2 ^ k = 2 ^ 52.
Proof. intros H. rewrite <- Z.pow_add_r by lia. f_equal. lia. Qed.

(** An integer below [2^53] converts without rounding: the fraction of
    the result is the integer itself. *)
Lemma of_Z_exact (z : Z) :
  1 <= z < 2 ^ 53 ->
  exists m e, of_Z z = Finite m e
              /\ fst (frac m e) = z * snd (frac m e)
              /\ 0 < snd (frac m e).
Proof.
  intros [Hlo Hhi].
  assert (Hk : 0 <= Z.log2 z < 53).
  { split; [apply Z.log2_nonneg|]. apply Z.log2_lt_pow2; lia. }
  destruct (Z.log2_spec z ltac:(lia)) as [Hl Hu].
  remember (Z.log2 z) as k eqn:Ek.
  pose proof (pow2_split k ltac:(lia)) as Hp.
  assert (Hpos : 0 < 2 ^ (52 - k)) by (apply Z.pow_pos_nonneg; lia).
  assert (Hpk : 0 < 2 ^ k) by (apply Z.pow_pos_nonneg; lia).
  assert (Ha : 2 ^ 52 <= z * 2 ^ (52 - k) < 2 ^ 53).
  { replace (Z.succ k) with (k + 1) in Hu by lia.
    rewrite Z.pow_add_r in Hu by lia. change (2 ^ 1) with 2 in Hu.
    change (2 ^ 53) with (2 * 2 ^ 52). nia. }
  assert (He : exponent_of z 1 = k - 52).
  { unfold exponent_of. change (Z.log2 1) with 0. rewrite Z.sub_0_r, <- Ek.
    destruct (Z.eq_dec k 52) as [->|Hne].
    - rewrite scale_nonneg by lia. change (52 - 52) with 0 in *.
      change (1 * 2 ^ 0) with 1. change (2 ^ 0) with 1 in *.
      assert (Ht : (2 ^ 52 * 1 <=? z) = true) by (apply Z.leb_le; lia).
      rewrite Ht. lia.
    - rewrite scale_neg by lia. replace (- (k - 52)) with (52 - k) by lia.
      assert (Ht : (2 ^ 52 * 1 <=? z * 2 ^ (52 - k)) = true) by (apply Z.leb_le; lia).
      rewrite Ht. lia. }
  unfold of_Z, round. destruct z as [|p|p]; [lia| |lia].
  destruct (Z.eq_dec k 52) as [->|Hne].
  - exists (Z.pos p), 0. split.
    + rewrite (round_pos_eq _ _ _ (Z.pos p) 1 He); rewrite ?nearest_even_1;
        [reflexivity|by rewrite scale_nonneg|lia|lia|lia].
    + unfold frac. simpl. lia.
  - exists (Z.pos p * 2 ^ (52 - k)), (k - 52). split.
    + rewrite (round_pos_eq _ _ _ (Z.pos p * 2 ^ (52 - k)) 1 He);
        rewrite ?nearest_even_1; [reflexivity| |lia|lia|lia].
      rewrite scale_neg by lia. by replace (- (k - 52)) with (52 - k) by lia.
    + unfold frac. assert (Hf : (0 <=? k - 52) = false) by (apply Z.leb_gt; lia).
      rewrite Hf. simpl. replace (- (k - 52)) with (52 - k) by lia. lia.
Qed.

Lemma exponent_of_half_one (n d : Z) :
  0 < n -> d <= 2 * n -> n < d -> exponent_of n d = -53.
Proof.
  intros Hn Hlo Hhi.
  assert (Hk : Z.log2 n - Z.log2 d = 0 \/ Z.log2 n - Z.log2 d = -1).
  { pose proof (Z.log2_le_mono n d ltac:(lia)).
    pose proof (Z.log2_le_mono d (2 * n) Hlo) as H2.
    rewrite Z.log2_double in H2 by lia. lia. }
  unfold exponent_of. destruct Hk as [-> | ->].
  - rewrite scale_neg by lia. change (- (0 - 52)) with 52.
    assert (Ht : (2 ^ 52 * d <=? n * 2 ^ 52) = false) by (apply Z.leb_gt; lia).
    rewrite Ht. reflexivity.
  - rewrite scale_neg by lia. change (- (-1 - 52)) with 53.
    assert (Ht : (2 ^ 52 * d <=? n * 2 ^ 53) = true) by (apply Z.leb_le; lia).
    rewrite Ht. reflexivity.
Qed.

Lemma nearest_even_bounds (a b : Z) :
  0 < b -> a / b <= nearest_even a b <= a / b + 1.
Proof.
  intros Hb. unfold nearest_even.
  repeat (match goal with |- context [if ?c then _ else _] => destruct c end); lia.
Qed.

(** Rounding a fraction of [[1/2, 1)]: the exponent is -53. *)
Lemma round_half_one (n d : Z) :
  0 < n -> d <= 2 * n -> n < d ->
  round n d
  = let m := nearest_even (n * 2 ^ 53) d in
    if m =? 2 ^ 53 then Finite (2 ^ 52) (-52) else Finite m (-53).
Proof.
  intros Hn Hlo Hhi.
  pose proof (exponent_of_half_one n d Hn Hlo Hhi) as He.
  assert (Hq : 2 ^ 52 <= n * 2 ^ 53 / d).
  { apply Z.div_le_lower_bound; lia. }
  pose proof (nearest_even_bounds (n * 2 ^ 53) d ltac:(lia)) as Hm.
  unfold round. destruct n as [|p|p]; [lia| |lia].
  unfold round_pos. rewrite He, scale_neg by lia. change (- -53) with 53.
  cbv zeta. destruct (nearest_even (Z.pos p * 2 ^ 53) d =? 2 ^ 53) eqn:E.
  - reflexivity.
  - change (971 <? -53) with false. cbv iota.
    assert (H0 : (nearest_even (Z.pos p * 2 ^ 53) d =? 0) = false)
      by (apply Z.eqb_neq; lia).
    by rewrite H0.
Qed.




(** The quotient of two integers below [2^53] is the rounded exact
    quotient, up to a common positive factor. *)
Lemma div_of_Z (x y : Z) :
  1 <= x < 2 ^ 53 -> 1 <= y < 2 ^ 53 ->
  exists p, 0 < p /\ div (of_Z x) (of_Z y) = round (x * p) (y * p).
Proof.
  intros Hx Hy.
  destruct (of_Z_exact x Hx) as (mx & ex & -> & Hfx & Hbx).
  destruct (of_Z_exact y Hy) as (my & ey & -> & Hfy & Hby).
  unfold div. destruct (frac mx ex) as [a b], (frac my ey) as [c d].
  simpl in *. subst a c.
  exists (b * d). split; [lia|].
  destruct (y * d) as [|q|q] eqn:E; [nia| |nia].
  rewrite <- E. f_equal; lia.
Qed.


(** *** Signs *)

Lemma scale_sign (n d e : Z) :
  0 <= n -> 0 < d -> 0 <= fst (scale n d e) /\ 0 < snd (scale n d e).
Proof.
  intros Hn Hd. unfold scale. destruct (0 <=? e) eqn:E; simpl.
  - apply Z.leb_le in E. split; [done|]. apply Z.mul_pos_pos; [done|].
    by apply Z.pow_pos_nonneg.
  - apply Z.leb_gt in E. split; [|done]. apply Z.mul_nonneg_nonneg; [done|].
    apply Z.pow_nonneg. lia.
Qed.

Lemma nearest_even_nonneg (a b : Z) : 0 <= a -> 0 < b -> 0 <= nearest_even a b.
Proof.
  intros Ha Hb. unfold nearest_even.
  assert (0 <= a / b) by (apply Z.div_pos; lia).
  repeat (match goal with |- context [if ?c then _ else _] => destruct c end); lia.
Qed.

Lemma round_pos_nonneg (n d : Z) : 0 <= n -> 0 < d -> nonneg (round_pos n d).
Proof.
  intros Hn Hd. unfold round_pos.
  destruct (scale_sign n d (exponent_of n d) Hn Hd) as [Ha Hb].
  destruct (scale n d (exponent_of n d)) as [a b]. simpl in Ha, Hb.
  pose proof (nearest_even_nonneg a b Ha Hb) as Hm.
  destruct (nearest_even a b =? 2 ^ 53).
  - destruct (971 <? exponent_of n d + 1); [done|]. simpl. lia.
  - destruct (971 <? exponent_of n d); [done|].
    destruct (nearest_even a b =? 0); simpl; lia.
Qed.

Lemma frac_sign (m e : Z) :
  0 < snd (frac m e) /\ (0 < fst (frac m e) <-> 0 < m).
Proof.
  unfold frac. destruct (0 <=? e) eqn:E; simpl.
  - apply Z.leb_le in E. split; [lia|].
    pose proof (Z.pow_pos_nonneg 2 e ltac:(lia) E). nia.
  - apply Z.leb_gt in E. split; [|done]. apply Z.pow_pos_nonneg; lia.
Qed.

Lemma gtb_zero_Finite (m e : Z) : gtb (Finite m e) zero = true <-> 0 < m.
Proof.
  unfold gtb, ltb, zero, compare.
  destruct (frac_sign m e) as [Hd Hs].
  change (frac 0 0) with (0, 1). destruct (frac m e) as [c d]. simpl in Hd, Hs.
  cbv beta iota zeta.
  destruct (Z.compare_spec (0 * d) (c * 1)) as [E|E|E].
  - split; [discriminate|]. intros Hm. apply Hs in Hm. exfalso. lia.
  - split; [|done]. intros _. apply Hs. lia.
  - split; [discriminate|]. intros Hm. apply Hs in Hm. exfalso. lia.
Qed.

Lemma gtb_zero_nonneg_neg (x : number) : nonneg x -> gtb (neg x) zero = false.
Proof.
  destruct x as [m e| | |]; simpl; try done.
  intros Hm. destruct (gtb (Finite (- m) e) zero) eqn:E; [|done].
  apply gtb_zero_Finite in E. lia.
Qed.

Lemma gtb_zero_round (n d : Z) :
  0 < d -> gtb (round n d) zero = true -> 0 < n.
Proof.
  intros Hd. destruct n as [|p|p]; unfold round; [discriminate|lia|].
  rewrite gtb_zero_nonneg_neg; [discriminate|].
  apply round_pos_nonneg; lia.
Qed.

Lemma round_not_NaN (n d : Z) : round n d <> NaN.
Proof.
  assert (H : forall n d, round_pos n d <> NaN).
  { intros n' d'. unfold round_pos. destruct (scale n' d' _) as [a b].
    destruct (nearest_even a b =? 2 ^ 53);
      repeat (match goal with |- context [if ?c then _ else _] => destruct c end);
      done. }
  destruct n as [|p|p]; unfold round; [done|apply H|].
  specialize (H (- Z.neg p) d). destruct (round_pos (- Z.neg p) d); done.
Qed.

(** *** Comparisons against a threshold in [[1/2, 1)] *)

(** Comparison of two finite numbers with negative exponents. *)
Lemma geb_neg_exponents (m1 e1 m2 e2 : Z) :
  e1 < 0 -> e2 < 0 ->
  geb (Finite m1 e1) (Finite m2 e2) = (m2 * 2 ^ (- e1) <=? m1 * 2 ^ (- e2)).
Proof.
  intros H1 H2. unfold geb, compare, frac.
  apply Z.leb_gt in H1, H2. rewrite H1, H2. cbv beta iota zeta.
  destruct (Z.compare_spec (m1 * 2 ^ (- e2)) (m2 * 2 ^ (- e1)));
    destruct (Z.leb_spec (m2 * 2 ^ (- e1)) (m1 * 2 ^ (- e2))); try done; lia.
Qed.

Lemma geb_zero_pos (m e : Z) : 0 < m -> geb zero (Finite m e) = false.
Proof.
  intros Hm. unfold geb, zero, compare.
  destruct (frac_sign m e) as [Hd Hs]. apply Hs in Hm.
  change (frac 0 0) with (0, 1). destruct (frac m e) as [c d]. simpl in Hm, Hd.
  cbv beta iota zeta.
  destruct (Z.compare_spec (0 * d) (c * 1)); try done; lia.
Qed.

(** A fraction equal to 1 rounds to 1. *)
Lemma round_same (x : Z) : 0 < x -> round x x = Finite (2 ^ 52) (-52).
Proof.
  intros Hx.
  assert (He : exponent_of x x = -52).
  { unfold exponent_of. rewrite Z.sub_diag, scale_neg by lia.
    change (- (0 - 52)) with 52.
    assert (Ht : (2 ^ 52 * x <=? x * 2 ^ 52) = true) by (apply Z.leb_le; lia).
    rewrite Ht. reflexivity. }
  assert (Hm : nearest_even (x * 2 ^ 52) x = 2 ^ 52).
  { unfold nearest_even. rewrite (Z.mul_comm x), Z.div_mul, Z.mod_mul by lia.
    assert (Ht : (2 * 0 <? x) = true) by (apply Z.ltb_lt; lia).
    by rewrite Ht. }
  unfold round. destruct x as [|p|p]; [lia| |lia].
  rewrite (round_pos_eq _ _ (-52) (Z.pos p * 2 ^ 52) (Z.pos p)); rewrite ?Hm;
    [reflexivity|done|by rewrite scale_neg|done|done|lia].
Qed.

Lemma exponent_of_below_one (n d : Z) :
  0 < n -> n <= d -> -1074 <= exponent_of n d <= -52.
Proof.
  intros Hn Hd. pose proof (Z.log2_le_mono n d Hd).
  unfold exponent_of. destruct (scale n d _) as [a b].
  destruct (2 ^ 52 * b <=? a); lia.
Qed.

(** A fraction below 1/2 does not round above 1/2. *)
Lemma round_below_half (n d mT : Z) :
  0 < n -> 2 * n < d -> 2 ^ 52 < mT ->
  geb (round n d) (Finite mT (-53)) = false.
Proof.
  intros Hn Hd HT.
  pose proof (exponent_of_below_one n d Hn ltac:(lia)) as He.
  unfold round. destruct n as [|p|p]; [lia| |lia].
  unfold round_pos. set (e := exponent_of (Z.pos p) d) in *.
  rewrite scale_neg by lia.
  set (P := 2 ^ (- e - 1)).
  assert (HP : 2 ^ (- e) = 2 * P).
  { unfold P. replace (- e) with (1 + (- e - 1)) at 1 by lia.
    rewrite Z.pow_add_r by lia. reflexivity. }
  assert (HP51 : 2 ^ 51 <= P) by (apply Z.pow_le_mono_r; lia).
  rewrite HP.
  pose proof (nearest_even_bounds (Z.pos p * (2 * P)) d ltac:(lia)) as Hm.
  assert (Hq : Z.pos p * (2 * P) / d < P).
  { apply Z.div_lt_upper_bound; [lia|]. nia. }
  assert (H0 : 0 <= nearest_even (Z.pos p * (2 * P)) d)
    by (apply nearest_even_nonneg; lia).
  set (m := nearest_even (Z.pos p * (2 * P)) d) in *.
  destruct (m =? 2 ^ 53) eqn:E53.
  - apply Z.eqb_eq in E53.
    assert (Hf : (971 <? e + 1) = false) by (apply Z.ltb_ge; lia).
    rewrite Hf. change (2 ^ 52 =? 0) with false. cbv iota.
    rewrite geb_neg_exponents by lia. apply Z.leb_gt.
    replace (- (e + 1)) with (- e - 1) by lia. fold P.
    change (- -53) with 53. change (2 ^ 53) with (2 * 2 ^ 52) in *. nia.
  - assert (Hf : (971 <? e) = false) by (apply Z.ltb_ge; lia).
    rewrite Hf. destruct (m =? 0) eqn:E0.
    + apply geb_zero_pos. lia.
    + rewrite geb_neg_exponents by lia. apply Z.leb_gt.
      rewrite HP. change (- -53) with 53. change (2 ^ 53) with (2 * 2 ^ 52). nia.
Qed.

(** A fraction of [[1/2, 1)] against a threshold of the same binade. *)
Lemma round_half_one_geb (n d mT : Z) :
  0 < n -> d <= 2 * n -> n < d -> 2 ^ 52 <= mT < 2 ^ 53 ->
  (mT * d <= n * 2 ^ 53 -> geb (round n d) (Finite mT (-53)) = true)
  /\ (n * 2 ^ 53 < (mT - 1) * d -> geb (round n d) (Finite mT (-53)) = false).
Proof.
  intros Hn Hlo Hhi HT.
  rewrite round_half_one by done. cbv zeta.
  pose proof (nearest_even_bounds (n * 2 ^ 53) d ltac:(lia)) as Hm.
  set (m := nearest_even (n * 2 ^ 53) d) in *.
  split.
  - intros Hge.
    assert (Hq : mT <= n * 2 ^ 53 / d) by (apply Z.div_le_lower_bound; lia).
    destruct (m =? 2 ^ 53).
    + rewrite geb_neg_exponents by lia. apply Z.leb_le.
      change (- -52) with 52. change (- -53) with 53.
      change (2 ^ 53) with (2 * 2 ^ 52) in *. nia.
    + rewrite geb_neg_exponents by lia. apply Z.leb_le. nia.
  - intros Hlt.
    assert (Hq : n * 2 ^ 53 / d < mT - 1) by (apply Z.div_lt_upper_bound; lia).
    destruct (m =? 2 ^ 53) eqn:E; [apply Z.eqb_eq in E; lia|].
    rewrite geb_neg_exponents by lia. apply Z.leb_gt.
    assert (0 < 2 ^ (- -53)) by done. nia.
Qed.

Lemma div_zero_of_Z (n : Z) : 1 <= n < 2 ^ 53 -> div (of_Z 0) (of_Z n) = zero.
Proof.
  intros Hn. destruct (of_Z_exact n Hn) as (m & e & -> & Hf & Hb).
  change (of_Z 0) with (Finite 0 0). unfold div.
  change (frac 0 0) with (0, 1). destruct (frac m e) as [c d]. simpl in *.
  destruct c as [|q|q]; [nia|reflexivity|nia].
Qed.

(** *** Differences of integers *)

Lemma of_Z_exact0 (z : Z) :
  0 <= z < 2 ^ 53 ->
  exists m e, of_Z z = Finite m e
              /\ fst (frac m e) = z * snd (frac m e)
              /\ 0 < snd (frac m e).
Proof.
  intros Hz. destruct (Z.eq_dec z 0) as [->|Hne].
  - exists 0, 0. done.
  - apply of_Z_exact. lia.
Qed.

Lemma frac_neg (m e : Z) :
  fst (frac (- m) e) = - fst (frac m e) /\ snd (frac (- m) e) = snd (frac m e).
Proof. unfold frac. destruct (0 <=? e); simpl; split; lia. Qed.

Lemma scale_ge_one (n d : Z) :
  0 < d -> d <= n ->
  0 < snd (scale n d (exponent_of n d))
  /\ snd (scale n d (exponent_of n d)) <= fst (scale n d (exponent_of n d)).
Proof.
  intros Hd Hn.
  assert (He : exponent_of n d < 0
               \/ 0 <= exponent_of n d <= Z.log2 n - Z.log2 d - 52).
  { unfold exponent_of. destruct (scale n d _) as [a b].
    destruct (2 ^ 52 * b <=? a); lia. }
  destruct He as [He|He].
  - rewrite scale_neg by done. simpl. split; [done|].
    assert (0 < 2 ^ (- exponent_of n d)) by (apply Z.pow_pos_nonneg; lia). nia.
  - rewrite scale_nonneg by lia. simpl.
    set (e := exponent_of n d) in *.
    assert (Hpe : 0 < 2 ^ e) by (apply Z.pow_pos_nonneg; lia).
    split; [nia|].
    destruct (Z.log2_spec d Hd) as [_ Hdu].
    destruct (Z.log2_spec n ltac:(lia)) as [Hnl _].
    pose proof (Z.log2_nonneg d) as Hd0.
    assert (Hle : 2 ^ (Z.succ (Z.log2 d)) * 2 ^ e <= 2 ^ Z.log2 n).
    { rewrite <- Z.pow_add_r by lia. apply Z.pow_le_mono_r; lia. }
    nia.
Qed.

(** A fraction that is at least 1 rounds to a positive number. *)
Lemma round_ge_one_pos (n d : Z) :
  0 < d -> d <= n -> gtb (round n d) zero = true.
Proof.
  intros Hd Hn. unfold round. destruct n as [|p|p]; [lia| |lia].
  unfold round_pos.
  destruct (scale_ge_one (Z.pos p) d Hd Hn) as [Hb Hab].
  destruct (scale (Z.pos p) d (exponent_of (Z.pos p) d)) as [a b]. simpl in Hb, Hab.
  pose proof (nearest_even_bounds a b Hb) as Hm.
  assert (Hq : 1 <= a / b) by (apply Z.div_le_lower_bound; lia).
  destruct (nearest_even a b =? 2 ^ 53).
  - destruct (971 <? exponent_of (Z.pos p) d + 1); [done|]. by apply gtb_zero_Finite.
  - destruct (971 <? exponent_of (Z.pos p) d); [done|].
    destruct (nearest_even a b =? 0) eqn:E0; [apply Z.eqb_eq in E0; lia|].
    apply gtb_zero_Finite. lia.
Qed.

(** [Number(y) - Number(x)] is positive for integers [x < y] that
    [Number] represents exactly. *)
Lemma sub_of_Z_pos (x y : Z) :
  0 <= x -> x < y -> y < 2 ^ 53 -> gtb (sub (of_Z y) (of_Z x)) zero = true.
Proof.
  intros Hx Hxy Hy.
  destruct (of_Z_exact0 x ltac:(lia)) as (mx & ex & -> & Hfx & Hbx).
  destruct (of_Z_exact0 y ltac:(lia)) as (my & ey & -> & Hfy & Hby).
  unfold sub, neg, add.
  destruct (frac_neg mx ex) as [Hn1 Hn2].
  destruct (frac my ey) as [a b], (frac (- mx) ex) as [c d], (frac mx ex) as [c' d'].
  simpl in *. subst. apply round_ge_one_pos; nia.
Qed.

(** *** The order of numbers *)

Lemma compare_Finite (m1 e1 m2 e2 : Z) :
  compare (Finite m1 e1) (Finite m2 e2)
  = Some (fst (frac m1 e1) * snd (frac m2 e2) ?= fst (frac m2 e2) * snd (frac m1 e1)).
Proof. unfold compare. by destruct (frac m1 e1), (frac m2 e2). Qed.

Lemma compare_NaN (x y : number) : compare x y = None <-> x = NaN \/ y = NaN.
Proof.
  destruct x as [m1 e1| | |], y as [m2 e2| | |];
    rewrite ?compare_Finite; unfold compare; split; intros H;
    try discriminate; try (destruct H; discriminate); auto.
Qed.

Lemma compare_refl (x : number) : x <> NaN -> compare x x = Some Eq.
Proof.
  destruct x as [m e| | |]; try done; intros _.
  by rewrite compare_Finite, Z.compare_refl.
Qed.

Lemma compare_flip (x y : number) :
  compare y x = CompOpp <$> compare x y.
Proof.
  destruct x as [m1 e1| | |], y as [m2 e2| | |];
    rewrite ?compare_Finite; try reflexivity.
  simpl. by rewrite Z.compare_antisym.
Qed.

(** [x < y] and [y <= z] give [x < z]. *)
Lemma ltb_geb_trans (x y z : number) :
  ltb x y = true -> geb z y = true -> ltb x z = true.
Proof.
  unfold ltb, geb.
  destruct x as [m1 e1| | |], y as [m2 e2| | |], z as [m3 e3| | |];
    rewrite ?compare_Finite; try (unfold compare; done).
  destruct (frac_sign m1 e1) as [H1 _], (frac_sign m2 e2) as [H2 _],
           (frac_sign m3 e3) as [H3 _].
  destruct (frac m1 e1) as [a b], (frac m2 e2) as [c d], (frac m3 e3) as [p q].
  simpl in *.
  destruct (a * d ?= c * b) eqn:E1; try done. intros _.
  destruct (p * d ?= c * q) eqn:E2; try done; intros _.
  - apply Z.compare_eq in E2. apply Z.compare_lt_iff in E1.
    assert (Hlt : a * q < p * b); [|by apply Z.compare_lt_iff in Hlt; rewrite Hlt].
    apply (Z.mul_lt_mono_pos_r d); [done|].
    assert (a * d * q < c * b * q) by (by apply Z.mul_lt_mono_pos_r).
    assert (c * q * b <= p * d * b) by (apply Z.mul_le_mono_nonneg_r; lia).
    lia.
  - apply Z.compare_gt_iff in E2. apply Z.compare_lt_iff in E1.
    assert (Hlt : a * q < p * b); [|by apply Z.compare_lt_iff in Hlt; rewrite Hlt].
    apply (Z.mul_lt_mono_pos_r d); [done|].
    assert (a * d * q < c * b * q) by (by apply Z.mul_lt_mono_pos_r).
    assert (c * q * b <= p * d * b) by (apply Z.mul_le_mono_nonneg_r; lia).
    lia.
Qed.

(** [x <= y] and [y < z] give [x < z]. *)
Lemma geb_ltb_trans (x y z : number) :
  geb y x = true -> ltb y z = true -> ltb x z = true.
Proof.
  unfold ltb, geb.
  destruct x as [m1 e1| | |], y as [m2 e2| | |], z as [m3 e3| | |];
    rewrite ?compare_Finite; try (unfold compare; done).
  destruct (frac_sign m1 e1) as [H1 _], (frac_sign m2 e2) as [H2 _],
           (frac_sign m3 e3) as [H3 _].
  destruct (frac m1 e1) as [a b], (frac m2 e2) as [c d], (frac m3 e3) as [p q].
  simpl in *. intros E1 E2.
  assert (Hle : a * d <= c * b)
    by (destruct (Z.compare_spec (c * b) (a * d)); try done; lia).
  assert (Hlt : c * q < p * d)
    by (destruct (Z.compare_spec (c * q) (p * d)); try done; lia).
  assert (a * q < p * b).
  { apply (Z.mul_lt_mono_pos_r d); [done|].
    assert (a * d * q <= c * b * q) by (apply Z.mul_le_mono_nonneg_r; lia).
    assert (c * q * b < p * d * b) by (by apply Z.mul_lt_mono_pos_r).
    lia. }
  destruct (Z.compare_spec (a * q) (p * b)); try done; lia.
Qed.

(** [x <= y] and [y <= z] give [x <= z]. *)
Lemma geb_trans (x y z : number) :
  geb y x = true -> geb z y = true -> geb z x = true.
Proof.
  unfold geb.
  destruct x as [m1 e1| | |], y as [m2 e2| | |], z as [m3 e3| | |];
    rewrite ?compare_Finite; try (unfold compare; done).
  destruct (frac_sign m1 e1) as [H1 _], (frac_sign m2 e2) as [H2 _],
           (frac_sign m3 e3) as [H3 _].
  destruct (frac m1 e1) as [a b], (frac m2 e2) as [c d], (frac m3 e3) as [p q].
  simpl in *. intros E1 E2.
  assert (Hle1 : a * d <= c * b)
    by (destruct (Z.compare_spec (c * b) (a * d)); try done; lia).
  assert (Hle2 : c * q <= p * d)
    by (destruct (Z.compare_spec (p * d) (c * q)); try done; lia).
  assert (Hle : a * q <= p * b).
  { apply (Z.mul_le_mono_pos_r _ _ d); [done|].
    assert (a * d * q <= c * b * q) by (apply Z.mul_le_mono_nonneg_r; lia).
    assert (c * q * b <= p * d * b) by (apply Z.mul_le_mono_nonneg_r; lia).
    lia. }
  destruct (Z.compare_spec (p * b) (a * q)); try done. lia.
Qed.

Lemma Math_max_not_NaN (x y : number) :
  x <> NaN -> y <> NaN -> Math_max x y <> NaN.
Proof.
  intros Hx Hy. unfold Math_max.
  destruct (compare x y) as [[]|] eqn:E; try done.
  apply compare_NaN in E. tauto.
Qed.

(** [x < Math.max(c, y)] exactly when [x < c] or [x < y]. *)
Lemma ltb_Math_max (x c y : number) :
  c <> NaN -> y <> NaN ->
  ltb x (Math_max c y) = ltb x c || ltb x y.
Proof.
  intros Hc Hy. unfold Math_max.
  pose proof (compare_flip c y) as Hflip.
  destruct (compare c y) as [[]|] eqn:E; simpl in Hflip.
  - destruct (ltb x y) eqn:Ey; [|by rewrite orb_false_r].
    rewrite orb_true_r. apply (ltb_geb_trans x y c Ey). unfold geb. by rewrite E.
  - destruct (ltb x c) eqn:Ec; [|done]. simpl.
    apply (ltb_geb_trans x c y Ec). unfold geb. by rewrite Hflip.
  - destruct (ltb x y) eqn:Ey; [|by rewrite orb_false_r].
    rewrite orb_true_r. apply (ltb_geb_trans x y c Ey). unfold geb. by rewrite E.
  - apply compare_NaN in E. tauto.
Qed.

Lemma geb_Math_max_l (c y : number) :
  c <> NaN -> y <> NaN -> geb (Math_max c y) c = true.
Proof.
  intros Hc Hy. unfold Math_max.
  pose proof (compare_flip c y) as Hflip.
  destruct (compare c y) as [[]|] eqn:E; simpl in Hflip.
  - unfold geb. by rewrite compare_refl.
  - unfold geb. by rewrite Hflip.
  - unfold geb. by rewrite compare_refl.
  - apply compare_NaN in E. tauto.
Qed.

Lemma orZero_not_NaN (x : number) : orZero x <> NaN.
Proof. destruct x as [[|p|p] e| | |]; done. Qed.

(** [x || 0] is [x] in every comparison, unless [x] is NaN. *)
Lemma compare_orZero_r (x y : number) :
  y <> NaN -> compare x (orZero y) = compare x y.
Proof.
  intros Hy. destruct y as [[|p|p] e| | |]; try done.
  destruct x as [m1 e1| | |]; try reflexivity.
  change (orZero (Finite 0 e)) with (Finite 0 0). rewrite !compare_Finite.
  destruct (frac_sign m1 e1) as [H1 _].
  destruct (frac_sign 0 e) as [H2 _].
  assert (H0 : fst (frac 0 e) = 0) by (unfold frac; destruct (0 <=? e); simpl; lia).
  change (frac 0 0) with (0, 1). simpl. rewrite H0.
  destruct (frac m1 e1) as [a b], (frac 0 e) as [c d]. simpl in *.
  f_equal.
  destruct (Z.compare_spec (a * 1) (0 * b)), (Z.compare_spec (a * d) (0 * b));
    try done; nia.
Qed.

Lemma compare_orZero_l (x y : number) :
  y <> NaN -> compare (orZero y) x = compare y x.
Proof.
  intros Hy. rewrite (compare_flip x), (compare_flip x y).
  by rewrite compare_orZero_r.
Qed.

Lemma of_Z_1 : of_Z 1 = Finite (2 ^ 52) (-52).
Proof. reflexivity. Qed.

(** [x + 1] is NaN only when [x] is. *)
Lemma add_one_not_NaN (x : number) : x <> NaN -> add x (of_Z 1) <> NaN.
Proof.
  intros Hx. rewrite of_Z_1. unfold add. destruct x as [m e| | |]; try done.
  destruct (frac m e), (frac (2 ^ 52) (-52)). apply round_not_NaN.
Qed.

(** *** Adding one *)

Lemma exponent_of_below_2_53 (n d : Z) :
  0 < d -> d <= n -> n < 2 ^ 53 * d -> exponent_of n d <= 0.
Proof.
  intros Hd Hn Hlt.
  destruct (Z.log2_spec d Hd) as [Hdl Hdu].
  destruct (Z.log2_spec n ltac:(lia)) as [Hnl Hnu].
  pose proof (Z.log2_nonneg d) as Hd0.
  assert (Hk : Z.log2 n - Z.log2 d <= 53).
  { destruct (Z_le_gt_dec (Z.log2 n - Z.log2 d) 53) as [|Hgt]; [done|exfalso].
    assert (Hle : 2 ^ 53 * 2 ^ Z.succ (Z.log2 d) <= 2 ^ Z.log2 n).
    { rewrite <- Z.pow_add_r by lia. apply Z.pow_le_mono_r; lia. }
    nia. }
  unfold exponent_of.
  destruct (Z.eq_dec (Z.log2 n - Z.log2 d) 53) as [E|E].
  - rewrite E. change (53 - 52) with 1. rewrite scale_nonneg by lia.
    change (2 ^ 1) with 2.
    assert (Ht : (2 ^ 52 * (d * 2) <=? n) = false).
    { apply Z.leb_gt. change (2 ^ 53) with (2 ^ 52 * 2) in Hlt. lia. }
    rewrite Ht. lia.
  - destruct (scale n d _) as [a b]. destruct (2 ^ 52 * b <=? a); lia.
Qed.

Lemma ltb_Finite (m1 e1 m2 e2 : Z) :
  ltb (Finite m1 e1) (Finite m2 e2) = true
  <-> fst (frac m1 e1) * snd (frac m2 e2) < fst (frac m2 e2) * snd (frac m1 e1).
Proof.
  unfold ltb. rewrite compare_Finite.
  destruct (Z.compare_spec (fst (frac m1 e1) * snd (frac m2 e2))
                           (fst (frac m2 e2) * snd (frac m1 e1))); split; try done; lia.
Qed.

(** The sum [k + 1] rounds to a number above [k] as long as it stays
    below [2^53]. *)
Lemma ltb_round_succ (m e n d k : Z) :
  0 < d -> 0 <= k -> k + 1 < 2 ^ 53 ->
  fst (frac m e) = k * snd (frac m e) ->
  n = (k + 1) * d ->
  ltb (Finite m e) (round n d) = true.
Proof.
  intros Hd Hk Hk1 Hf ->.
  destruct (frac_sign m e) as [Hb _].
  assert (Hn : 0 < (k + 1) * d) by nia.
  unfold round. destruct ((k + 1) * d) as [|p|p] eqn:Ep; [lia| |lia].
  rewrite <- Ep in *. clear Ep p.
  pose proof (exponent_of_below_2_53 ((k + 1) * d) d Hd ltac:(nia) ltac:(nia)) as He.
  unfold round_pos.
  set (e' := exponent_of ((k + 1) * d) d) in *.
  clearbody e'.
  assert (Hp : 0 < 2 ^ (- e')) by (apply Z.pow_pos_nonneg; lia).
  assert (Hval : forall m', (k + 1) * 2 ^ (- e') <= m' ->
            ltb (Finite m e) (Finite m' e') = true
            /\ (m' = 2 ^ 53 -> ltb (Finite m e) (Finite (2 ^ 52) (e' + 1)) = true)).
  { intros m' Hm'. rewrite !ltb_Finite.
    destruct (frac m e) as [a b]. simpl in Hf, Hb. subst a. split.
    - unfold frac. destruct (Z.leb_spec 0 e') as [E0|E0]; simpl.
      + assert (e' = 0) by lia. subst e'. change (2 ^ (- 0)) with 1 in *.
        change (2 ^ 0) with 1. nia.
      + nia.
    - intros ->. unfold frac. destruct (Z.leb_spec 0 (e' + 1)) as [E0|E0]; simpl.
      + assert (e' = 0 \/ e' = -1) as [E | E] by lia; subst e'.
        * change (2 ^ (0 + 1)) with 2. change (2 ^ 52) with 4503599627370496.
          change (2 ^ 53) with 9007199254740992 in *. nia.
        * change (2 ^ (-1 + 1)) with 1. change (2 ^ 52) with 4503599627370496.
          change (2 ^ 53) with 9007199254740992 in *.
          change (2 ^ (- -1)) with 2 in *. nia.
      + assert (Hs : 2 ^ (- e') = 2 * 2 ^ (- (e' + 1))).
        { replace (- e') with (1 + - (e' + 1)) by lia.
          rewrite Z.pow_add_r by lia. reflexivity. }
        assert (0 < 2 ^ (- (e' + 1))) by (apply Z.pow_pos_nonneg; lia).
        change (2 ^ 53) with (2 * 2 ^ 52) in Hm'. nia. }
  assert (Hm : exists a b, scale ((k + 1) * d) d e' = (a, b) /\ 0 < b
                           /\ (k + 1) * 2 ^ (- e') <= nearest_even a b).
  { destruct (Z.eq_dec e' 0) as [E0|E0].
    - subst e'. rewrite scale_nonneg by lia.
      change (2 ^ 0) with 1. change (2 ^ (- 0)) with 1.
      exists ((k + 1) * d), (d * 1). split; [done|]. split; [lia|].
      pose proof (nearest_even_bounds ((k + 1) * d) (d * 1) ltac:(lia)) as [Hq _].
      replace ((k + 1) * d / (d * 1)) with (k + 1) in Hq; [lia|].
      rewrite Z.mul_1_r. by rewrite Z.div_mul by lia.
    - rewrite scale_neg by lia.
      exists ((k + 1) * d * 2 ^ (- e')), d. split; [done|]. split; [done|].
      pose proof (nearest_even_bounds ((k + 1) * d * 2 ^ (- e')) d Hd) as [Hq _].
      replace ((k + 1) * d * 2 ^ (- e')) with ((k + 1) * 2 ^ (- e') * d) in Hq by lia.
      rewrite Z.div_mul in Hq by lia.
      replace ((k + 1) * d * 2 ^ (- e')) with ((k + 1) * 2 ^ (- e') * d) by lia. done. }
  destruct Hm as (a & b & -> & Hb' & Hm).
  destruct (Hval _ Hm) as [Hv1 Hv2].
  destruct (nearest_even a b =? 2 ^ 53) eqn:E53.
  - apply Z.eqb_eq in E53.
    assert (Hno : (971 <? e' + 1) = false) by (apply Z.ltb_ge; lia). rewrite Hno.
    change (2 ^ 52 =? 0) with false. cbv iota. by apply Hv2.
  - assert (Hno : (971 <? e') = false) by (apply Z.ltb_ge; lia). rewrite Hno.
    assert (Hnz : (nearest_even a b =? 0) = false) by (apply Z.eqb_neq; nia).
    by rewrite Hnz.
Qed.

(** [n + 1 > n] holds in binary64 for the integers from 0 to [2^53 - 2]. *)
Lemma add_one_above (n : Z) :
  0 <= n < 2 ^ 53 - 1 -> ltb (of_Z n) (add (of_Z n) (of_Z 1)) = true.
Proof.
  intros Hn.
  destruct (of_Z_exact0 n ltac:(lia)) as (m & e & -> & Hf & Hb).
  rewrite of_Z_1. unfold add.
  change (frac (2 ^ 52) (-52)) with (2 ^ 52, 2 ^ 52).
  destruct (frac m e) as [a b] eqn:Efr. simpl in Hf, Hb.
  apply (ltb_round_succ m e _ _ n); try lia.
  by rewrite Efr.
Qed.

(** From [2^53] on the sum is rounded back. *)
Lemma add_one_rounded : add (of_Z (2 ^ 53)) (of_Z 1) = of_Z (2 ^ 53).
Proof. vm_compute. reflexivity. Qed.
End JsNumberFacts.

(** ** Ledger *)

Module LedgerFacts.
Import Ledger.

Lemma getBalance_setBalance (a b : string) (v : Z) (s : StateManager) :
  getBalance a (setBalance b v s) = if decide (a = b) then v else getBalance a s.
Proof.
  unfold getBalance, setBalance; simpl.
  destruct (decide (a = b)) as [->|Hne].
  - by rewrite lookup_insert_eq.
  - by rewrite lookup_insert_ne.
Qed.

Lemma getBalance_creditFee (a : string) (f : Z) (s : StateManager) :
  0 <= f ->
  getBalance a (creditFee f s)
  = getBalance a s + (if decide (a = systemAddress) then f else 0).
Proof.
  intros Hf. unfold creditFee.
  destruct (0 <? f) eqn:E.
  - rewrite getBalance_setBalance. destruct (decide (a = systemAddress)) as [->|]; lia.
  - apply Z.ltb_ge in E. destruct (decide (a = systemAddress)); lia.
Qed.


Lemma creditFee_other (f : Z) (s : StateManager) :
  validators (creditFee f s) = validators s
  /\ nonces (creditFee f s) = nonces s
  /\ sm_chainHeight (creditFee f s) = sm_chainHeight s
  /\ sm_lastBlockHash (creditFee f s) = sm_lastBlockHash s
  /\ sm_emitted (creditFee f s) = sm_emitted s.
Proof. unfold creditFee. destruct (0 <? f); done. Qed.

Lemma applyTransferTransaction_rejects (tx : Transaction) (s : StateManager) :
  getBalance (tx_from tx) s < tx_amount tx + tx_fee tx ->
  applyTransferTransaction tx s
  = (Throw (InsufficientBalance (tx_from tx) (getBalance (tx_from tx) s)
              (tx_amount tx + tx_fee tx)), s).
Proof.
  intros H. unfold applyTransferTransaction.
  apply Z.ltb_lt in H. by rewrite H.
Qed.


Lemma applyTransaction_insufficient (tx : Transaction) (s : StateManager) (d : Z) :
  requiredDebit tx = Some d ->
  getBalance (tx_from tx) s < d ->
  applyTransaction tx s
  = (Throw (InsufficientBalance (tx_from tx) (getBalance (tx_from tx) s) d), s).
Proof.
  unfold requiredDebit, applyTransaction, bind. intros Hd Hlt.
  destruct (tx_type tx); try discriminate.
  - injection Hd as <-. by rewrite applyTransferTransaction_rejects.
  - unfold applyValidatorRegistration.
    destruct (tx_data tx) as [dt|]; [|discriminate]. injection Hd as <-.
    apply Z.ltb_lt in Hlt. by rewrite Hlt.
  - injection Hd as <-. unfold applyBurnTransaction.
    apply Z.ltb_lt in Hlt. by rewrite Hlt.
Qed.

Lemma forEachM_app {E S A} (body : A -> M E S unit) (xs ys : list A) (s s1 : S) :
  forEachM body xs s = (Ok tt, s1) ->
  forEachM body (xs ++ ys) s = forEachM body ys s1.
Proof.
  revert s. induction xs as [|x xs IH]; simpl; intros s H.
  - unfold ret in H. by injection H as <-.
  - unfold bind in *. destruct (body x s) as [[[]|e] s'] eqn:Hx; [|discriminate].
    by apply IH.
Qed.

Lemma applyBlock_first_failure (b : Block) (pre post : list Transaction)
    (t : Transaction) (sm sm1 : StateManager) (d : Z) :
  transactions b = pre ++ t :: post ->
  forEachM applyTransaction pre sm = (Ok tt, sm1) ->
  requiredDebit t = Some d ->
  getBalance (tx_from t) sm1 < d ->
  applyBlock b sm
  = (Throw (InsufficientBalance (tx_from t) (getBalance (tx_from t) sm1) d), sm1).
Proof.
  intros Htx Hpre Hd Hlt. unfold applyBlock, bind at 1.
  rewrite Htx, (forEachM_app _ _ _ _ _ Hpre). simpl. unfold bind at 1.
  by rewrite (applyTransaction_insufficient _ _ _ Hd Hlt).
Qed.

(** C1, as the code has it: a block that passes validation, is not yet
    indexed and lies above the chain height, and whose transaction [t] finds
    the sender short of the required debit after the transactions [pre]
    before it were applied, makes [addBlock] raise the insufficient-balance
    error.  The failing transaction and those after it have no effect; the
    account state is the one the transactions before it produced, and the
    block stays indexed by hash and height with the chain head advanced. *)
Theorem addBlock_insufficient_balance (b : Block) (s : BlockchainService)
    (pre post : list Transaction) (t : Transaction) (sm1 : StateManager) (d : Z) :
  blocks s !! hash b = None ->
  validateBlock b s = true ->
  chainHeight s < height (header b) ->
  transactions b = pre ++ t :: post ->
  forEachM applyTransaction pre (stateManager s) = (Ok tt, sm1) ->
  requiredDebit t = Some d ->
  getBalance (tx_from t) sm1 < d ->
  addBlock b s
  = (Throw (InsufficientBalance (tx_from t) (getBalance (tx_from t) sm1) d),
     {| blocks := <[hash b := b]> (blocks s);
        blocksByHeight := <[height (header b) := hash b]> (blocksByHeight s);
        lastBlockHash := Some (hash b);
        chainHeight := height (header b);
        initialized := initialized s;
        stateManager := sm1;
        emitted := emitted s |}).
Proof.
  intros Hnew Hvalid Hhigh Htx Hpre Hd Hlt.
  unfold addBlock. rewrite Hnew, Hvalid. simpl.
  apply Z.ltb_lt in Hhigh. rewrite Hhigh.
  unfold bind, modify, onStateManager. simpl.
  by rewrite (applyBlock_first_failure _ _ _ _ _ _ _ Htx Hpre Hd Hlt).
Qed.

Lemma addBlock_insufficient_balance_witness :
  let sm1 := snd (applyTransaction sampleTx1 (stateManager sampleService)) in
  addBlock sampleBlock sampleService
  = (Throw (InsufficientBalance (tx_from sampleTx2) (getBalance (tx_from sampleTx2) sm1) 5),
     {| blocks := <[hash sampleBlock := sampleBlock]> (blocks sampleService);
        blocksByHeight :=
          <[height (header sampleBlock) := hash sampleBlock]> (blocksByHeight sampleService);
        lastBlockHash := Some (hash sampleBlock);
        chainHeight := height (header sampleBlock);
        initialized := initialized sampleService;
        stateManager := sm1;
        emitted := emitted sampleService |}).
Proof.
  apply (addBlock_insufficient_balance sampleBlock sampleService
           [sampleTx1] [] sampleTx2 _ 5).
  - vm_compute. reflexivity.
  - vm_compute. reflexivity.
  - vm_compute. reflexivity.
  - reflexivity.
  - vm_compute. reflexivity.
  - reflexivity.
  - vm_compute. reflexivity.
Defined.

(** C1 fails as stated: the first transfer of the sample block stays
    applied although the second one lacks funds, and the block stays
    indexed. *)
Lemma addBlock_partial_application :
  fst (addBlock sampleBlock sampleService) = Throw (InsufficientBalance "carol" 0 5)
  /\ getBalance "alice" (stateManager sampleService) = 100
  /\ getBalance "alice" (stateManager (snd (addBlock sampleBlock sampleService))) = 89
  /\ getBalance "bob" (stateManager (snd (addBlock sampleBlock sampleService))) = 10
  /\ getNonce "alice" (stateManager (snd (addBlock sampleBlock sampleService)))
     = JsNumber.of_Z 1
  /\ blocks (snd (addBlock sampleBlock sampleService)) !! hash sampleBlock
     = Some sampleBlock
  /\ chainHeight (snd (addBlock sampleBlock sampleService)) = 1.
Proof. vm_compute. repeat split; reflexivity. Qed.

(** *** Transfers *)

Lemma balanceOf_insert (a k : string) (v : Z) (b : gmap string Z) :
  CoreBlockchain.balanceOf a (<[k := v]> b)
  = if decide (a = k) then v else CoreBlockchain.balanceOf a b.
Proof.
  unfold CoreBlockchain.balanceOf. destruct (decide (a = k)) as [->|Hne].
  - by rewrite lookup_insert_eq.
  - by rewrite lookup_insert_ne.
Qed.




(** *** Block validation *)

Lemma eqb_false_ne (a b : string) : String.eqb a b = false <-> a <> b.
Proof. apply String.eqb_neq. Qed.

(** C5 fails as stated: a block of height 0 with the all-zero previous
    hash whose stored hash is not the recomputed one is rejected. *)
Lemma validateBlock_genesis_wrong_hash :
  height (header forgedGenesis) = 0
  /\ previousHash (header forgedGenesis) = zeros 64
  /\ validateBlock forgedGenesis emptyService = false.
Proof. vm_compute. repeat split; reflexivity. Qed.

(** C5, as the code has it.  For a block whose stored hash is non-empty
    and equals the recomputed hash: with height 0 and the all-zero previous
    hash it is accepted whatever its validator address and whatever the
    ledger holds (no previous block is looked up); with a non-zero height
    it is accepted only through the checks against the block indexed one
    height below, so the genesis test never applies; and the block that
    differs from an accepted genesis only in having height 1 is rejected
    unless both its recomputed hash collides with the stored one and the
    block indexed at height 0 has the all-zero hash. *)
Theorem validateBlock_genesis_exemption (b : Block) (s : BlockchainService) :
  hash b <> "" ->
  calculateBlockHash b = hash b ->
  (height (header b) = 0 -> previousHash (header b) = zeros 64 ->
   validateBlock b s = true
   /\ (validateBlock (withHeight 1 b) s = true ->
       calculateBlockHash (withHeight 1 b) = calculateBlockHash b
       /\ exists prev, getBlockByHeight 0 s = Some prev /\ hash prev = zeros 64))
  /\ (height (header b) <> 0 -> validateBlock b s = true ->
      exists prev,
        getBlockByHeight (height (header b) - 1) s = Some prev
        /\ hash prev = previousHash (header b)
        /\ height (header b) = height (header prev) + 1
        /\ timestamp (header prev) < timestamp (header b)
        /\ calculateMerkleRoot (transactions b) = merkleRoot (header b)).
Proof.
  intros Hne Hhash.
  assert (Hgen : forall b' : Block, height (header b') <> 0 ->
            validateBlock b' s = true ->
            calculateBlockHash b' = hash b'
            /\ exists prev,
              getBlockByHeight (height (header b') - 1) s = Some prev
              /\ hash prev = previousHash (header b')
              /\ height (header b') = height (header prev) + 1
              /\ timestamp (header prev) < timestamp (header b')
              /\ calculateMerkleRoot (transactions b') = merkleRoot (header b')).
  { intros b' Hh. unfold validateBlock.
    destruct (String.eqb (hash b') "") eqn:E1; [discriminate|].
    destruct (String.eqb (calculateBlockHash b') (hash b')) eqn:E2; [|discriminate].
    simpl. apply String.eqb_eq in E2.
    destruct (height (header b') =? 0) eqn:E3; [apply Z.eqb_eq in E3; lia|].
    destruct (getBlockByHeight (height (header b') - 1) s) as [prev|]; [|discriminate].
    destruct (String.eqb (hash prev) (previousHash (header b'))) eqn:E4; [|discriminate].
    destruct (height (header b') =? height (header prev) + 1) eqn:E5; [|discriminate].
    destruct (timestamp (header b') <=? timestamp (header prev)) eqn:E6; [discriminate|].
    destruct (String.eqb (calculateMerkleRoot (transactions b')) (merkleRoot (header b')))
      eqn:E7; [|discriminate].
    simpl. intros _. split; [done|]. exists prev.
    apply String.eqb_eq in E4, E7. apply Z.eqb_eq in E5. apply Z.leb_gt in E6.
    done. }
  split.
  - intros Hh Hprev. split.
    + unfold validateBlock, validateGenesisBlock.
      apply eqb_false_ne in Hne. rewrite Hne.
      rewrite Hhash, String.eqb_refl. simpl.
      rewrite Hh, Hprev, String.eqb_refl. reflexivity.
    + intros Hv. destruct (Hgen (withHeight 1 b)) as (Hc & prev & Hp & Hz & _);
        [simpl; lia|done|].
      simpl in *. split; [congruence|]. exists prev. split; [done|congruence].
  - intros Hh Hv. by destruct (Hgen b Hh Hv) as (_ & H).
Qed.

Lemma validateBlock_genesis_exemption_witness :
  validateBlock sampleGenesis sampleService = true
  /\ validateBlock (withHeight 1 sampleGenesis) sampleService = false
  /\ exists prev,
       getBlockByHeight (height (header sampleBlock) - 1) sampleService = Some prev
       /\ hash prev = previousHash (header sampleBlock).
Proof.
  pose proof (validateBlock_genesis_exemption sampleGenesis sampleService
                ltac:(vm_compute; discriminate) ltac:(vm_compute; reflexivity)) as [Hg _].
  destruct (Hg eq_refl eq_refl) as [Hacc Hrej].
  pose proof (validateBlock_genesis_exemption sampleBlock sampleService
                ltac:(vm_compute; discriminate) ltac:(vm_compute; reflexivity)) as [_ Hn].
  destruct (Hn ltac:(vm_compute; discriminate) ltac:(vm_compute; reflexivity))
    as (prev & Hp & Hh & _).
  split; [exact Hacc|]. split.
  - destruct (validateBlock (withHeight 1 sampleGenesis) sampleService) eqn:E;
      [|reflexivity].
    destruct (Hrej eq_refl) as [Hc _]. vm_compute in Hc. discriminate.
  - exists prev. split; assumption.
Defined.

(** *** Idempotence of addBlock *)

Lemma addBlock_indexes (b : Block) (s s' : BlockchainService) (r : result Error bool) :
  addBlock b s = (r, s') ->
  r <> Ok false ->
  blocks s' !! hash b = Some b.
Proof.
  unfold addBlock. destruct (blocks s !! hash b) eqn:Hb.
  { intros [= <- <-]. done. }
  destruct (validateBlock b s); simpl; [|intros [= <- <-]; done].
  unfold bind, modify, ret, onStateManager; simpl.
  destruct (chainHeight s <? height (header b)).
  - destruct (applyBlock b _) as [[[]|e] sm']; simpl;
      intros [= <- <-] _; simpl; apply lookup_insert_eq.
  - simpl. intros [= <- <-] _; simpl; apply lookup_insert_eq.
Qed.

(** C6: once [addBlock] has added a block, a second call with the same
    block returns false and leaves the whole service (block index, chain
    height, account state, emitted events) as it was. *)
Theorem addBlock_idempotent (b : Block) (s s' : BlockchainService) :
  addBlock b s = (Ok true, s') ->
  addBlock b s' = (Ok false, s').
Proof.
  intros H. apply addBlock_indexes in H; [|discriminate].
  unfold addBlock. by rewrite H.
Qed.

Lemma addBlock_idempotent_witness :
  addBlock sampleGenesis (snd (addBlock sampleGenesis emptyService))
  = (Ok false, snd (addBlock sampleGenesis emptyService)).
Proof.
  apply (addBlock_idempotent sampleGenesis emptyService).
  vm_compute. reflexivity.
Defined.
End LedgerFacts.

(** ** Mempool *)

Module MempoolFacts.
Import JsNumber JsNumberFacts Mempool.

Lemma slice0_length {A} (l : list A) (k : Z) :
  0 <= k -> Z.of_nat (List.length (slice0 l k)) <= k.
Proof.
  intros Hk. unfold slice0.
  destruct (k <? 0) eqn:E; [apply Z.ltb_lt in E; lia|].
  rewrite length_firstn. lia.
Qed.

Lemma insert_sorted_Permutation {A} (cmp : A -> A -> number) (x : A) (l : list A) :
  Permutation (insert_sorted cmp x l) (x :: l).
Proof.
  induction l as [|y l IH]; simpl; [done|].
  destruct (gtb (cmp x y) zero); [|done].
  rewrite IH. apply perm_swap.
Qed.

Lemma sort_Permutation {A} (cmp : A -> A -> number) (l : list A) :
  Permutation (sort cmp l) l.
Proof.
  induction l as [|x l IH]; simpl; [done|].
  rewrite insert_sorted_Permutation. by constructor.
Qed.

(** The result holds at most [maxCount] entries, all of them pooled. *)
Lemma getTransactionsForBlock_bounded (maxCount : Z) (s : MempoolService) :
  0 <= maxCount ->
  Z.of_nat (List.length (getTransactionsForBlock maxCount s)) <= maxCount
  /\ forall t, t ∈ getTransactionsForBlock maxCount s -> t ∈ getAllTransactions s.
Proof.
  intros Hk. split; [by apply slice0_length|].
  intros t Ht. unfold getTransactionsForBlock, slice0 in Ht.
  rewrite <- (sort_Permutation comparefn), <- (firstn_skipn (Z.to_nat
    (if maxCount <? 0
     then Z.max (Z.of_nat (List.length (sort comparefn (getAllTransactions s))) + maxCount) 0
     else Z.min maxCount (Z.of_nat (List.length (sort comparefn (getAllTransactions s))))))
    (sort comparefn (getAllTransactions s))).
  apply elem_of_app. by left.
Qed.

(** *** The order the sort leaves *)

(** The comparison function never asks for both orders of a pair. *)
Lemma comparefn_antisym (x y : PendingTx) :
  gtb (comparefn x y) zero = true -> gtb (comparefn y x) zero = false.
Proof.
  unfold comparefn, sub, of_Z.
  pose proof (round_not_NaN (fee x) 1) as Hx.
  pose proof (round_not_NaN (fee y) 1) as Hy.
  destruct (round (fee x) 1) as [mx ex| | |], (round (fee y) 1) as [my ey| | |];
    try done; cbv [add neg]; try (cbv [gtb ltb compare]; done).
  destruct (frac_sign mx ex) as [Hdx _], (frac_sign my ey) as [Hdy _].
  destruct (frac_sign (- mx) ex) as [Hdx' _], (frac_sign (- my) ey) as [Hdy' _].
  assert (Hnx : fst (frac (- mx) ex) = - fst (frac mx ex)
                /\ snd (frac (- mx) ex) = snd (frac mx ex)).
  { unfold frac. destruct (0 <=? ex); simpl; split; lia. }
  assert (Hny : fst (frac (- my) ey) = - fst (frac my ey)
                /\ snd (frac (- my) ey) = snd (frac my ey)).
  { unfold frac. destruct (0 <=? ey); simpl; split; lia. }
  destruct (frac mx ex) as [a b], (frac my ey) as [c d],
           (frac (- mx) ex) as [a' b'], (frac (- my) ey) as [c' d'].
  simpl in *. destruct Hnx as [-> ->], Hny as [-> ->].
  intros H. apply gtb_zero_round in H; [|nia].
  destruct (gtb (round (a * d + - c * b) (b * d)) zero) eqn:E; [|done].
  apply gtb_zero_round in E; [|nia]. lia.
Qed.

Lemma insert_sorted_Sorted (x : PendingTx) (l : list PendingTx) :
  Sorted inOrder l -> Sorted inOrder (insert_sorted comparefn x l).
Proof.
  induction 1 as [|y l Hl IH Hy]; simpl.
  - repeat constructor.
  - destruct (gtb (comparefn x y) zero) eqn:E.
    + constructor; [exact IH|].
      destruct l as [|z l]; simpl.
      * constructor. by apply comparefn_antisym.
      * destruct (gtb (comparefn x z) zero).
        -- constructor. by inversion Hy.
        -- constructor. by apply comparefn_antisym.
    + constructor; [by constructor|]. constructor. exact E.
Qed.

Lemma sort_Sorted (l : list PendingTx) : Sorted inOrder (sort comparefn l).
Proof.
  induction l as [|x l IH]; simpl; [constructor|].
  by apply insert_sorted_Sorted.
Qed.

Lemma firstn_Sorted {A} (R : A -> A -> Prop) (n : nat) (l : list A) :
  Sorted R l -> Sorted R (firstn n l).
Proof.
  revert l. induction n as [|n IH]; intros l Hl; simpl; [constructor|].
  destruct Hl as [|x l Hl Hx]; [constructor|].
  constructor; [by apply IH|].
  destruct n; simpl; [constructor|].
  destruct Hx; constructor. done.
Qed.

(** What the extraction guarantees: between neighbours of the result the
    comparison [Number(b.fee) - Number(a.fee)] is never positive. *)
Lemma getTransactionsForBlock_Sorted (maxCount : Z) (s : MempoolService) :
  Sorted inOrder (getTransactionsForBlock maxCount s).
Proof. apply firstn_Sorted, sort_Sorted. Qed.

(** C7 fails on the code: the sample pool holds the fees [2^53] and
    [2^53 + 1], in this order; [Number] maps both to [2^53], the comparison
    is 0, the stable sort keeps the insertion order, and the two
    transactions come out with their exact fees increasing. *)
Theorem getTransactionsForBlock_large_fees :
  List.map fee (getAllTransactions samplePool) = [9007199254740992; 9007199254740993]
  /\ List.map fee (getTransactionsForBlock 2 samplePool)
     = [9007199254740992; 9007199254740993]
  /\ of_Z 9007199254740993 = of_Z 9007199254740992.
Proof. vm_compute. repeat split; reflexivity. Qed.
End MempoolFacts.

(** ** Consensus *)

Module ConsensusFacts.
Import JsNumber JsNumberFacts Consensus.

(** *** The loops over the validator maps *)

Lemma powerStep_comm (objs : gmap ref Validator) (U : gset string)
    (a1 a2 : string) (l1 l2 : ref) (acc : Z * Z) :
  powerStep objs U a1 l1 (powerStep objs U a2 l2 acc)
  = powerStep objs U a2 l2 (powerStep objs U a1 l1 acc).
Proof.
  unfold powerStep. destruct (objs !! l1) as [v1|], (objs !! l2) as [v2|]; try done.
  simpl. repeat case_decide; f_equal; lia.
Qed.

Lemma power_fold (objs : gmap ref Validator) (U : gset string) (m : gmap string ref) :
  (forall a l, m !! a = Some l ->
     exists v, objs !! l = Some v /\ address v = a /\ votingPower v = 1) ->
  map_fold (powerStep objs U) (0, 0) m
  = (Z.of_nat (size m), Z.of_nat (size (U ∩ dom m))).
Proof.
  induction m as [|a l m Hnone IH] using map_ind; intros Hm.
  - rewrite map_fold_empty, map_size_empty, dom_empty_L.
    replace (U ∩ ∅) with (∅ : gset string) by set_solver.
    by rewrite size_empty.
  - rewrite map_fold_insert_L; [|intros; apply powerStep_comm|done].
    rewrite IH.
    2:{ intros a' l' H'. apply Hm. rewrite lookup_insert_ne; [done|].
        intros ->. congruence. }
    destruct (Hm a l) as (v & Hv & Ha & Hp); [apply lookup_insert_eq|].
    unfold powerStep. rewrite Hv, Hp, Ha. simpl.
    rewrite map_size_insert_None by done. rewrite dom_insert_L.
    assert (Hnd : a ∉ dom m) by (by apply not_elem_of_dom).
    case_decide as HU.
    + replace (U ∩ ({[a]} ∪ dom m)) with ({[a]} ∪ (U ∩ dom m)) by set_solver.
      assert (Hs := size_union (C:=gset string) {[a]} (U ∩ dom m) ltac:(set_solver)).
      rewrite Hs, size_singleton. f_equal; lia.
    + replace (U ∩ ({[a]} ∪ dom m)) with (U ∩ dom m) by set_solver.
      f_equal; lia.
Qed.






(** *** Admission of validators *)


(** *** Finalization and rotation *)

Lemma set_lastActiveBlock_idem (h : Z) (v : Validator) :
  set_lastActiveBlock h (set_lastActiveBlock h v) = set_lastActiveBlock h v.
Proof. reflexivity. Qed.

(** [touchValidators] rewrites exactly the objects the current map
    refers to. *)
Lemma touch_objects (h : Z) (objs : gmap ref Validator) (m : gmap string ref) (l : ref) :
  map_fold (fun (a : string) (l : ref) (o : gmap ref Validator) =>
              alter (set_lastActiveBlock h) l o) objs m !! l
  = if decide (l ∈ (map_img m : gset ref))
    then set_lastActiveBlock h <$> objs !! l
    else objs !! l.
Proof.
  revert m l. apply (map_fold_weak_ind (fun (r : gmap ref Validator) (m' : gmap string ref) =>
    forall l, r !! l = if decide (l ∈ (map_img m' : gset ref))
                       then set_lastActiveBlock h <$> objs !! l
                       else objs !! l)).
  - intros l. rewrite decide_False; [done|].
    rewrite elem_of_map_img. intros [a Ha]. by rewrite lookup_empty in Ha.
  - intros a x m' r Hnone IH l.
    destruct (decide (x = l)) as [->|Hne].
    + rewrite lookup_alter_eq, IH.
      rewrite (decide_True (P := l ∈ map_img (<[a:=l]> m')))
        by (apply elem_of_map_img; exists a; apply lookup_insert_eq).
      case_decide; [|done].
      destruct (objs !! l); done.
    + rewrite lookup_alter_ne by done. rewrite IH.
      apply decide_ext. rewrite !elem_of_map_img. split; intros [b Hb].
      * exists b. rewrite lookup_insert_ne; [done|]. intros ->. congruence.
      * destruct (decide (a = b)) as [->|Hab].
        -- rewrite lookup_insert_eq in Hb. congruence.
        -- exists b. by rewrite lookup_insert_ne in Hb.
Qed.

Lemma touch_not_stale (h : Z) (eng : ConsensusEngine) (a : string) (l : ref) :
  currentValidators (state eng) !! a = Some l ->
  stale (objects (touchValidators h eng)) h l = false.
Proof.
  intros Ha. unfold stale, touchValidators. simpl.
  rewrite touch_objects, decide_True by (apply elem_of_map_img; by exists a).
  destruct (objects eng !! l) as [v|]; simpl; [|done].
  apply Z.ltb_ge. lia.
Qed.

Lemma promote_union (cur pend : gmap string ref) :
  map_fold (fun (a : string) (l : ref) (c : gmap string ref) => <[a := l]> c) cur pend
  = pend ∪ cur.
Proof.
  revert pend. apply (map_fold_weak_ind (fun (r : gmap string ref) (m : gmap string ref) =>
                              r = m ∪ cur)).
  - by rewrite (left_id_L ∅ (∪)).
  - intros a l m r _ ->. by rewrite insert_union_l.
Qed.

Lemma toRemove_spec (p : ref -> bool) (m : gmap string ref) (a : string) :
  a ∈ map_fold (fun (a : string) (l : ref) (acc : list string) =>
                  if p l then a :: acc else acc) [] m
  <-> exists l, m !! a = Some l /\ p l = true.
Proof.
  revert m a. apply (map_fold_weak_ind (fun (r : list string) (m' : gmap string ref) =>
    forall a, a ∈ r <-> exists l, m' !! a = Some l /\ p l = true)).
  - intros a. split; [by intros ?%elem_of_nil|]. intros (l & Hl & _).
    by rewrite lookup_empty in Hl.
  - intros b x m' r Hnone IH a. destruct (p x) eqn:Hp.
    + rewrite elem_of_cons, IH. split.
      * intros [->|(l & Hl & Hpl)].
        -- exists x. by rewrite lookup_insert_eq.
        -- exists l. rewrite lookup_insert_ne; [done|]. intros ->. congruence.
      * intros (l & Hl & Hpl). destruct (decide (b = a)) as [->|Hne]; [by left|].
        right. exists l. by rewrite lookup_insert_ne in Hl.
    + rewrite IH. split; intros (l & Hl & Hpl).
      * exists l. rewrite lookup_insert_ne; [done|]. intros ->. congruence.
      * destruct (decide (b = a)) as [->|Hne].
        -- rewrite lookup_insert_eq in Hl. congruence.
        -- exists l. by rewrite lookup_insert_ne in Hl.
Qed.

Lemma lookup_foldr_delete (m : gmap string ref) (ks : list string) (a : string) :
  List.fold_right (fun a cur => delete a cur) m ks !! a
  = if decide (a ∈ ks) then None else m !! a.
Proof.
  induction ks as [|k ks IH]; cbn [List.fold_right].
  - case_decide as H; [inversion H|done].
  - destruct (decide (k = a)) as [->|Hne].
    + rewrite lookup_delete_eq.
      destruct (decide (a ∈ a :: ks)) as [|H]; [done|].
      exfalso. apply H. by left.
    + rewrite lookup_delete_ne by done. rewrite IH.
      apply decide_ext. rewrite elem_of_cons. naive_solver.
Qed.

(** The current map after a rotation: a pending entry wins over a current
    one, and an entry is dropped when its object is stale. *)
Lemma rotate_current (h : Z) (eng : ConsensusEngine) (a : string) :
  currentValidators (state (rotateValidators h eng)) !! a
  = match (pendingValidators (state eng) ∪ currentValidators (state eng)) !! a with
    | Some l => if stale (objects eng) h l then None else Some l
    | None => None
    end.
Proof.
  unfold rotateValidators. simpl. rewrite lookup_foldr_delete, promote_union.
  case_decide as H.
  - apply toRemove_spec in H as (l & -> & ->). done.
  - destruct ((pendingValidators (state eng) ∪ currentValidators (state eng)) !! a)
      as [l|] eqn:E; [|done].
    destruct (stale (objects eng) h l) eqn:Hs; [|done].
    exfalso. apply H. apply toRemove_spec. by exists l.
Qed.

Lemma selectNextProposer_current (cmp : string -> string -> comparison)
    (eng : ConsensusEngine) :
  currentValidators (state (snd (selectNextProposer cmp eng)))
  = currentValidators (state eng).
Proof.
  unfold selectNextProposer.
  destruct (sortByAddress cmp (List.filter active (currentObjects eng))); done.
Qed.

(** The current map once [finalizeBlock] is over, whether it returned or
    threw. *)
Lemma finalizeBlock_current (cmp : string -> string -> comparison)
    (block : Ledger.Block) (eng : ConsensusEngine) :
  let h := Ledger.height (Ledger.header block) in
  currentValidators (state (snd (finalizeBlock cmp block eng)))
  = if validatorRotationInterval (config eng) <=? h - lastRotationBlock (state eng)
    then currentValidators (state (rotateValidators h (touchValidators h eng)))
    else currentValidators (state eng).
Proof.
  intros h. unfold finalizeBlock, bind, modify. fold h.
  change (config (touchValidators h eng)) with (config eng).
  change (state (touchValidators h eng)) with (state eng).
  set (eng1 := if validatorRotationInterval (config eng) <=? h - lastRotationBlock (state eng)
               then rotateValidators h (touchValidators h eng)
               else touchValidators h eng).
  assert (Hcur : currentValidators (state eng1)
                 = if validatorRotationInterval (config eng)
                      <=? h - lastRotationBlock (state eng)
                   then currentValidators (state (rotateValidators h (touchValidators h eng)))
                   else currentValidators (state eng)).
  { unfold eng1. by destruct (_ <=? _). }
  rewrite <- Hcur.
  replace (if validatorRotationInterval (config eng) <=? h - lastRotationBlock (state eng)
           then (Ok (), rotateValidators h (touchValidators h eng))
           else (Ok (), touchValidators h eng))
    with (Ok (E := Error) tt, eng1)
    by (unfold eng1; by destruct (_ <=? _)).
  pose proof (selectNextProposer_current cmp eng1) as Hsel.
  destruct (selectNextProposer cmp eng1) as [[[]|e] eng2]; simpl in *; [|done].
  destruct (onBlockFinalized eng2); simpl; done.
Qed.

(** C10, as the code has it: [finalizeBlock] keeps, under the same
    object, every current validator whose address has no entry in the
    pending map; the eviction of a rotation can only hit an address that
    the rotation has just promoted from the pending map. *)
Theorem finalizeBlock_keeps_unshadowed (cmp : string -> string -> comparison)
    (block : Ledger.Block) (eng : ConsensusEngine) (a : string) (l : ref) :
  currentValidators (state eng) !! a = Some l ->
  pendingValidators (state eng) !! a = None ->
  currentValidators (state (snd (finalizeBlock cmp block eng))) !! a = Some l.
Proof.
  intros Hcur Hpend. rewrite finalizeBlock_current.
  destruct (_ <=? _); [|done].
  rewrite rotate_current. change (state (touchValidators _ eng)) with (state eng).
  rewrite lookup_union_r by done. rewrite Hcur.
  by rewrite (touch_not_stale _ _ _ _ Hcur).
Qed.

(** *** Votes and the consensus threshold *)

Lemma forallb_seqZ (f : Z -> bool) (m n k : Z) :
  forallb f (seqZ m n) = true -> m <= k < m + n -> f k = true.
Proof.
  intros H Hk. rewrite forallb_forall in H. apply H.
  apply list_elem_of_In, elem_of_seqZ. lia.
Qed.

(** The threshold [0.66 - 0.0001] in binary64. *)
Lemma threshold_value :
  sub (literal 66 100) epsilon = Finite 5943850788203581 (-53).
Proof. vm_compute. reflexivity. Qed.

(** For each number of validators up to 246, one vote short of
    [need] stays a full unit in the last place below the threshold. *)
Lemma thresholdTable_246 :
  forallb (fun n => (need n - 1) * 2 ^ 53 <? (5943850788203581 - 1) * n) (seqZ 1 246)
  = true.
Proof. vm_compute. reflexivity. Qed.

(** Up to 246 validators of power 1 the test
    [collected / total >= 0.66 - 0.0001] holds exactly from
    [⌈0.66 * total⌉] collected votes on. *)
Lemma ratio_threshold (n c : Z) :
  1 <= n <= 246 -> 0 <= c <= n ->
  geb (div (of_Z c) (of_Z n)) (sub (literal 66 100) epsilon) = (need n <=? c).
Proof.
  intros Hn Hc. rewrite threshold_value.
  pose proof (forallb_seqZ _ 1 246 n thresholdTable_246 ltac:(lia)) as Hrow.
  cbv beta in Hrow. apply Z.ltb_lt in Hrow.
  unfold need in *.
  pose proof (Z.div_mod (66 * n + 99) 100 ltac:(lia)) as Hdm.
  pose proof (Z.mod_pos_bound (66 * n + 99) 100 ltac:(lia)) as Hr.
  set (k := (66 * n + 99) / 100) in *.
  destruct (Z.eq_dec c 0) as [->|Hc0].
  { rewrite div_zero_of_Z by lia. rewrite geb_zero_pos by lia.
    symmetry. apply Z.leb_gt. lia. }
  destruct (div_of_Z c n ltac:(lia) ltac:(lia)) as (p & Hp & ->).
  destruct (Z.eq_dec c n) as [->|Hcn].
  { rewrite round_same by nia. rewrite geb_neg_exponents by lia.
    transitivity true; [by apply Z.leb_le|]. symmetry. apply Z.leb_le. lia. }
  destruct (Z_lt_le_dec (2 * c) n) as [Hlow|Hhigh].
  { rewrite round_below_half by (try done; nia).
    symmetry. apply Z.leb_gt. lia. }
  destruct (round_half_one_geb (c * p) (n * p) 5943850788203581
              ltac:(nia) ltac:(nia) ltac:(nia) ltac:(lia)) as [Hge Hlt].
  destruct (Z.leb_spec k c) as [Hk|Hk].
  - apply Hge. change (2 ^ 53) with 9007199254740992. nia.
  - apply Hlt. change (2 ^ 53) with 9007199254740992 in *. nia.
Qed.

Lemma supporters_size_le (h : string) (eng : ConsensusEngine) :
  (size (supporters h eng) <= size (currentValidators (state eng)))%nat.
Proof.
  unfold supporters. rewrite <- size_dom. apply subseteq_size. set_solver.
Qed.

Lemma hasConsensus_unitPower (h : string) (eng : ConsensusEngine) (vs : list Vote) :
  unitPower eng ->
  votes eng !! h = Some vs -> vs <> [] ->
  currentValidators (state eng) <> ∅ ->
  hasConsensus h eng
  = ratioReached (config eng) (Z.of_nat (size (supporters h eng)))
      (Z.of_nat (size (currentValidators (state eng)))).
Proof.
  intros Hunit Hvs Hne Hcur. unfold hasConsensus, supporters. rewrite Hvs. simpl.
  destruct vs as [|v0 vs']; [done|].
  rewrite power_fold.
  2:{ intros a l Hl. apply (Hunit a l Hl). }
  assert (Hsz : (Z.of_nat (size (currentValidators (state eng))) =? 0) = false).
  { apply Z.eqb_neq. apply map_size_non_empty_iff in Hcur. lia. }
  rewrite Hsz. reflexivity.
Qed.

Lemma recordVote_supporters (block : Ledger.Block) (voter key : string) (now : Z)
    (eng : ConsensusEngine) :
  voter ∈ dom (currentValidators (state eng)) ->
  supporters (Ledger.hash block) (recordVote block voter key now eng)
  = supporters (Ledger.hash block) eng ∪ {[voter]}.
Proof.
  intros Hin. unfold supporters, recordVote. simpl. rewrite lookup_insert_eq. simpl.
  set (bv := default [] (votes eng !! Ledger.hash block)).
  destruct (existsb (fun v => String.eqb (validatorAddress v) voter) bv) eqn:E.
  - apply existsb_exists in E as (x & Hx & Heq). apply String.eqb_eq in Heq.
    assert (voter ∈ (list_to_set (List.map validatorAddress bv) : gset string)).
    { apply elem_of_list_to_set, list_elem_of_In, in_map_iff. by exists x. }
    set_solver.
  - rewrite List.map_app, list_to_set_app_L. simpl. set_solver.
Qed.

Lemma elem_of_activeValidators (a : string) (eng : ConsensusEngine) :
  a ∈ activeValidators eng
  <-> exists l v, currentValidators (state eng) !! a = Some l
                  /\ objects eng !! l = Some v /\ active v = true.
Proof.
  unfold activeValidators. rewrite elem_of_dom. unfold is_Some.
  setoid_rewrite map_lookup_filter_Some. unfold activeRef. simpl. split.
  - intros (l & Hl & Hact). destruct (objects eng !! l) as [v|] eqn:Hv; [|done].
    by exists l, v.
  - intros (l & v & Hl & Hv & Hact). exists l. by rewrite Hv.
Qed.

Lemma activeValidators_current (eng : ConsensusEngine) :
  activeValidators eng ⊆ dom (currentValidators (state eng)).
Proof.
  intros a (l & v & Hl & _)%elem_of_activeValidators. apply elem_of_dom. by exists l.
Qed.

(** One vote of an active current validator: it is recorded, and
    [finalizeBlock] runs exactly when the distinct supporters, the voter
    included, number at least [need]. *)
Lemma voteOnBlock_step (cmp : string -> string -> comparison) (block : Ledger.Block)
    (voter key : string) (now : Z) (eng : ConsensusEngine) :
  unitPower eng ->
  requiredConsensus (config eng) = literal 66 100 ->
  Z.of_nat (size (currentValidators (state eng))) <= 246 ->
  voter ∈ activeValidators eng ->
  voteOnBlock cmp block voter key now eng
  = if need (Z.of_nat (size (currentValidators (state eng))))
       <=? Z.of_nat (size (supporters (Ledger.hash block) eng ∪ {[voter]}))
    then (finalizeBlock cmp block ;;; ret (castVote block voter key now))
           (recordVote block voter key now eng)
    else (Ok (castVote block voter key now), recordVote block voter key now eng).
Proof.
  intros Hunit Hrc Hsmall Hact.
  assert (Hin : voter ∈ dom (currentValidators (state eng)))
    by (by apply activeValidators_current).
  apply elem_of_activeValidators in Hact as (l & v & Hl & Hv & Hact).
  unfold voteOnBlock. rewrite Hl. simpl. rewrite Hv, Hact. simpl.
  fold (castVote block voter key now). fold (recordVote block voter key now eng).
  set (rec := recordVote block voter key now eng).
  assert (Hvotes : exists vs, votes rec !! Ledger.hash block = Some vs /\ vs <> []).
  { unfold rec, recordVote. simpl. rewrite lookup_insert_eq. eexists. split; [done|].
    destruct (existsb _ _) eqn:E.
    - apply existsb_exists in E as (x & Hx & _). intros Hnil. rewrite Hnil in Hx. done.
    - intros Hnil. by apply app_eq_nil in Hnil as [_ ?]. }
  destruct Hvotes as (vs & Hvs & Hne).
  assert (Hcur : currentValidators (state rec) <> ∅).
  { intros He. change (state rec) with (state eng) in He. rewrite He in Hl.
    by rewrite lookup_empty in Hl. }
  rewrite (hasConsensus_unitPower _ rec vs Hunit Hvs Hne Hcur).
  assert (Hsome : is_Some (votes rec !! Ledger.hash block)) by (rewrite Hvs; eauto).
  rewrite (bool_decide_eq_true_2 _ Hsome).
  rewrite andb_true_r. unfold ratioReached.
  change (config rec) with (config eng). change (state rec) with (state eng).
  rewrite Hrc.
  pose proof (supporters_size_le (Ledger.hash block) rec) as Hle.
  change (state rec) with (state eng) in Hle.
  assert (0 < size (currentValidators (state eng)))%nat.
  { change (state rec) with (state eng) in Hcur.
    apply map_size_non_empty_iff in Hcur. lia. }
  rewrite ratio_threshold by lia.
  unfold rec at 1. by rewrite (recordVote_supporters _ _ _ _ _ Hin).
Qed.

Lemma castVotes_app (cmp : string -> string -> comparison) (block : Ledger.Block)
    (cs1 cs2 : list (string * string * Z)) (eng : ConsensusEngine) :
  castVotes cmp block (cs1 ++ cs2) eng
  = castVotes cmp block cs2 (castVotes cmp block cs1 eng).
Proof.
  revert eng. induction cs1 as [|[[a k] t] cs1 IH]; intros eng; simpl; [done|].
  apply IH.
Qed.

(** A call in the name of anything but an active current validator
    throws and changes nothing. *)
Lemma voteOnBlock_stranger (cmp : string -> string -> comparison) (block : Ledger.Block)
    (voter key : string) (now : Z) (eng : ConsensusEngine) :
  voter ∉ activeValidators eng ->
  voteOnBlock cmp block voter key now eng = (Throw InvalidOrInactiveValidator, eng).
Proof.
  intros H. unfold voteOnBlock.
  destruct (currentValidators (state eng) !! voter) as [l|] eqn:Hl; simpl; [|done].
  destruct (objects eng !! l) as [v|] eqn:Hv; [|done].
  destruct (active v) eqn:Hact; [|done].
  exfalso. apply H. apply elem_of_activeValidators. by exists l, v.
Qed.

(** While fewer than [need] distinct validators have voted, the calls
    change nothing but the vote set, which holds exactly their votes. *)
Lemma castVotes_collecting (cmp : string -> string -> comparison) (block : Ledger.Block)
    (eng : ConsensusEngine) (calls : list (string * string * Z)) :
  unitPower eng ->
  requiredConsensus (config eng) = literal 66 100 ->
  Z.of_nat (size (currentValidators (state eng))) <= 246 ->
  votes eng !! Ledger.hash block = None ->
  Z.of_nat (size (distinctValidators calls eng))
  < need (Z.of_nat (size (currentValidators (state eng)))) ->
  let eng' := castVotes cmp block calls eng in
  state eng' = state eng /\ objects eng' = objects eng /\ config eng' = config eng
  /\ notified eng' = notified eng /\ onBlockFinalized eng' = onBlockFinalized eng
  /\ supporters (Ledger.hash block) eng' = distinctValidators calls eng.
Proof.
  intros Hunit Hrc Hsmall Hfresh.
  induction calls as [|[[a k] t] calls IH] using rev_ind; intros Hlt eng'.
  - unfold eng', supporters, distinctValidators. simpl. rewrite Hfresh. simpl.
    repeat split; set_solver.
  - assert (Hsub : distinctValidators calls eng ⊆ distinctValidators (calls ++ [(a, k, t)]) eng).
    { unfold distinctValidators. rewrite List.map_app, list_to_set_app_L. set_solver. }
    apply subseteq_size in Hsub.
    destruct (IH ltac:(lia)) as (Hst & Hobj & Hcfg & Hnot & Hcb & Hsup).
    unfold eng'. rewrite castVotes_app. simpl.
    set (eng1 := castVotes cmp block calls eng) in *.
    assert (Hact : activeValidators eng1 = activeValidators eng)
      by (unfold activeValidators; by rewrite Hst, Hobj).
    destruct (decide (a ∈ activeValidators eng)) as [Hin|Hout].
    + assert (Hd : distinctValidators (calls ++ [(a, k, t)]) eng
                   = distinctValidators calls eng ∪ {[a]}).
      { unfold distinctValidators. rewrite List.map_app, list_to_set_app_L. simpl.
        set_solver. }
      rewrite voteOnBlock_step; rewrite ?Hst, ?Hcfg, ?Hact; try done.
      2:{ intros a' l' Hl'. rewrite Hobj. apply Hunit. by rewrite <- Hst. }
      rewrite Hsup, <- Hd.
      assert (Hno : (need (Z.of_nat (size (currentValidators (state eng))))
                     <=? Z.of_nat (size (distinctValidators (calls ++ [(a, k, t)]) eng)))
                    = false) by (apply Z.leb_gt; lia).
      rewrite Hno. simpl.
      repeat split; try done.
      rewrite recordVote_supporters
        by (rewrite Hst; by apply activeValidators_current).
      by rewrite Hsup, Hd.
    + assert (Hd : distinctValidators (calls ++ [(a, k, t)]) eng
                   = distinctValidators calls eng).
      { unfold distinctValidators. rewrite List.map_app, list_to_set_app_L. simpl.
        set_solver. }
      rewrite voteOnBlock_stranger by (by rewrite Hact). simpl.
      by rewrite Hd.
Qed.

(** *** What the finalization of a block does *)

Lemma insertByAddress_Permutation (cmp : string -> string -> comparison)
    (v : Validator) (l : list Validator) :
  Permutation (insertByAddress cmp v l) (v :: l).
Proof.
  induction l as [|w l IH]; simpl; [done|].
  destruct (cmp (address v) (address w)); try done.
  rewrite IH. apply perm_swap.
Qed.

Lemma sortByAddress_Permutation (cmp : string -> string -> comparison)
    (l : list Validator) :
  Permutation (sortByAddress cmp l) l.
Proof.
  induction l as [|v l IH]; simpl; [done|].
  rewrite insertByAddress_Permutation. by constructor.
Qed.

Lemma selectNextProposer_frame (cmp : string -> string -> comparison)
    (eng eng' : ConsensusEngine) :
  selectNextProposer cmp eng = (Ok tt, eng') ->
  votes eng' = votes eng /\ objects eng' = objects eng
  /\ notified eng' = notified eng /\ onBlockFinalized eng' = onBlockFinalized eng
  /\ round (state eng') = round (state eng) + 1.
Proof.
  unfold selectNextProposer.
  destruct (sortByAddress cmp _); [discriminate|]. by intros [= <-].
Qed.

(** [selectNextProposer] throws exactly when no current validator is
    active, and leaves the engine as it was. *)
Lemma selectNextProposer_throws (cmp : string -> string -> comparison)
    (eng eng' : ConsensusEngine) (e : Error) :
  selectNextProposer cmp eng = (Throw e, eng') ->
  e = NoActiveValidators /\ eng' = eng
  /\ List.filter active (currentObjects eng) = [].
Proof.
  unfold selectNextProposer.
  destruct (sortByAddress cmp _) eqn:E; [|discriminate]. intros [= <- <-].
  repeat split. apply Permutation_nil.
  rewrite <- E. apply sortByAddress_Permutation.
Qed.

Lemma selectNextProposer_returns (cmp : string -> string -> comparison)
    (eng : ConsensusEngine) (a : string) (l : ref) (v : Validator) :
  currentValidators (state eng) !! a = Some l ->
  objects eng !! l = Some v -> active v = true ->
  exists eng', selectNextProposer cmp eng = (Ok tt, eng').
Proof.
  intros Hl Hv Hact. unfold selectNextProposer.
  destruct (sortByAddress cmp _) eqn:E; [|eauto]. exfalso.
  assert (Hin : v ∈ List.filter active (currentObjects eng)).
  { apply list_elem_of_In, filter_In. split; [|done]. apply list_elem_of_In.
    unfold currentObjects. apply list_elem_of_omap. exists (a, l). split; [|done].
    by apply elem_of_map_to_list. }
  apply list_elem_of_In in Hin.
  rewrite <- (sortByAddress_Permutation cmp), E in Hin. done.
Qed.

(** The engine when [finalizeBlock] reaches [selectNextProposer]. *)
Lemma finalizeBlock_unfold (cmp : string -> string -> comparison)
    (block : Ledger.Block) (eng : ConsensusEngine) :
  let h := Ledger.height (Ledger.header block) in
  let eng1 := if validatorRotationInterval (config eng) <=? h - lastRotationBlock (state eng)
              then rotateValidators h (touchValidators h eng)
              else touchValidators h eng in
  finalizeBlock cmp block eng
  = match selectNextProposer cmp eng1 with
    | (Ok _, eng2) =>
        (Ok tt, set_votes (delete (Ledger.hash block))
                  (if onBlockFinalized eng2 then notify block eng2 else eng2))
    | (Throw e, eng2) => (Throw e, eng2)
    end.
Proof.
  intros h eng1. unfold finalizeBlock, bind, modify. fold h.
  change (config (touchValidators h eng)) with (config eng).
  change (state (touchValidators h eng)) with (state eng).
  replace (if validatorRotationInterval (config eng) <=? h - lastRotationBlock (state eng)
           then (Ok (), rotateValidators h (touchValidators h eng))
           else (Ok (), touchValidators h eng))
    with (Ok (E := Error) tt, eng1)
    by (unfold eng1; by destruct (_ <=? _)).
  destruct (selectNextProposer cmp eng1) as [[[]|e] eng2]; [|done].
  by destruct (onBlockFinalized eng2).
Qed.

(** [finalizeBlock] either returns, with the round advanced, the callback
    called and the votes of the block deleted, or throws for want of an
    active validator, with round, callback log and votes as they were. *)
Lemma finalizeBlock_outcome (cmp : string -> string -> comparison)
    (block : Ledger.Block) (eng : ConsensusEngine) :
  (exists eng',
     finalizeBlock cmp block eng = (Ok tt, eng')
     /\ round (state eng') = round (state eng) + 1
     /\ votes eng' = delete (Ledger.hash block) (votes eng)
     /\ notified eng' = notified eng ++ (if onBlockFinalized eng then [block] else []))
  \/ (exists eng',
        finalizeBlock cmp block eng = (Throw NoActiveValidators, eng')
        /\ round (state eng') = round (state eng)
        /\ votes eng' = votes eng
        /\ notified eng' = notified eng
        /\ List.filter active (currentObjects eng') = []).
Proof.
  rewrite finalizeBlock_unfold.
  set (h := Ledger.height (Ledger.header block)).
  set (eng1 := if validatorRotationInterval (config eng) <=? h - lastRotationBlock (state eng)
               then rotateValidators h (touchValidators h eng)
               else touchValidators h eng).
  assert (H1 : votes eng1 = votes eng /\ notified eng1 = notified eng
               /\ onBlockFinalized eng1 = onBlockFinalized eng
               /\ round (state eng1) = round (state eng)).
  { unfold eng1. by destruct (_ <=? _). }
  destruct H1 as (Hv & Hn & Hc & Hr).
  destruct (selectNextProposer cmp eng1) as [[[]|e] eng2] eqn:Hsel.
  - apply selectNextProposer_frame in Hsel as (Hv2 & _ & Hn2 & Hc2 & Hr2).
    left. eexists. split; [reflexivity|]. rewrite Hc2, Hc.
    destruct (onBlockFinalized eng); simpl;
      rewrite ?Hv2, ?Hv, ?Hn2, ?Hn, ?Hr2, ?Hr; repeat split; try done.
    by rewrite app_nil_r.
  - apply selectNextProposer_throws in Hsel as (-> & -> & Hnone).
    right. exists eng1. by rewrite Hv, Hn, Hr.
Qed.

(** With an active current validator, [finalizeBlock] returns when no
    rotation is due or when some active current validator has no pending
    entry under its address. *)
Lemma finalizeBlock_returns (cmp : string -> string -> comparison)
    (block : Ledger.Block) (eng : ConsensusEngine) (voter : string) :
  voter ∈ activeValidators eng ->
  finalizable block eng ->
  exists eng', finalizeBlock cmp block eng = (Ok tt, eng').
Proof.
  intros Hvoter Hfin. rewrite finalizeBlock_unfold.
  set (h := Ledger.height (Ledger.header block)).
  assert (Htouched : forall a l v,
            currentValidators (state eng) !! a = Some l ->
            objects eng !! l = Some v ->
            objects (touchValidators h eng) !! l = Some (set_lastActiveBlock h v)).
  { intros a l v Hl Hv. unfold touchValidators. simpl.
    rewrite touch_objects, decide_True by (apply elem_of_map_img; by exists a).
    by rewrite Hv. }
  assert (Hsel : exists eng2,
            selectNextProposer cmp
              (if validatorRotationInterval (config eng) <=? h - lastRotationBlock (state eng)
               then rotateValidators h (touchValidators h eng)
               else touchValidators h eng) = (Ok tt, eng2)).
  { destruct (Z.leb_spec (validatorRotationInterval (config eng))
                         (h - lastRotationBlock (state eng))) as [Hdue|Hnot].
    - destruct Hfin as [Hlt|(a & Ha & Hpend)]; [unfold h in Hdue; lia|].
      apply elem_of_activeValidators in Ha as (l & v & Hl & Hv & Hact).
      apply (selectNextProposer_returns cmp _ a l (set_lastActiveBlock h v)).
      + rewrite rotate_current. change (state (touchValidators h eng)) with (state eng).
        rewrite lookup_union_r by done. rewrite Hl.
        by rewrite (touch_not_stale _ _ _ _ Hl).
      + change (objects (rotateValidators h (touchValidators h eng)))
          with (objects (touchValidators h eng)).
        by apply (Htouched a).
      + done.
    - apply elem_of_activeValidators in Hvoter as (l & v & Hl & Hv & Hact).
      apply (selectNextProposer_returns cmp _ voter l (set_lastActiveBlock h v)).
      + done.
      + by apply (Htouched voter).
      + done. }
  destruct Hsel as (eng2 & ->). eauto.
Qed.

(** C3, as the code has it, for up to 246 validators of voting power 1
    and [requiredConsensus = 0.66].  The voters that count are the active
    current validators: a call in any other name throws.  As long as the
    calls for a block hash come from fewer than [⌈0.66 n⌉] distinct voters,
    nothing is finalized (validator state, validator objects and the
    callback log are as before, and the vote set holds exactly those
    voters).  The next vote is only recorded while the distinct voters,
    this one included, stay below [⌈0.66 n⌉]; when they reach it, the call
    runs [finalizeBlock], which either completes (the vote is returned, the
    callback is called with the block, the round advances, the votes of the
    hash are deleted) or throws for want of an active validator after the
    rotation it performed (callback not called, round unchanged, votes
    kept); it completes whenever no rotation is due or some active current
    validator has no pending validator under its address.  A repeated
    voter adds nothing to the distinct voters. *)
Theorem consensus_threshold (cmp : string -> string -> comparison) (block : Ledger.Block)
    (eng : ConsensusEngine) (calls : list (string * string * Z))
    (voter key : string) (now : Z) :
  unitPower eng ->
  requiredConsensus (config eng) = literal 66 100 ->
  Z.of_nat (size (currentValidators (state eng))) <= 246 ->
  votes eng !! Ledger.hash block = None ->
  Z.of_nat (size (distinctValidators calls eng))
  < need (Z.of_nat (size (currentValidators (state eng)))) ->
  voter ∈ activeValidators eng ->
  let n := Z.of_nat (size (currentValidators (state eng))) in
  let eng' := castVotes cmp block calls eng in
  let voters := distinctValidators calls eng ∪ {[voter]} in
  let vote := castVote block voter key now in
  let result := voteOnBlock cmp block voter key now eng' in
  (state eng' = state eng /\ objects eng' = objects eng /\ notified eng' = notified eng
   /\ supporters (Ledger.hash block) eng' = distinctValidators calls eng)
  /\ (Z.of_nat (size voters) < need n ->
      result = (Ok vote, recordVote block voter key now eng'))
  /\ (need n <= Z.of_nat (size voters) ->
      (finalizable block eng -> fst result = Ok vote)
      /\ ((fst result = Ok vote
           /\ notified (snd result)
              = notified eng ++ (if onBlockFinalized eng then [block] else [])
           /\ round (state (snd result)) = round (state eng) + 1
           /\ votes (snd result) !! Ledger.hash block = None)
          \/ (fst result = Throw NoActiveValidators
              /\ notified (snd result) = notified eng
              /\ round (state (snd result)) = round (state eng)
              /\ votes (snd result) = votes (recordVote block voter key now eng')
              /\ List.filter active (currentObjects (snd result)) = [])))
  /\ (voter ∈ distinctValidators calls eng -> voters = distinctValidators calls eng)
  /\ (voter ∉ distinctValidators calls eng ->
      Z.of_nat (size voters) = Z.of_nat (size (distinctValidators calls eng)) + 1).
Proof.
  intros Hunit Hrc Hsmall Hfresh Hlt Hin n eng' voters vote result.
  destruct (castVotes_collecting cmp block eng calls Hunit Hrc Hsmall Hfresh Hlt)
    as (Hst & Hobj & Hcfg & Hnot & Hcb & Hsup).
  fold eng' in Hst, Hobj, Hcfg, Hnot, Hcb, Hsup.
  assert (Hact : activeValidators eng' = activeValidators eng)
    by (unfold activeValidators; by rewrite Hst, Hobj).
  assert (Hstep : result
            = if need n <=? Z.of_nat (size voters)
              then (finalizeBlock cmp block ;;; ret vote)
                     (recordVote block voter key now eng')
              else (Ok vote, recordVote block voter key now eng')).
  { unfold result. rewrite voteOnBlock_step; rewrite ?Hst, ?Hcfg, ?Hact; try done.
    + by rewrite Hsup.
    + intros a' l' Hl'. rewrite Hobj. apply Hunit. by rewrite <- Hst. }
  split; [done|]. split; [|split; [|split]].
  - intros Hbelow. rewrite Hstep.
    by destruct (Z.leb_spec (need n) (Z.of_nat (size voters))); [lia|].
  - intros Hreached. rewrite Hstep.
    destruct (Z.leb_spec (need n) (Z.of_nat (size voters))); [|lia].
    set (rec := recordVote block voter key now eng').
    assert (Hrec : state rec = state eng /\ objects rec = objects eng
                   /\ config rec = config eng /\ notified rec = notified eng
                   /\ onBlockFinalized rec = onBlockFinalized eng).
    { by rewrite <- Hst, <- Hobj, <- Hcfg, <- Hnot, <- Hcb. }
    destruct Hrec as (Hst' & Hobj' & Hcfg' & Hnot' & Hcb').
    unfold bind. split.
    + intros Hfin.
      destruct (finalizeBlock_returns cmp block rec voter) as (eng2 & ->); [| |done].
      * unfold activeValidators. by rewrite Hst', Hobj'.
      * unfold finalizable, activeValidators. by rewrite Hst', Hobj', Hcfg'.
    + destruct (finalizeBlock_outcome cmp block rec)
        as [(eng2 & -> & Hr & Hv & Hn)|(eng2 & -> & Hr & Hv & Hn & Hnone)].
      * left. simpl. rewrite Hn, Hr, Hv, Hst', Hnot', Hcb'.
        by rewrite lookup_delete_eq.
      * right. simpl. by rewrite Hn, Hr, Hv, Hst', Hnot'.
  - intros Hv. unfold voters. set_solver.
  - intros Hv. unfold voters. rewrite size_union by set_solver.
    rewrite size_singleton. lia.
Qed.

(** *** The properties on the sample engines *)

Lemma unitPowerb_sound (eng : ConsensusEngine) : unitPowerb eng = true -> unitPower eng.
Proof.
  unfold unitPowerb. rewrite forallb_forall. intros H a l Hl.
  specialize (H (a, l)). simpl in H.
  destruct (objects eng !! l) as [v|].
  - exists v. split; [done|].
    assert (Hin : In (a, l) (map_to_list (currentValidators (state eng))))
      by (by apply list_elem_of_In, elem_of_map_to_list).
    apply H in Hin. apply andb_prop in Hin as [H1 H2].
    apply String.eqb_eq in H1. apply Z.eqb_eq in H2. done.
  - assert (Hin : In (a, l) (map_to_list (currentValidators (state eng))))
      by (by apply list_elem_of_In, elem_of_map_to_list).
    apply H in Hin. discriminate.
Qed.




(** The scenario of the test suite: from two government and two citizen
    validators a third citizen is staged (3 of 5, 60%) and a fourth one is
    rejected (4 of 6). *)
Lemma addValidator_test_scenario :
  let '(l3, eng) := alloc (validator "CIT3" CITIZEN) testEngine in
  let '(r3, eng) := addValidator l3 eng in
  let '(l4, eng) := alloc (validator "CIT4" CITIZEN) eng in
  let '(r4, eng) := addValidator l4 eng in
  r3 = true /\ r4 = false
  /\ List.map fst (map_to_list (pendingValidators (state eng))) = ["CIT3"]
  /\ List.map fst (map_to_list (currentValidators (state eng)))
     = ["GOV1"; "GOV2"; "CIT1"; "CIT2"].
Proof. vm_compute. repeat split; reflexivity. Qed.

Lemma consensus_threshold_witness :
  let block := blockAt 1 "block1" in
  let eng' := castVotes codeUnitCompare block [call "GOV1"; call "GOV2"] testEngine in
  let result := voteOnBlock codeUnitCompare block "CIT1" "privateKey3" 1700000007000 eng' in
  notified eng' = []
  /\ fst result = Ok (castVote block "CIT1" "privateKey3" 1700000007000)
  /\ notified (snd result) = [block]
  /\ round (state (snd result)) = 1
  /\ votes (snd result) !! "block1" = None.
Proof.
  cbv zeta.
  destruct (consensus_threshold codeUnitCompare (blockAt 1 "block1") testEngine
              [call "GOV1"; call "GOV2"] "CIT1" "privateKey3" 1700000007000)
    as ((_ & _ & Hnot & _) & _ & Hreached & _).
  - apply unitPowerb_sound. vm_compute. reflexivity.
  - reflexivity.
  - vm_compute. discriminate.
  - vm_compute. reflexivity.
  - vm_compute. reflexivity.
  - apply elem_of_activeValidators. exists 3%positive, (validator "CIT1" CITIZEN).
    vm_compute. repeat split; reflexivity.
  - destruct Hreached as [Hfin Hcases]; [vm_compute; discriminate|].
    assert (Hfinal : finalizable (blockAt 1 "block1") testEngine)
      by (left; vm_compute; reflexivity).
    specialize (Hfin Hfinal).
    split; [rewrite Hnot; vm_compute; reflexivity|].
    split; [exact Hfin|].
    destruct Hcases as [(_ & Hn & Hr & Hv)|(Hthrow & _)].
    + split; [rewrite Hn; vm_compute; reflexivity|].
      split; [rewrite Hr; vm_compute; reflexivity|exact Hv].
    + rewrite Hfin in Hthrow. discriminate.
Defined.

(** The scenario of the test suite: with four validators the votes of
    GOV1 and GOV2 do not finalize, a repeated vote of GOV1 neither, the
    vote of CIT1 does. *)
Lemma consensus_test_scenario :
  let block := blockAt 1 "block1" in
  let after calls := castVotes codeUnitCompare block calls testEngine in
  notified (after [call "GOV1"; call "GOV2"]) = []
  /\ notified (after [call "GOV1"; call "GOV2"; call "GOV1"]) = []
  /\ notified (after [call "GOV1"; call "GOV2"; call "GOV1"; call "CIT1"]) = [block]
  /\ round (state (after [call "GOV1"; call "GOV2"; call "GOV1"; call "CIT1"])) = 1.
Proof. vm_compute. repeat split; reflexivity. Qed.

(** C3 fails as stated, twice.  With 247 validators of power 1 the 163rd
    distinct vote finalizes, one short of [⌈0.66 * 247⌉ = 164]; the kernel's
    binary64 arithmetic gives the same verdict on 163/247.  And with the
    four validators of the test suite, once an inactive validator was
    registered under each of their addresses, the third distinct vote for a
    block of height 100 does not finalize it: the rotation inside
    [finalizeBlock] promotes the inactive validators, the call throws, the
    callback is not called, the round stays and the three votes stay. *)
Lemma consensus_threshold_fails :
  let block := blockAt 1 "block1" in
  let before := castVotes codeUnitCompare block (firstVoters 162) largeEngine in
  let after := snd (voteOnBlock codeUnitCompare block (numbered 163) "privateKey"
                      1700000006000 before) in
  let block' := blockAt 100 "block100" in
  let before' := castVotes codeUnitCompare block' [call "GOV1"; call "GOV2"]
                   retiringEngine in
  let result' := voteOnBlock codeUnitCompare block' "CIT1" "privateKey"
                   1700000006000 before' in
  (need 247 = 164
   /\ size (currentValidators (state largeEngine)) = 247%nat
   /\ unitPowerb largeEngine = true
   /\ size (supporters "block1" before) = 162%nat
   /\ notified before = []
   /\ notified after = [block]
   /\ round (state after) = 1
   /\ votes after !! "block1" = None
   /\ PrimFloat.leb threshold64
        (PrimFloat.div (PrimFloat.of_uint63 (Uint63.of_Z 163))
                       (PrimFloat.of_uint63 (Uint63.of_Z 247))) = true)
  /\ (need 4 = 3
      /\ size (currentValidators (state retiringEngine)) = 4%nat
      /\ unitPowerb retiringEngine = true
      /\ size (activeValidators retiringEngine) = 4%nat
      /\ onBlockFinalized retiringEngine = true
      /\ size (supporters "block100" before') = 2%nat
      /\ notified before' = []
      /\ fst result' = Throw NoActiveValidators
      /\ notified (snd result') = []
      /\ round (state (snd result')) = 0
      /\ List.length (default [] (votes (snd result') !! "block100")) = 3%nat).
Proof. vm_compute. repeat split; reflexivity. Qed.

(** C9 fails on the code: after the third distinct vote has finalized the
    block and the vote set is deleted, three more votes of the same
    validators finalize the same block a second time. *)
Theorem finalization_repeats :
  let block := blockAt 1 "block1" in
  let once := castVotes codeUnitCompare block
                [call "GOV1"; call "GOV2"; call "CIT1"] testEngine in
  let twice := castVotes codeUnitCompare block
                 [call "GOV1"; call "GOV2"; call "CIT1"] once in
  notified once = [block] /\ votes once !! "block1" = None
  /\ notified twice = [block; block] /\ round (state twice) = 2.
Proof. vm_compute. repeat split; reflexivity. Qed.

(** C10 fails as stated: a second object registered under the address of
    the current validator GOV1 waits in the pending map; finalizing a block
    of height 101 promotes it over GOV1 and evicts it at once, its
    [lastActiveBlock] being 0. *)
Lemma finalizeBlock_evicts_shadowed :
  let block := blockAt 101 "block101" in
  let after := castVotes codeUnitCompare block
                 [call "GOV1"; call "GOV2"; call "CIT1"] shadowedEngine in
  currentValidators (state shadowedEngine) !! "GOV1" = Some 1%positive
  /\ pendingValidators (state shadowedEngine) !! "GOV1" = Some 5%positive
  /\ currentValidators (state (snd (finalizeBlock codeUnitCompare block shadowedEngine)))
     !! "GOV1" = None
  /\ currentValidators (state after) !! "GOV1" = None
  /\ notified after = [block].
Proof. vm_compute. repeat split; reflexivity. Qed.

Lemma finalizeBlock_keeps_unshadowed_witness :
  currentValidators
    (state (snd (finalizeBlock codeUnitCompare (blockAt 101 "block101") shadowedEngine)))
  !! "GOV2" = Some 2%positive.
Proof.
  apply (finalizeBlock_keeps_unshadowed codeUnitCompare (blockAt 101 "block101")
           shadowedEngine "GOV2" 2%positive); vm_compute; reflexivity.
Defined.
End ConsensusFacts.

(** ** P2P *)

Module P2PFacts.
Import P2P.

(** C8: a HANDSHAKE message whose payload does not carry the configured
    network id makes the node close the socket, with code 1002, and do
    nothing else: the peer map and the connection map are as before, and
    nothing is sent or emitted. *)
Theorem handshake_network_mismatch (now : Z) (message : NetworkMessage)
    (peerId : string) (ws : WebSocket) (n : P2PNetwork) :
  msg_type message = HANDSHAKE ->
  payloadNetworkId (payload message) <> Some (networkId (config n)) ->
  exists n',
    handleMessage now message peerId ws n = (Ok tt, n')
    /\ peers n' = peers n
    /\ connections n' = connections n
    /\ effects n' = effects n ++ [Close ws 1002 "Invalid network ID"].
Proof.
  intros Hty Hid. unfold handleMessage. rewrite Hty.
  unfold modify, handleHandshake.
  destruct (payload message) as [hs| | | | |]; simpl in Hid;
    try (eexists; split; [reflexivity|done]).
  destruct (String.eqb (hs_networkId hs) (networkId (config n))) eqn:E.
  - apply String.eqb_eq in E. congruence.
  - simpl. eexists; split; [reflexivity|done].
Qed.

Lemma handshake_network_mismatch_witness :
  exists n',
    handleMessage 1700000002000 foreignHandshake "temp_1700000000500" inboundSocket
      sampleNetwork = (Ok tt, n')
    /\ peers n' = peers sampleNetwork
    /\ connections n' = connections sampleNetwork
    /\ effects n' = effects sampleNetwork ++ [Close inboundSocket 1002 "Invalid network ID"].
Proof.
  apply (handshake_network_mismatch 1700000002000 foreignHandshake
           "temp_1700000000500" inboundSocket sampleNetwork).
  - reflexivity.
  - vm_compute. discriminate.
Defined.
End P2PFacts.
(** ** Ledger: accounting, nonces and queries *)

Module LedgerProperties.
Import Ledger LedgerFacts.

(** *** The total supply *)

Lemma supply_insert (m : gmap string Z) (k : string) (v : Z) :
  map_fold (fun _ balance total => total + balance) 0 (<[k := v]> m)
  = map_fold (fun _ balance total => total + balance) 0 m - default 0 (m !! k) + v.
Proof.
  assert (Hc : forall (m' : gmap string Z) (j1 j2 : string) (z1 z2 y : Z),
             j1 <> j2 -> m' !! j1 = Some z1 -> m' !! j2 = Some z2 ->
             y + z2 + z1 = y + z1 + z2) by (intros; lia).
  destruct (m !! k) as [old|] eqn:E; simpl.
  - rewrite <- (insert_delete_eq m).
    rewrite (map_fold_delete_L _ 0 k old m (Hc m) E).
    rewrite map_fold_insert_L; [lia|apply Hc|apply lookup_delete_eq].
  - rewrite map_fold_insert_L; [lia|apply Hc|done].
Qed.

Lemma getTotalSupply_setBalance (a : string) (v : Z) (s : StateManager) :
  getTotalSupply (setBalance a v s) = getTotalSupply s - getBalance a s + v.
Proof. unfold getTotalSupply, setBalance, getBalance. simpl. apply supply_insert. Qed.

Lemma getTotalSupply_creditFee (f : Z) (s : StateManager) :
  0 <= f -> getTotalSupply (creditFee f s) = getTotalSupply s + f.
Proof.
  intros Hf. unfold creditFee. destruct (0 <? f) eqn:E.
  - rewrite getTotalSupply_setBalance. lia.
  - apply Z.ltb_ge in E. lia.
Qed.

Lemma updateNonce_spec (tx : Transaction) (s : StateManager) :
  exists s', updateNonce tx s = (Ok tt, s')
    /\ balances s' = balances s /\ validators s' = validators s
    /\ sm_emitted s' = sm_emitted s
    /\ nonces s'
       = if String.eqb (tx_from tx) systemAddress then nonces s
         else <[tx_from tx := JsNumber.Math_max (getNonce (tx_from tx) s)
                                (JsNumber.add (tx_nonce tx) (JsNumber.of_Z 1))]>
                (nonces s).
Proof.
  unfold updateNonce. destruct (String.eqb (tx_from tx) systemAddress);
    eexists; (split; [reflexivity|done]).
Qed.

(** A transaction that is applied changes the total supply by what its
    type stands for: nothing for a transfer, the amount for a mint or a
    reward, minus the amount for a burn, minus the stake for a validator
    registration (the stake is debited and credited nowhere). *)
Theorem applyTransaction_supply (tx : Transaction) (s s' : StateManager) :
  0 <= tx_fee tx ->
  applyTransaction tx s = (Ok tt, s') ->
  getTotalSupply s' = getTotalSupply s + supplyDelta tx.
Proof.
  intros Hf. unfold applyTransaction, bind, supplyDelta.
  assert (Hn : forall s1, forall s2, updateNonce tx s1 = (Ok tt, s2) ->
                 getTotalSupply s2 = getTotalSupply s1).
  { intros s1 s2 H. destruct (updateNonce_spec tx s1) as (s3 & H3 & Hb & _).
    rewrite H3 in H. injection H as <-. unfold getTotalSupply. by rewrite Hb. }
  destruct (tx_type tx); try discriminate.
  - unfold applyTransferTransaction.
    destruct (_ <? _); [discriminate|]. intros H. apply Hn in H. rewrite H.
    rewrite getTotalSupply_creditFee, !getTotalSupply_setBalance by done.
    rewrite getBalance_setBalance. case_decide; lia.
  - unfold applyValidatorRegistration.
    destruct (tx_data tx) as [d|]; [|discriminate].
    destruct (_ <? _); [discriminate|]. intros H. apply Hn in H. rewrite H.
    change (getTotalSupply (sm_emit ?e (setValidator ?a ?v ?s0))) with (getTotalSupply s0).
    rewrite getTotalSupply_creditFee, getTotalSupply_setBalance by done. lia.
  - unfold applyRewardTransaction. intros H. apply Hn in H. rewrite H.
    rewrite getTotalSupply_setBalance. lia.
  - unfold applyMintTransaction. intros H. apply Hn in H. rewrite H.
    rewrite getTotalSupply_setBalance. lia.
  - unfold applyBurnTransaction.
    destruct (_ <? _); [discriminate|]. intros H. apply Hn in H. rewrite H.
    rewrite getTotalSupply_creditFee, getTotalSupply_setBalance by done. lia.
Qed.

Lemma applyTransaction_supply_witness :
  getTotalSupply (snd (applyTransaction (registrationTx "reg" "alice" 40 2 0)
                         (fundedState "alice" 100)))
  = getTotalSupply (fundedState "alice" 100) + - 40.
Proof.
  apply (applyTransaction_supply (registrationTx "reg" "alice" 40 2 0)
           (fundedState "alice" 100)).
  - vm_compute. discriminate.
  - vm_compute. reflexivity.
Defined.

(** *** Nonces *)

Lemma applyTransaction_nonces (tx : Transaction) (s s' : StateManager) :
  applyTransaction tx s = (Ok tt, s') ->
  nonces s'
  = if String.eqb (tx_from tx) systemAddress then nonces s
    else <[tx_from tx := JsNumber.Math_max (getNonce (tx_from tx) s)
                           (JsNumber.add (tx_nonce tx) (JsNumber.of_Z 1))]>
           (nonces s).
Proof.
  unfold applyTransaction, bind.
  assert (Hn : forall s1 s2, nonces s1 = nonces s -> updateNonce tx s1 = (Ok tt, s2) ->
      nonces s2
      = if String.eqb (tx_from tx) systemAddress then nonces s
        else <[tx_from tx := JsNumber.Math_max (getNonce (tx_from tx) s)
                               (JsNumber.add (tx_nonce tx) (JsNumber.of_Z 1))]>
               (nonces s)).
  { intros s1 s2 He H. destruct (updateNonce_spec tx s1) as (s3 & H3 & _ & _ & _ & Hx).
    rewrite H3 in H. injection H as <-. rewrite Hx. unfold getNonce. by rewrite He. }
  destruct (tx_type tx); try discriminate.
  - unfold applyTransferTransaction. destruct (_ <? _); [discriminate|].
    apply Hn. by destruct (creditFee_other (tx_fee tx)
      (setBalance (tx_to tx)
         (getBalance (tx_to tx)
            (setBalance (tx_from tx)
               (getBalance (tx_from tx) s - (tx_amount tx + tx_fee tx)) s) +
          tx_amount tx)
         (setBalance (tx_from tx)
            (getBalance (tx_from tx) s - (tx_amount tx + tx_fee tx)) s)))
      as (_ & -> & _).
  - unfold applyValidatorRegistration.
    destruct (tx_data tx) as [d|]; [|discriminate].
    destruct (_ <? _); [discriminate|]. apply Hn. simpl.
    by destruct (creditFee_other (tx_fee tx)
      (setBalance (tx_from tx)
         (getBalance (tx_from tx) s - (tx_fee tx + default 0 (stake d))) s))
      as (_ & -> & _).
  - unfold applyRewardTransaction. by apply Hn.
  - unfold applyMintTransaction. by apply Hn.
  - unfold applyBurnTransaction. destruct (_ <? _); [discriminate|].
    apply Hn. by destruct (creditFee_other (tx_fee tx)
      (setBalance (tx_from tx)
         (getBalance (tx_from tx) s - (tx_amount tx + tx_fee tx)) s))
      as (_ & -> & _).
Qed.

Lemma getNonce_not_NaN (a : string) (s : StateManager) : getNonce a s <> JsNumber.NaN.
Proof.
  unfold getNonce. destruct (nonces s !! a); [apply JsNumberFacts.orZero_not_NaN|done].
Qed.

(** Nonces are numbers.  Applying a transaction whose nonce is not NaN
    lowers no nonce.  For a sender other than the system address the nonce
    test of [StateManager.validateTransaction] turns the applied
    transaction away afterwards exactly when it did so before or
    [tx.nonce + 1 > tx.nonce] holds in binary64; when that holds, as it
    does for every integer nonce from 0 to [2^53 - 2], the transaction
    itself and every transaction of the sender with a nonce that is not
    higher are rejected. *)
Theorem applyTransaction_replay (tx : Transaction) (s s' : StateManager) :
  applyTransaction tx s = (Ok tt, s') ->
  let next := JsNumber.add (tx_nonce tx) (JsNumber.of_Z 1) in
  (tx_nonce tx <> JsNumber.NaN ->
   forall a, JsNumber.geb (getNonce a s') (getNonce a s) = true)
  /\ (tx_from tx <> systemAddress ->
      JsNumber.ltb (tx_nonce tx) (getNonce (tx_from tx) s')
      = JsNumber.ltb (tx_nonce tx) (getNonce (tx_from tx) s)
        || JsNumber.ltb (tx_nonce tx) next
      /\ (JsNumber.ltb (tx_nonce tx) next = true ->
          forall tx', tx_from tx' = tx_from tx ->
            JsNumber.geb (tx_nonce tx) (tx_nonce tx') = true ->
            StateManager_validateTransaction tx' s' = false)
      /\ (forall n, 0 <= n < 2 ^ 53 - 1 -> tx_nonce tx = JsNumber.of_Z n ->
            forall tx', tx_from tx' = tx_from tx ->
              JsNumber.geb (tx_nonce tx) (tx_nonce tx') = true ->
              StateManager_validateTransaction tx' s' = false)).
Proof.
  intros H next. apply applyTransaction_nonces in H. fold next in H.
  pose proof (getNonce_not_NaN (tx_from tx) s) as Hcur.
  destruct (String.eqb (tx_from tx) systemAddress) eqn:E.
  { apply String.eqb_eq in E. split; [|done].
    intros _ a. unfold getNonce at 1. rewrite H. fold (getNonce a s).
    unfold JsNumber.geb. rewrite JsNumberFacts.compare_refl; [done|].
    apply getNonce_not_NaN. }
  assert (Hafter : getNonce (tx_from tx) s'
                   = JsNumber.orZero (JsNumber.Math_max (getNonce (tx_from tx) s) next)).
  { unfold getNonce at 1. by rewrite H, lookup_insert_eq. }
  assert (Hrej : JsNumber.ltb (tx_nonce tx) next = true ->
            forall tx', tx_from tx' = tx_from tx ->
              JsNumber.geb (tx_nonce tx) (tx_nonce tx') = true ->
              StateManager_validateTransaction tx' s' = false).
  { intros Hlt tx' Hfrom Hle.
    assert (Hnext : next <> JsNumber.NaN).
    { intros Hn. unfold JsNumber.ltb in Hlt. rewrite Hn in Hlt.
      by destruct (tx_nonce tx). }
    unfold StateManager_validateTransaction. rewrite Hfrom, E. simpl.
    assert (Hl : JsNumber.ltb (tx_nonce tx') (getNonce (tx_from tx) s') = true).
    { rewrite Hafter. unfold JsNumber.ltb.
      rewrite JsNumberFacts.compare_orZero_r
        by (by apply JsNumberFacts.Math_max_not_NaN).
      fold (JsNumber.ltb (tx_nonce tx')
              (JsNumber.Math_max (getNonce (tx_from tx) s) next)).
      rewrite JsNumberFacts.ltb_Math_max by done.
      apply orb_true_iff. right.
      by apply (JsNumberFacts.geb_ltb_trans _ (tx_nonce tx)). }
    by rewrite Hl. }
  split; [|intros _; split; [|split]].
  - intros Hnum a.
    assert (Hnext : next <> JsNumber.NaN) by (by apply JsNumberFacts.add_one_not_NaN).
    destruct (decide (a = tx_from tx)) as [->|Hne].
    + rewrite Hafter. unfold JsNumber.geb.
      rewrite JsNumberFacts.compare_orZero_l
        by (by apply JsNumberFacts.Math_max_not_NaN).
      by apply JsNumberFacts.geb_Math_max_l.
    + unfold getNonce at 1. rewrite H, lookup_insert_ne by done. fold (getNonce a s).
      unfold JsNumber.geb. rewrite JsNumberFacts.compare_refl; [done|].
      apply getNonce_not_NaN.
  - assert (tx_nonce tx = JsNumber.NaN \/ tx_nonce tx <> JsNumber.NaN) as [Hn|Hn]
      by (destruct (tx_nonce tx); auto).
    { unfold JsNumber.ltb. rewrite Hn. done. }
    assert (Hnext : next <> JsNumber.NaN) by (by apply JsNumberFacts.add_one_not_NaN).
    rewrite Hafter. unfold JsNumber.ltb at 1.
    rewrite JsNumberFacts.compare_orZero_r
      by (by apply JsNumberFacts.Math_max_not_NaN).
    fold (JsNumber.ltb (tx_nonce tx)
            (JsNumber.Math_max (getNonce (tx_from tx) s) next)).
    by apply JsNumberFacts.ltb_Math_max.
  - exact Hrej.
  - intros n Hn Hnonce. apply Hrej. unfold next. rewrite Hnonce.
    by apply JsNumberFacts.add_one_above.
Qed.

Lemma applyTransaction_replay_witness :
  let s := fundedState "alice" 116 in
  let s' := snd (applyTransaction claimTransfer s) in
  JsNumber.geb (getNonce "alice" s') (getNonce "alice" s) = true
  /\ StateManager_validateTransaction claimTransfer s' = false.
Proof.
  destruct (applyTransaction_replay claimTransfer (fundedState "alice" 116)
              (snd (applyTransaction claimTransfer (fundedState "alice" 116))))
    as [Hmono Hsender].
  - vm_compute. reflexivity.
  - split.
    + apply Hmono. vm_compute. discriminate.
    + destruct Hsender as (_ & _ & Hsafe); [vm_compute; discriminate|].
      apply (Hsafe 0); [lia|reflexivity|reflexivity|vm_compute; reflexivity].
Defined.

(** At the nonce [2^53] the sum [tx.nonce + 1] is [2^53] again: the
    transfer is applied, still passes validation, and is applied a second
    time. *)
Lemma nonce_rounding_replay :
  let s1 := snd (applyTransaction lateTransfer (fundedState "alice" 500)) in
  let s2 := snd (applyTransaction lateTransfer s1) in
  tx_nonce lateTransfer = JsNumber.of_Z (2 ^ 53)
  /\ fst (applyTransaction lateTransfer (fundedState "alice" 500)) = Ok tt
  /\ getNonce "alice" s1 = JsNumber.of_Z (2 ^ 53)
  /\ StateManager_validateTransaction lateTransfer s1 = true
  /\ fst (applyTransaction lateTransfer s1) = Ok tt
  /\ getBalance "alice" s1 = 384
  /\ getBalance "alice" s2 = 268.
Proof. vm_compute. repeat split; reflexivity. Qed.

(** *** Validation against the state *)

(** A transaction of a supported type that
    [StateManager.validateTransaction] accepts, with an amount that is not
    negative and, for a registration, with its data present, is applied
    without an error. *)
Theorem validateTransaction_sound (tx : Transaction) (s : StateManager) :
  StateManager_validateTransaction tx s = true ->
  0 <= tx_amount tx ->
  In (tx_type tx) [TRANSFER; MINT; BURN; VALIDATOR_REGISTRATION; REWARD] ->
  (tx_type tx = VALIDATOR_REGISTRATION -> tx_data tx <> None) ->
  exists s', applyTransaction tx s = (Ok tt, s').
Proof.
  unfold StateManager_validateTransaction, applyTransaction, bind.
  intros Hv Ha Hty Hd.
  destruct (_ && _); [discriminate|].
  assert (Hn : forall s1, exists s2, updateNonce tx s1 = (Ok tt, s2)).
  { intros s1. destruct (updateNonce_spec tx s1) as (s2 & H2 & _). by exists s2. }
  destruct (tx_type tx) eqn:Et; simpl in Hty;
    try (exfalso; intuition discriminate).
  - unfold applyTransferTransaction.
    destruct (getBalance (tx_from tx) s <? tx_amount tx + tx_fee tx + 0) eqn:E;
      [discriminate|]. apply Z.ltb_ge in E.
    assert (Hf : (getBalance (tx_from tx) s <? tx_amount tx + tx_fee tx) = false)
      by (apply Z.ltb_ge; lia).
    rewrite Hf. apply Hn.
  - unfold applyValidatorRegistration.
    destruct (tx_data tx) as [d|]; [|by destruct Hd].
    destruct (getBalance (tx_from tx) s <? tx_amount tx + tx_fee tx + default 0 (stake d))
      eqn:E; [discriminate|]. apply Z.ltb_ge in E.
    assert (Hf : (getBalance (tx_from tx) s <? tx_fee tx + default 0 (stake d)) = false)
      by (apply Z.ltb_ge; lia).
    rewrite Hf. apply Hn.
  - unfold applyRewardTransaction. apply Hn.
  - unfold applyMintTransaction. apply Hn.
  - unfold applyBurnTransaction.
    destruct (getBalance (tx_from tx) s <? tx_amount tx + tx_fee tx + 0) eqn:E;
      [discriminate|]. apply Z.ltb_ge in E.
    assert (Hf : (getBalance (tx_from tx) s <? tx_amount tx + tx_fee tx) = false)
      by (apply Z.ltb_ge; lia).
    rewrite Hf. apply Hn.
Qed.

Lemma validateTransaction_sound_witness :
  exists s', applyTransaction (registrationTx "reg" "alice" 40 2 0)
               (fundedState "alice" 100) = (Ok tt, s').
Proof.
  apply (validateTransaction_sound (registrationTx "reg" "alice" 40 2 0)
           (fundedState "alice" 100)).
  - vm_compute. reflexivity.
  - vm_compute. discriminate.
  - simpl. tauto.
  - intros _. discriminate.
Defined.

(** *** Validator registration *)

(** A VALIDATOR_REGISTRATION with its data present and a fee that is not
    negative: below fee + stake the sender is rejected with the state
    untouched; otherwise the sender pays fee + stake, the system address
    receives the fee, the registry entry of the sender is replaced by an
    active one carrying the stake, the transaction's timestamp and the
    state manager's chain height, and one event is emitted.  Without data
    the call raises a TypeError and changes nothing. *)
Theorem applyValidatorRegistration_semantics (tx : Transaction) (s : StateManager) :
  tx_type tx = VALIDATOR_REGISTRATION ->
  0 <= tx_fee tx ->
  (tx_data tx = None -> applyTransaction tx s = (Throw TypeError, s))
  /\ forall d, tx_data tx = Some d ->
       let stakeValue := default 0 (stake d) in
       (getBalance (tx_from tx) s < tx_fee tx + stakeValue ->
        applyTransaction tx s
        = (Throw (InsufficientBalance (tx_from tx) (getBalance (tx_from tx) s)
                    (tx_fee tx + stakeValue)), s))
       /\ (tx_fee tx + stakeValue <= getBalance (tx_from tx) s ->
           exists s',
             applyTransaction tx s = (Ok tt, s')
             /\ (forall a, getBalance a s'
                           = getBalance a s
                             + (if decide (a = systemAddress) then tx_fee tx else 0)
                             - (if decide (a = tx_from tx) then tx_fee tx + stakeValue else 0))
             /\ validators s'
                = <[tx_from tx := {| ve_address := tx_from tx;
                                     ve_type := validatorType d;
                                     ve_stake := stakeValue;
                                     ve_registeredAt := tx_timestamp tx;
                                     ve_active := true;
                                     ve_lastActiveBlock := sm_chainHeight s |}]>
                    (validators s)
             /\ sm_emitted s'
                = sm_emitted s
                  ++ [ValidatorRegistered (tx_from tx) (validatorType d) stakeValue]).
Proof.
  intros Hty Hf. unfold applyTransaction, bind. rewrite Hty.
  unfold applyValidatorRegistration. split.
  - by intros ->.
  - intros d ->. cbv zeta. split.
    + intros Hlt. apply Z.ltb_lt in Hlt. by rewrite Hlt.
    + intros Hge. apply Z.ltb_ge in Hge. rewrite Hge.
      match goal with |- context [updateNonce tx ?s1] =>
        destruct (updateNonce_spec tx s1) as (s2 & -> & Hb & Hv & He & _) end.
      exists s2. split; [reflexivity|]. split; [|split].
      * intros a. unfold getBalance at 1. rewrite Hb. simpl.
        change (default 0 (balances (creditFee ?f ?s0) !! a))
          with (getBalance a (creditFee f s0)).
        rewrite getBalance_creditFee, getBalance_setBalance by done.
        destruct (decide (a = tx_from tx)) as [->|];
          destruct (decide (_ = systemAddress)); lia.
      * rewrite Hv. simpl.
        destruct (creditFee_other (tx_fee tx)
          (setBalance (tx_from tx)
             (getBalance (tx_from tx) s - (tx_fee tx + default 0 (stake d))) s))
          as (-> & _ & -> & _). reflexivity.
      * rewrite He. simpl.
        by destruct (creditFee_other (tx_fee tx)
          (setBalance (tx_from tx)
             (getBalance (tx_from tx) s - (tx_fee tx + default 0 (stake d))) s))
          as (_ & _ & _ & _ & ->).
Qed.

Lemma applyValidatorRegistration_semantics_witness :
  exists s',
    applyTransaction (registrationTx "reg" "alice" 40 2 0) (fundedState "alice" 100)
    = (Ok tt, s')
    /\ getBalance "alice" s' = 58
    /\ getBalance systemAddress s' = 2
    /\ ve_stake <$> validators s' !! "alice" = Some 40.
Proof.
  destruct (proj2 (applyValidatorRegistration_semantics
                     (registrationTx "reg" "alice" 40 2 0) (fundedState "alice" 100)
                     eq_refl ltac:(vm_compute; discriminate)) _ eq_refl) as [_ Hok].
  destruct (Hok ltac:(vm_compute; discriminate)) as (s' & Hrun & Hbal & Hval & _).
  exists s'. split; [exact Hrun|]. rewrite !Hbal, Hval.
  vm_compute. repeat split; reflexivity.
Defined.

(** *** Adding blocks *)

Lemma addBlock_cases (b : Block) (s : BlockchainService) :
  (fst (addBlock b s) = Ok false /\ snd (addBlock b s) = s
   /\ (is_Some (blocks s !! hash b) \/ validateBlock b s = false))
  \/ (blocks s !! hash b = None /\ validateBlock b s = true
      /\ fst (addBlock b s) <> Ok false
      /\ blocks (snd (addBlock b s)) = <[hash b := b]> (blocks s)
      /\ blocksByHeight (snd (addBlock b s))
         = <[height (header b) := hash b]> (blocksByHeight s)
      /\ chainHeight (snd (addBlock b s)) = Z.max (chainHeight s) (height (header b))).
Proof.
  unfold addBlock. destruct (blocks s !! hash b) eqn:Hb.
  { left. simpl. eauto. }
  destruct (validateBlock b s) eqn:Hv; simpl; [|left; eauto].
  right. split; [done|]. split; [done|].
  unfold bind, modify, ret, onStateManager; simpl.
  destruct (chainHeight s <? height (header b)) eqn:E.
  - apply Z.ltb_lt in E.
    destruct (applyBlock b _) as [[[]|e] sm']; simpl;
      (split; [discriminate|]); (split; [done|]); (split; [done|]); lia.
  - apply Z.ltb_ge in E. simpl.
    (split; [discriminate|]); (split; [done|]); (split; [done|]); lia.
Qed.

(** [addBlock] returns false exactly when the block is already indexed
    by its hash or fails validation, and the service is then as it was. *)
Theorem addBlock_false_iff (b : Block) (s : BlockchainService) :
  (fst (addBlock b s) = Ok false
   <-> is_Some (blocks s !! hash b) \/ validateBlock b s = false)
  /\ (fst (addBlock b s) = Ok false -> snd (addBlock b s) = s).
Proof.
  destruct (addBlock_cases b s) as [(Hf & Hs & Hc)|(Hb & Hv & Hn & _)].
  - split; [split; done|done].
  - split; [split|]; try done.
    intros [[x Hx]|Hx]; congruence.
Qed.

(** Whatever [addBlock] returns or throws, the chain height does not go
    down and every block indexed by hash stays indexed. *)
Theorem addBlock_monotone (b : Block) (s : BlockchainService) :
  chainHeight s <= chainHeight (snd (addBlock b s))
  /\ blocks s ⊆ blocks (snd (addBlock b s)).
Proof.
  destruct (addBlock_cases b s) as [(_ & -> & _)|(Hb & _ & _ & -> & _ & ->)].
  - done.
  - split; [lia|]. by apply insert_subseteq.
Qed.



(** A valid new block that is not above the chain height is indexed and
    announced, while head and account state stay; the height index now
    answers with this block, whatever it held for that height before. *)
Theorem addBlock_side_block (b : Block) (s : BlockchainService) :
  blocks s !! hash b = None ->
  validateBlock b s = true ->
  height (header b) <= chainHeight s ->
  exists s',
    addBlock b s = (Ok true, s')
    /\ getBlockByHeight (height (header b)) s' = Some b
    /\ chainHeight s' = chainHeight s
    /\ lastBlockHash s' = lastBlockHash s
    /\ stateManager s' = stateManager s
    /\ emitted s' = emitted s ++ [BlockAdded b].
Proof.
  intros Hb Hv Hh. unfold addBlock. rewrite Hb, Hv. simpl.
  apply Z.ltb_ge in Hh. rewrite Hh.
  eexists. split; [reflexivity|]. simpl. split; [|done].
  unfold getBlockByHeight, getBlock. simpl. rewrite lookup_insert_eq.
  assert (Hne : String.eqb (hash b) "" = false).
  { unfold validateBlock in Hv. by destruct (String.eqb (hash b) ""). }
  by rewrite Hne, lookup_insert_eq.
Qed.

Lemma addBlock_side_block_witness :
  getBlockByHeight 0 sampleService = Some sampleGenesis
  /\ exists s',
       addBlock rivalGenesis sampleService = (Ok true, s')
       /\ getBlockByHeight (height (header rivalGenesis)) s' = Some rivalGenesis
       /\ chainHeight s' = chainHeight sampleService
       /\ lastBlockHash s' = lastBlockHash sampleService
       /\ stateManager s' = stateManager sampleService
       /\ emitted s' = emitted sampleService ++ [BlockAdded rivalGenesis].
Proof.
  split; [vm_compute; reflexivity|].
  apply (addBlock_side_block rivalGenesis sampleService).
  - vm_compute. reflexivity.
  - vm_compute. reflexivity.
  - vm_compute. discriminate.
Defined.

(** *** What validation covers *)

Lemma calculateMerkleRoot_ids (txs txs' : list Transaction) :
  List.map tx_id txs = List.map tx_id txs' ->
  calculateMerkleRoot txs = calculateMerkleRoot txs'.
Proof.
  intros H. unfold calculateMerkleRoot.
  destruct txs, txs'; try discriminate; [done|]. by rewrite H.
Qed.

Lemma forallb_validateTransaction (txs : list Transaction) :
  forallb validateTransaction txs = true.
Proof. by induction txs. Qed.

(** Block validation reads the transactions through their ids only:
    replacing the transactions of a block by others with the same ids, in
    the same order, does not change the verdict. *)
Theorem validateBlock_ignores_contents (txs : list Transaction) (b : Block)
    (s : BlockchainService) :
  List.map tx_id txs = List.map tx_id (transactions b) ->
  validateBlock (withTransactions txs b) s = validateBlock b s.
Proof.
  intros H. unfold validateBlock. simpl.
  change (calculateBlockHash (withTransactions txs b)) with (calculateBlockHash b).
  rewrite (calculateMerkleRoot_ids _ _ H), !forallb_validateTransaction.
  reflexivity.
Qed.

Lemma validateBlock_ignores_contents_witness :
  validateBlock (withTransactions [rewrittenTx] payableBlock) sampleService
  = validateBlock payableBlock sampleService.
Proof.
  apply (validateBlock_ignores_contents [rewrittenTx] payableBlock sampleService).
  reflexivity.
Defined.

(** *** Blocks received from the network *)

(** [handleReceivedBlock] announces the block as relayable exactly when
    [addBlock] returned true, and never reaches the reorganisation branch:
    once a block is added the chain height is not below its height. *)
Theorem handleReceivedBlock_relays (b : Block) (s : BlockchainService) :
  fst (handleReceivedBlock b s)
  = match fst (addBlock b s) with
    | Ok true => [Relayable b]
    | _ => []
    end
  /\ snd (handleReceivedBlock b s) = snd (addBlock b s).
Proof.
  unfold handleReceivedBlock.
  destruct (addBlock_cases b s) as [(Hf & _)|(_ & _ & _ & _ & _ & Hh)].
  - destruct (addBlock b s) as [r s']. simpl in *. by subst.
  - destruct (addBlock b s) as [[[|]|e] s']; simpl in *; try done.
    assert (Hc : (chainHeight s' <? height (header b)) = false)
      by (apply Z.ltb_ge; lia).
    by rewrite Hc.
Qed.

(** *** Queries over the height index *)

Lemma elem_of_descending (h hi lo : Z) : h ∈ descending hi lo <-> lo < h <= hi.
Proof.
  unfold descending.
  rewrite list_elem_of_In, <- in_rev, <- list_elem_of_In, elem_of_seqZ. lia.
Qed.

Lemma length_descending (hi lo : Z) :
  Z.of_nat (List.length (descending hi lo)) = Z.max 0 (hi - lo).
Proof. unfold descending. rewrite length_rev, length_seqZ. lia. Qed.

Lemma length_omap_le {A B} (f : A -> option B) (l : list A) :
  (List.length (omap f l) <= List.length l)%nat.
Proof.
  induction l as [|x l IH]; [done|].
  change (omap f (x :: l))
    with (match f x with Some y => y :: omap f l | None => omap f l end).
  destruct (f x); simpl; lia.
Qed.

Lemma omap_rev {A B} (f : A -> option B) (l : list A) :
  omap f (List.rev l) = List.rev (omap f l).
Proof.
  induction l as [|x l IH]; [done|].
  change (omap f (x :: l))
    with (match f x with Some y => y :: omap f l | None => omap f l end).
  simpl. rewrite omap_app, IH.
  change (omap f [x]) with (match f x with Some y => [y] | None => [] end).
  destruct (f x); simpl; [done|by rewrite app_nil_r].
Qed.

(** [getLatestBlocks] is [getBlockRange] read backwards over the heights
    from [max(0, chainHeight - limit) + 1] to the chain height.  It returns
    at most [limit] blocks, all taken from the height index at heights
    above 0: the block indexed at height 0 is never part of the answer. *)
Theorem getLatestBlocks_bounds (limit : Z) (s : BlockchainService) :
  getLatestBlocks limit s
  = List.rev (getBlockRange (Z.max 0 (chainHeight s - limit) + 1) (chainHeight s) s)
  /\ Z.of_nat (List.length (getLatestBlocks limit s)) <= Z.max 0 limit
  /\ forall b, b ∈ getLatestBlocks limit s ->
       exists h, 0 < h <= chainHeight s /\ chainHeight s - limit < h
                 /\ getBlockByHeight h s = Some b.
Proof.
  split.
  { unfold getLatestBlocks, getBlockRange, descending. rewrite omap_rev.
    do 3 f_equal. lia. }
  unfold getLatestBlocks. split.
  - etransitivity; [apply inj_le, length_omap_le|].
    rewrite length_descending. lia.
  - intros b Hb. apply list_elem_of_omap in Hb as (h & Hh & Hg).
    apply elem_of_descending in Hh. exists h. split; [lia|]. split; [lia|done].
Qed.

Lemma collectFromBlock_spec (address : string) (limit : Z) (block : Block)
    (txs : list Transaction) (acc : list AddressTransaction) :
  let n := Z.to_nat (Z.max limit 1) in
  let all := acc ++ List.map (addressEntry block) (List.filter (concerns address) txs) in
  (List.length acc < n)%nat ->
  collectFromBlock address limit block txs acc
  = (firstn n all, (n <=? List.length all)%nat).
Proof.
  cbv zeta. revert acc. induction txs as [|tx txs IH]; intros acc Hacc; simpl.
  - rewrite app_nil_r, firstn_all2 by lia. f_equal.
    symmetry. apply Nat.leb_gt. lia.
  - destruct (concerns address tx); simpl.
    + rewrite length_app. simpl.
      destruct (limit <=? Z.of_nat (List.length acc + 1)) eqn:E.
      * apply Z.leb_le in E.
        assert (Hn : Z.to_nat (Z.max limit 1) = (List.length acc + 1)%nat) by lia.
        rewrite Hn.
        replace (acc ++ addressEntry block tx
                     :: List.map (addressEntry block) (List.filter (concerns address) txs))
          with ((acc ++ [addressEntry block tx])
                  ++ List.map (addressEntry block) (List.filter (concerns address) txs))
          by (by rewrite <- app_assoc).
        rewrite firstn_app, firstn_all2 by (rewrite length_app; simpl; lia).
        rewrite !length_app. simpl.
        replace (List.length acc + 1 - (List.length acc + 1))%nat with 0%nat by lia.
        simpl. rewrite app_nil_r. f_equal. symmetry. apply Nat.leb_le. lia.
      * apply Z.leb_gt in E. rewrite IH by (rewrite length_app; simpl; lia).
        by rewrite <- app_assoc.
    + by apply IH.
Qed.

Lemma collectFromHeights_spec (address : string) (limit : Z) (s : BlockchainService)
    (heights : list Z) (acc : list AddressTransaction) :
  (List.length acc < Z.to_nat (Z.max limit 1))%nat ->
  collectFromHeights address limit s heights acc
  = firstn (Z.to_nat (Z.max limit 1)) (acc ++ matchingEntries address s heights).
Proof.
  unfold matchingEntries.
  revert acc. induction heights as [|h hs IH]; intros acc Hacc; simpl.
  - rewrite app_nil_r, firstn_all2 by lia. reflexivity.
  - destruct (getBlockByHeight h s) as [block|]; simpl.
    + rewrite collectFromBlock_spec by done. cbv zeta.
      set (ms := List.map (addressEntry block)
                   (List.filter (concerns address) (transactions block))).
      set (n := Z.to_nat (Z.max limit 1)) in *.
      destruct (n <=? List.length (acc ++ ms))%nat eqn:E.
      * apply Nat.leb_le in E. rewrite app_assoc, (firstn_app n (acc ++ ms)).
        replace (n - List.length (acc ++ ms))%nat with 0%nat by lia.
        simpl. by rewrite app_nil_r.
      * apply Nat.leb_gt in E. rewrite firstn_all2 by lia.
        rewrite IH by done. by rewrite app_assoc.
    + by apply IH.
Qed.

(** [getAddressTransactions] returns the first [max(limit, 1)] matching
    transactions, newest block first: the limit is tested only after an
    entry was pushed, so a limit of 0 or less still yields the first
    match. *)
Theorem getAddressTransactions_limit (address : string) (limit : Z)
    (s : BlockchainService) :
  getAddressTransactions address limit s
  = firstn (Z.to_nat (Z.max limit 1))
           (matchingEntries address s (descending (chainHeight s) (-1))).
Proof.
  unfold getAddressTransactions. rewrite collectFromHeights_spec; [done|]. simpl. lia.
Qed.

End LedgerProperties.

(** ** The library class Blockchain *)

Module CoreBlockchainFacts.
Import Ledger CoreBlockchain LedgerFacts.

(** [Blockchain.processTransaction] charges no fee: for a sender other
    than SYSTEM and a fee that is not negative the sender ends with the
    amount less, the recipient with the amount more, and every other
    balance as before, whatever the fee. *)
Theorem processTransaction_fee_free (tx : Transaction) (b : gmap string Z) (a : string) :
  tx_from tx <> "SYSTEM"%string ->
  0 <= tx_fee tx ->
  balanceOf a (processTransaction tx b)
  = balanceOf a b
    + (if decide (a = tx_to tx) then tx_amount tx else 0)
    - (if decide (a = tx_from tx) then tx_amount tx else 0).
Proof.
  intros Hsys Hfee. unfold processTransaction.
  apply String.eqb_neq in Hsys. rewrite Hsys.
  destruct tx as [i f t am fe ts ty d sg n]; simpl in *.
  destruct (0 <? fe) eqn:E; [|apply Z.ltb_ge in E];
    rewrite !balanceOf_insert;
    repeat case_decide; subst; try congruence; lia.
Qed.

Lemma processTransaction_fee_free_witness :
  balanceOf "alice" (processTransaction claimTransfer {["alice" := 116]})
  = balanceOf "alice" {["alice" := 116]}
    + (if decide ("alice" = tx_to claimTransfer) then tx_amount claimTransfer else 0)
    - (if decide ("alice" = tx_from claimTransfer) then tx_amount claimTransfer else 0).
Proof.
  apply (processTransaction_fee_free claimTransfer {["alice" := 116]} "alice").
  - vm_compute. discriminate.
  - vm_compute. discriminate.
Defined.
End CoreBlockchainFacts.

(** ** Mempool: the pool and its account index *)

Module MempoolProperties.
Import JsNumber JsNumberFacts Mempool MempoolFacts.

(** *** Lookups in the pool *)

Lemma has_spec (txId : string) (s : MempoolService) :
  has txId s = true <-> txId ∈ List.map fst (pendingTransactions s).
Proof.
  unfold has. rewrite existsb_exists, list_elem_of_In, in_map_iff.
  split; intros (e & H1 & H2).
  - apply String.eqb_eq in H2. by exists e.
  - exists e. split; [done|]. by apply String.eqb_eq.
Qed.

Lemma find_key_Some (txId : string) (l : list (string * PendingTx)) (e : string * PendingTx) :
  List.find (fun e => String.eqb (fst e) txId) l = Some e -> e ∈ l /\ fst e = txId.
Proof.
  intros H. apply find_some in H as [H1 H2].
  split; [by apply list_elem_of_In|by apply String.eqb_eq].
Qed.

Lemma find_key_None (txId : string) (l : list (string * PendingTx)) :
  List.find (fun e => String.eqb (fst e) txId) l = None -> txId ∉ List.map fst l.
Proof.
  intros H Hin. apply list_elem_of_In, in_map_iff in Hin as (e & <- & He).
  pose proof (find_none _ _ H e He) as Hf. simpl in Hf.
  by rewrite String.eqb_refl in Hf.
Qed.

Lemma filter_key_notin (txId : string) (l : list (string * PendingTx)) :
  txId ∉ List.map fst l ->
  List.filter (fun e => negb (String.eqb (fst e) txId)) l = l.
Proof.
  induction l as [|e l IH]; simpl; [done|]. intros H.
  apply not_elem_of_cons in H as [Hne Hl].
  assert (Hf : String.eqb (fst e) txId = false) by (by apply String.eqb_neq).
  rewrite Hf. simpl. by rewrite IH.
Qed.

Lemma elem_of_filter_key (txId : string) (l : list (string * PendingTx))
    (e : string * PendingTx) :
  e ∈ List.filter (fun e => negb (String.eqb (fst e) txId)) l <-> e ∈ l /\ fst e <> txId.
Proof.
  rewrite !list_elem_of_In, filter_In, negb_true_iff, String.eqb_neq. done.
Qed.

Lemma keys_filter_key (txId : string) (l : list (string * PendingTx)) :
  List.map fst (List.filter (fun e => negb (String.eqb (fst e) txId)) l)
  = List.filter (fun k => negb (String.eqb k txId)) (List.map fst l).
Proof.
  induction l as [|e l IH]; simpl; [done|].
  destruct (String.eqb (fst e) txId); simpl; by rewrite IH.
Qed.

Lemma NoDup_filter_key (txId : string) (l : list (string * PendingTx)) :
  NoDup (List.map fst l) ->
  NoDup (List.map fst (List.filter (fun e => negb (String.eqb (fst e) txId)) l)).
Proof.
  intros H. rewrite keys_filter_key.
  apply NoDup_ListNoDup, List.NoDup_filter, NoDup_ListNoDup, H.
Qed.

Lemma NoDup_key_eq (l : list (string * PendingTx)) (k : string) (t t' : PendingTx) :
  NoDup (List.map fst l) -> (k, t) ∈ l -> (k, t') ∈ l -> t = t'.
Proof.
  induction l as [|e l IH]; simpl; intros Hnd H1 H2; [by apply elem_of_nil in H1|].
  apply NoDup_cons in Hnd as [Hk Hnd].
  apply elem_of_cons in H1 as [H1|H1], H2 as [H2|H2].
  - congruence.
  - exfalso. subst e. apply Hk. simpl. apply list_elem_of_In, in_map_iff.
    exists (k, t'). split; [done|by apply list_elem_of_In].
  - exfalso. subst e. apply Hk. simpl. apply list_elem_of_In, in_map_iff.
    exists (k, t). split; [done|by apply list_elem_of_In].
  - by apply IH.
Qed.

Lemma elem_of_idsOf (x a : string) (s : MempoolService) :
  x ∈ idsOf a s
  <-> exists t, (x, t) ∈ pendingTransactions s /\ Ledger.tx_from (ptx t) = a.
Proof.
  unfold idsOf. rewrite elem_of_list_to_set, list_elem_of_In, in_map_iff. split.
  - intros ([k t] & <- & H). apply filter_In in H as [H1 H2]. simpl in *.
    exists t. split; [by apply list_elem_of_In|by apply String.eqb_eq].
  - intros (t & H1 & H2). exists (x, t). split; [done|].
    apply filter_In. split; [by apply list_elem_of_In|]. simpl. by apply String.eqb_eq.
Qed.

Lemma removeTransaction_pending (txId : string) (s : MempoolService) :
  pendingTransactions (snd (removeTransaction txId s))
  = List.filter (fun e => negb (String.eqb (fst e) txId)) (pendingTransactions s).
Proof.
  unfold removeTransaction, getTransaction.
  destruct (List.find _ _) as [e|] eqn:E; simpl; [done|].
  symmetry. by apply filter_key_notin, find_key_None.
Qed.

Lemma removeTransaction_result (txId : string) (s : MempoolService) :
  fst (removeTransaction txId s) = has txId s.
Proof.
  unfold removeTransaction, getTransaction.
  destruct (List.find _ _) as [e|] eqn:E; simpl.
  - symmetry. apply has_spec. apply find_key_Some in E as [He <-].
    apply list_elem_of_In, in_map. by apply list_elem_of_In.
  - apply find_key_None in E. destruct (has txId s) eqn:H; [|done].
    by apply has_spec in H.
Qed.

(** *** The account index *)

Lemma addTransaction_indexed (cfg : MempoolConfig) (now : Z)
    (tx : Ledger.Transaction) (s : MempoolService) :
  indexed s -> indexed (snd (addTransaction cfg now tx s)).
Proof.
  intros (Hnd & Hidx & Hne). unfold addTransaction.
  destruct (has (Ledger.tx_id tx) s) eqn:Hhas; [done|].
  destruct (maxSize cfg <=? _); [done|].
  destruct (maxSizePerAccount cfg <=? _); [done|].
  destruct (ltb _ _); [done|]. simpl.
  assert (Hfresh : Ledger.tx_id tx ∉ List.map fst (pendingTransactions s)).
  { intros H. apply has_spec in H. congruence. }
  split; [|split].
  - simpl. rewrite List.map_app. simpl. apply NoDup_app. split; [done|].
    split; [|apply NoDup_singleton].
    intros x Hx Hx'. apply list_elem_of_singleton in Hx'. by subst.
  - intros a. apply set_eq. intros x.
    rewrite elem_of_idsOf. unfold getTransactionsByAccount. simpl.
    destruct (decide (a = Ledger.tx_from tx)) as [->|Hne'].
    + rewrite lookup_insert_eq. simpl. rewrite elem_of_union, elem_of_singleton.
      fold (getTransactionsByAccount (Ledger.tx_from tx) s).
      rewrite Hidx, elem_of_idsOf. split.
      * intros [->|(t & Ht & Hf)].
        -- eexists. split; [apply elem_of_app; right; apply list_elem_of_singleton; done|done].
        -- exists t. split; [apply elem_of_app; by left|done].
      * intros (t & Ht & Hf). apply elem_of_app in Ht as [Ht|Ht].
        -- right. by exists t.
        -- apply list_elem_of_singleton in Ht. injection Ht as -> _. by left.
    + rewrite lookup_insert_ne by done.
      fold (getTransactionsByAccount a s). rewrite Hidx, elem_of_idsOf. split.
      * intros (t & Ht & Hf). exists t. split; [apply elem_of_app; by left|done].
      * intros (t & Ht & Hf). apply elem_of_app in Ht as [Ht|Ht]; [by exists t|].
        apply list_elem_of_singleton in Ht. injection Ht as _ ->. simpl in Hf. congruence.
  - intros a. simpl. destruct (decide (a = Ledger.tx_from tx)) as [->|Hne'].
    + rewrite lookup_insert_eq. intros [= H]. set_solver.
    + rewrite lookup_insert_ne by done. apply Hne.
Qed.

Lemma removeTransaction_indexed (txId : string) (s : MempoolService) :
  indexed s -> indexed (snd (removeTransaction txId s)).
Proof.
  intros (Hnd & Hidx & Hne).
  pose proof (removeTransaction_pending txId s) as Hp.
  unfold removeTransaction, getTransaction in *.
  destruct (List.find _ _) as [[k t]|] eqn:E; simpl in *; [|done].
  apply find_key_Some in E as [Hin Hk]. simpl in Hk. subst k.
  set (from := Ledger.tx_from (ptx t)) in *.
  assert (Hmem : txId ∈ getTransactionsByAccount from s).
  { rewrite Hidx. apply elem_of_idsOf. by exists t. }
  assert (Hids : forall tba ad a x,
    x ∈ idsOf a {| pendingTransactions :=
                     List.filter (fun e => negb (String.eqb (fst e) txId))
                                 (pendingTransactions s);
                   transactionsByAccount := tba;
                   added := ad |}
    <-> x ∈ idsOf a s /\ x <> txId).
  { intros tba ad a x. rewrite !elem_of_idsOf. simpl. split.
    - intros (t' & Ht' & Hf). apply elem_of_filter_key in Ht' as [Ht' Hx].
      split; [by exists t'|done].
    - intros [(t' & Ht' & Hf) Hx]. exists t'. split; [|done].
      by apply elem_of_filter_key. }
  assert (Hother : forall a x, a <> from -> x ∈ idsOf a s -> x <> txId).
  { intros a x Ha Hx ->. apply elem_of_idsOf in Hx as (t' & Ht' & Hf).
    pose proof (NoDup_key_eq _ _ _ _ Hnd Hin Ht') as Heq.
    unfold from in Ha. congruence. }
  destruct (transactionsByAccount s !! from) as [S|] eqn:Efrom.
  2:{ exfalso. unfold getTransactionsByAccount in Hmem. rewrite Efrom in Hmem.
      simpl in Hmem. set_solver. }
  assert (HS : getTransactionsByAccount from s = S).
  { unfold getTransactionsByAccount. by rewrite Efrom. }
  rewrite HS in *.
  split; [by apply NoDup_filter_key|]. split.
  - intros a. apply set_eq. intros x.
    rewrite Hids. unfold getTransactionsByAccount. simpl.
    destruct (decide (size (S ∖ {[txId]}) = 0%nat)) as [Hz|Hz].
    + apply size_empty_inv in Hz.
      destruct (decide (a = from)) as [->|Ha].
      * rewrite lookup_delete_eq. simpl. rewrite <- Hidx, HS. set_solver.
      * rewrite lookup_delete_ne by done.
        fold (getTransactionsByAccount a s). rewrite Hidx.
        split; [|tauto]. intros Hx. split; [done|]. by apply (Hother a).
    + destruct (decide (a = from)) as [->|Ha].
      * rewrite lookup_insert_eq. simpl. rewrite <- Hidx, HS. set_solver.
      * rewrite lookup_insert_ne by done.
        fold (getTransactionsByAccount a s). rewrite Hidx.
        split; [|tauto]. intros Hx. split; [done|]. by apply (Hother a).
  - intros a. simpl. destruct (decide (size (S ∖ {[txId]}) = 0%nat)) as [Hz|Hz].
    + destruct (decide (a = from)) as [->|Ha].
      * by rewrite lookup_delete_eq.
      * rewrite lookup_delete_ne by done. apply Hne.
    + destruct (decide (a = from)) as [->|Ha].
      * rewrite lookup_insert_eq. intros [= H]. rewrite H in Hz.
        by rewrite size_empty in Hz.
      * rewrite lookup_insert_ne by done. apply Hne.
Qed.

Lemma emptyPool_indexed : indexed emptyPool.
Proof.
  split; [constructor|]. split; [|intros a; simpl; by rewrite lookup_empty].
  intros a. unfold getTransactionsByAccount, idsOf. simpl. by rewrite lookup_empty.
Qed.

(** The pool stays a map and the account index stays in step with it:
    admissions and removals keep the ids distinct, keep under every
    account exactly the ids of its pooled transactions, and leave no empty
    set in the index. *)
Theorem mempool_index_invariant (cfg : MempoolConfig) (now : Z)
    (tx : Ledger.Transaction) (txId : string) (s : MempoolService) :
  indexed s ->
  indexed (snd (addTransaction cfg now tx s))
  /\ indexed (snd (removeTransaction txId s)).
Proof.
  intros H. split; [by apply addTransaction_indexed|by apply removeTransaction_indexed].
Qed.

Lemma mempool_index_invariant_witness :
  indexed (snd (addTransaction sampleConfig 100 (feeTx "t3" "alice" 3) emptyPool))
  /\ indexed (snd (removeTransaction "t3" emptyPool)).
Proof.
  apply (mempool_index_invariant sampleConfig 100 (feeTx "t3" "alice" 3) "t3" emptyPool).
  apply emptyPool_indexed.
Defined.

(** *** Admission and removal *)

Lemma find_key_fresh (txId : string) (t : PendingTx) (l : list (string * PendingTx)) :
  txId ∉ List.map fst l ->
  List.find (fun e => String.eqb (fst e) txId) (l ++ [(txId, t)]) = Some (txId, t).
Proof.
  induction l as [|e l IH]; simpl; intros H.
  - by rewrite String.eqb_refl.
  - apply not_elem_of_cons in H as [Hne Hl].
    assert (Hf : String.eqb (fst e) txId = false) by (by apply String.eqb_neq).
    rewrite Hf. by apply IH.
Qed.

Lemma addTransaction_accepted (cfg : MempoolConfig) (now : Z)
    (tx : Ledger.Transaction) (s s1 : MempoolService) :
  addTransaction cfg now tx s = (Ok true, s1) ->
  has (Ledger.tx_id tx) s = false
  /\ Z.of_nat (List.length (pendingTransactions s)) < maxSize cfg
  /\ Z.of_nat (size (getTransactionsByAccount (Ledger.tx_from tx) s))
     < maxSizePerAccount cfg
  /\ s1 = {| pendingTransactions :=
               pendingTransactions s
               ++ [(Ledger.tx_id tx, {| ptx := tx; addedAt := now |})];
             transactionsByAccount :=
               <[Ledger.tx_from tx :=
                   {[Ledger.tx_id tx]} ∪ getTransactionsByAccount (Ledger.tx_from tx) s]>
                 (transactionsByAccount s);
             added := added s ++ [Ledger.tx_id tx] |}.
Proof.
  unfold addTransaction.
  destruct (has (Ledger.tx_id tx) s); [discriminate|].
  destruct (maxSize cfg <=? _) eqn:E1; [discriminate|].
  destruct (maxSizePerAccount cfg <=? _) eqn:E2; [discriminate|].
  destruct (ltb _ _); [discriminate|].
  intros [= <-]. apply Z.leb_gt in E1, E2. done.
Qed.

Lemma addTransaction_rejected (cfg : MempoolConfig) (now : Z)
    (tx : Ledger.Transaction) (s : MempoolService) :
  fst (addTransaction cfg now tx s) <> Ok true ->
  snd (addTransaction cfg now tx s) = s.
Proof.
  unfold addTransaction.
  destruct (has (Ledger.tx_id tx) s); [done|].
  destruct (maxSize cfg <=? _); [done|].
  destruct (maxSizePerAccount cfg <=? _); [done|].
  destruct (ltb _ _); done.
Qed.

(** A transaction that was admitted is found under its id with its
    admission time, and removing it again gives back the pool and the
    account index as they were before the admission. *)
Theorem addTransaction_removeTransaction (cfg : MempoolConfig) (now : Z)
    (tx : Ledger.Transaction) (s s1 : MempoolService) :
  indexed s ->
  addTransaction cfg now tx s = (Ok true, s1) ->
  getTransaction (Ledger.tx_id tx) s1 = Some {| ptx := tx; addedAt := now |}
  /\ fst (removeTransaction (Ledger.tx_id tx) s1) = true
  /\ pendingTransactions (snd (removeTransaction (Ledger.tx_id tx) s1))
     = pendingTransactions s
  /\ transactionsByAccount (snd (removeTransaction (Ledger.tx_id tx) s1))
     = transactionsByAccount s.
Proof.
  intros (Hnd & Hidx & Hne) H.
  apply addTransaction_accepted in H as (Hhas & _ & _ & ->).
  assert (Hfresh : Ledger.tx_id tx ∉ List.map fst (pendingTransactions s)).
  { intros Hin. apply has_spec in Hin. congruence. }
  assert (Hget : getTransaction (Ledger.tx_id tx)
                   {| pendingTransactions :=
                        pendingTransactions s
                        ++ [(Ledger.tx_id tx, {| ptx := tx; addedAt := now |})];
                      transactionsByAccount :=
                        <[Ledger.tx_from tx :=
                            {[Ledger.tx_id tx]}
                            ∪ getTransactionsByAccount (Ledger.tx_from tx) s]>
                          (transactionsByAccount s);
                      added := added s ++ [Ledger.tx_id tx] |}
                 = Some {| ptx := tx; addedAt := now |}).
  { unfold getTransaction. simpl. by rewrite find_key_fresh. }
  split; [exact Hget|].
  unfold removeTransaction. rewrite Hget. simpl.
  split; [done|]. split.
  - rewrite List.filter_app, filter_key_notin by done. simpl.
    rewrite String.eqb_refl. simpl. apply app_nil_r.
  - rewrite lookup_insert_eq.
    set (old := getTransactionsByAccount (Ledger.tx_from tx) s).
    assert (Hold : Ledger.tx_id tx ∉ old).
    { unfold old. rewrite Hidx, elem_of_idsOf. intros (t & Ht & _).
      apply Hfresh, list_elem_of_In, in_map_iff. exists (Ledger.tx_id tx, t).
      split; [done|by apply list_elem_of_In]. }
    assert (Hrem : getTransactionsByAccount (Ledger.tx_from tx)
                     {| pendingTransactions :=
                          pendingTransactions s
                          ++ [(Ledger.tx_id tx, {| ptx := tx; addedAt := now |})];
                        transactionsByAccount :=
                          <[Ledger.tx_from tx := {[Ledger.tx_id tx]} ∪ old]>
                            (transactionsByAccount s);
                        added := added s ++ [Ledger.tx_id tx] |}
                   ∖ {[Ledger.tx_id tx]} = old).
    { unfold getTransactionsByAccount at 1. simpl. rewrite lookup_insert_eq. simpl.
      set_solver. }
    rewrite Hrem.
    destruct (decide (size old = 0%nat)) as [Hz|Hz].
    + rewrite delete_insert_eq. apply delete_id.
      apply size_empty_inv, leibniz_equiv in Hz.
      unfold old, getTransactionsByAccount in Hz.
      destruct (transactionsByAccount s !! Ledger.tx_from tx) as [S|] eqn:E; [|done].
      simpl in Hz. subst S. by destruct (Hne (Ledger.tx_from tx)).
    + rewrite insert_insert_eq. apply insert_id.
      unfold old, getTransactionsByAccount in *.
      destruct (transactionsByAccount s !! Ledger.tx_from tx) as [S|] eqn:E; [done|].
      exfalso. apply Hz. apply size_empty.
Qed.

Lemma addTransaction_removeTransaction_witness :
  let s1 := snd (addTransaction sampleConfig 100 (feeTx "t3" "alice" 3) emptyPool) in
  getTransaction (Ledger.tx_id (feeTx "t3" "alice" 3)) s1
  = Some {| ptx := feeTx "t3" "alice" 3; addedAt := 100 |}
  /\ fst (removeTransaction (Ledger.tx_id (feeTx "t3" "alice" 3)) s1) = true
  /\ pendingTransactions (snd (removeTransaction (Ledger.tx_id (feeTx "t3" "alice" 3)) s1))
     = pendingTransactions emptyPool
  /\ transactionsByAccount
       (snd (removeTransaction (Ledger.tx_id (feeTx "t3" "alice" 3)) s1))
     = transactionsByAccount emptyPool.
Proof.
  apply (addTransaction_removeTransaction sampleConfig 100 (feeTx "t3" "alice" 3)
           emptyPool).
  - apply emptyPool_indexed.
  - vm_compute. reflexivity.
Defined.

(** The size limits hold after every call of [addTransaction] if they
    held before it: the pool stays within [mempool.maxSize] and every
    account within [mempool.maxSizePerAccount]. *)
Theorem addTransaction_limits (cfg : MempoolConfig) (now : Z)
    (tx : Ledger.Transaction) (s : MempoolService) :
  Z.of_nat (List.length (pendingTransactions s)) <= maxSize cfg ->
  (forall a, Z.of_nat (size (getTransactionsByAccount a s)) <= maxSizePerAccount cfg) ->
  let s' := snd (addTransaction cfg now tx s) in
  Z.of_nat (List.length (pendingTransactions s')) <= maxSize cfg
  /\ forall a, Z.of_nat (size (getTransactionsByAccount a s')) <= maxSizePerAccount cfg.
Proof.
  intros Hsize Hacc. cbv zeta.
  destruct (addTransaction cfg now tx s) as [r s1] eqn:E.
  assert (Hr : r = Ok true \/ r <> Ok true)
    by (destruct r as [[|]|e]; [by left|by right|by right]).
  destruct Hr as [->|Hr].
  2:{ pose proof (addTransaction_rejected cfg now tx s) as Hs.
      rewrite E in Hs. simpl in *. rewrite (Hs Hr). done. }
  apply addTransaction_accepted in E as (_ & H1 & H2 & ->). simpl. split.
  - rewrite length_app. simpl. lia.
  - intros a. unfold getTransactionsByAccount at 1. simpl.
    destruct (decide (a = Ledger.tx_from tx)) as [->|Hne].
    + rewrite lookup_insert_eq. simpl.
      rewrite size_union_alt, size_singleton.
      assert ((size (getTransactionsByAccount (Ledger.tx_from tx) s
                     ∖ {[Ledger.tx_id tx]})
               <= size (getTransactionsByAccount (Ledger.tx_from tx) s))%nat)
        by (apply subseteq_size; set_solver).
      lia.
    + rewrite lookup_insert_ne by done. apply Hacc.
Qed.

Lemma addTransaction_limits_witness :
  let s' := snd (addTransaction sampleConfig 100 (feeTx "t3" "alice" 3) emptyPool) in
  Z.of_nat (List.length (pendingTransactions s')) <= maxSize sampleConfig
  /\ forall a, Z.of_nat (size (getTransactionsByAccount a s'))
               <= maxSizePerAccount sampleConfig.
Proof.
  apply (addTransaction_limits sampleConfig 100 (feeTx "t3" "alice" 3) emptyPool).
  - vm_compute. discriminate.
  - intros a. unfold getTransactionsByAccount, emptyPool, sampleConfig; cbn [transactionsByAccount maxSizePerAccount].
    rewrite lookup_empty.
    change (Z.of_nat (size (∅ : gset string)) <= 100). rewrite size_empty. lia.
Defined.

(** *** The order of the extraction for fees that [Number] represents *)

Lemma inOrder_exact (x y : PendingTx) :
  0 <= fee x < 2 ^ 53 -> 0 <= fee y < 2 ^ 53 -> inOrder x y -> fee y <= fee x.
Proof.
  intros Hx Hy H. unfold inOrder, comparefn in H.
  destruct (Z_lt_le_dec (fee x) (fee y)) as [Hlt|]; [|lia].
  rewrite sub_of_Z_pos in H by lia. discriminate.
Qed.

Lemma Sorted_exact (l : list PendingTx) :
  Forall (fun t => 0 <= fee t < 2 ^ 53) l ->
  Sorted inOrder l -> StronglySorted (fun x y => fee y <= fee x) l.
Proof.
  intros Hall Hs. apply Sorted_StronglySorted; [intros x y z; simpl; lia|].
  induction Hs as [|x l Hs IH Hx]; [constructor|].
  apply Forall_cons in Hall as [Hfx Hall].
  constructor; [by apply IH|].
  destruct Hx as [|y l Hxy]; constructor.
  apply Forall_cons in Hall as [Hfy _]. by apply inOrder_exact.
Qed.

Lemma StronglySorted_split {A} (R : A -> A -> Prop) (n : nat) (l : list A) :
  StronglySorted R l ->
  forall x y, x ∈ firstn n l -> y ∈ skipn n l -> R x y.
Proof.
  revert l. induction n as [|n IH]; intros l Hs x y Hx Hy; simpl in *.
  - by apply elem_of_nil in Hx.
  - destruct l as [|z l]; [by apply elem_of_nil in Hx|].
    apply StronglySorted_inv in Hs as [Hs Hz].
    apply elem_of_cons in Hx as [->|Hx].
    + rewrite List.Forall_forall in Hz. apply Hz, list_elem_of_In.
      rewrite <- (firstn_skipn n l). apply elem_of_app. by right.
    + by apply (IH l).
Qed.

(** When every pooled fee lies in [[0, 2^53)], where [Number] is exact,
    [getTransactionsForBlock] does return the highest fees first: the
    result is in non-increasing order of the exact fees, it is a part of
    the pool, and no transaction left out pays more than one taken. *)
Theorem getTransactionsForBlock_highest_first (maxCount : Z) (s : MempoolService) :
  (forall t, t ∈ getAllTransactions s -> 0 <= fee t < 2 ^ 53) ->
  StronglySorted (fun x y => fee y <= fee x) (getTransactionsForBlock maxCount s)
  /\ exists rest,
       Permutation (getAllTransactions s) (getTransactionsForBlock maxCount s ++ rest)
       /\ forall t u, t ∈ getTransactionsForBlock maxCount s -> u ∈ rest ->
            fee u <= fee t.
Proof.
  intros Hfees.
  assert (Hall : Forall (fun t => 0 <= fee t < 2 ^ 53)
                   (sort comparefn (getAllTransactions s))).
  { apply List.Forall_forall. intros t Ht. apply Hfees.
    rewrite <- (sort_Permutation comparefn). by apply list_elem_of_In. }
  pose proof (Sorted_exact _ Hall (sort_Sorted _)) as Hs.
  unfold getTransactionsForBlock, slice0.
  set (sorted := sort comparefn (getAllTransactions s)) in *.
  set (n := Z.to_nat _).
  split.
  - apply Sorted_StronglySorted; [intros x y z; simpl; lia|].
    apply firstn_Sorted. by apply StronglySorted_Sorted.
  - exists (skipn n sorted). split.
    + rewrite firstn_skipn. unfold sorted. by rewrite sort_Permutation.
    + intros t u Ht Hu. by apply (StronglySorted_split _ n sorted Hs).
Qed.

Lemma getTransactionsForBlock_highest_first_witness :
  StronglySorted (fun x y => fee y <= fee x) (getTransactionsForBlock 2 smallPool)
  /\ exists rest,
       Permutation (getAllTransactions smallPool)
                   (getTransactionsForBlock 2 smallPool ++ rest)
       /\ forall t u, t ∈ getTransactionsForBlock 2 smallPool -> u ∈ rest ->
            fee u <= fee t.
Proof.
  apply (getTransactionsForBlock_highest_first 2 smallPool).
  intros t Ht. apply list_elem_of_In in Ht. vm_compute in Ht.
  destruct Ht as [<-|[<-|[<-|[]]]]; unfold fee; simpl; lia.
Defined.

(** *** Removal in bulk *)

Lemma filter_key_filter (p : string * PendingTx -> bool) (txId : string)
    (l : list (string * PendingTx)) :
  List.filter p (List.filter (fun e => negb (String.eqb (fst e) txId)) l)
  = List.filter (fun e => negb (String.eqb (fst e) txId) && p e) l.
Proof.
  induction l as [|e l IH]; simpl; [done|].
  destruct (String.eqb (fst e) txId); simpl; [done|].
  destruct (p e); by rewrite IH.
Qed.

Lemma handleBlockAdded_fold (txs : list Ledger.Transaction) (c : Z) (s : MempoolService) :
  pendingTransactions
    (snd (List.fold_left
            (fun acc tx =>
               let '(r, s') := removeTransaction (Ledger.tx_id tx) (snd acc) in
               (if r then fst acc + 1 else fst acc, s'))
            txs (c, s)))
  = List.filter
      (fun e => negb (existsb (fun tx => String.eqb (fst e) (Ledger.tx_id tx)) txs))
      (pendingTransactions s).
Proof.
  revert c s. induction txs as [|tx txs IH]; intros c s; simpl.
  - induction (pendingTransactions s) as [|e l IHl]; simpl; [done|]. by rewrite <- IHl.
  - pose proof (removeTransaction_pending (Ledger.tx_id tx) s) as Hp.
    destruct (removeTransaction (Ledger.tx_id tx) s) as [r s'] eqn:E. simpl in *.
    rewrite IH, Hp, filter_key_filter.
    apply List.filter_ext. intros e. by rewrite negb_orb.
Qed.

(** After [handleBlockAdded] the pool holds exactly the transactions it
    held before whose ids are not among the block's, in their old order;
    none of the block's transactions is pooled any more. *)
Theorem handleBlockAdded_pending (block : Ledger.Block) (s : MempoolService) :
  pendingTransactions (snd (handleBlockAdded block s))
  = List.filter (fun e => negb (inBlock block e)) (pendingTransactions s)
  /\ forall tx, tx ∈ Ledger.transactions block ->
       has (Ledger.tx_id tx) (snd (handleBlockAdded block s)) = false.
Proof.
  assert (Hp : pendingTransactions (snd (handleBlockAdded block s))
               = List.filter (fun e => negb (inBlock block e)) (pendingTransactions s))
    by apply handleBlockAdded_fold.
  split; [exact Hp|].
  intros tx Htx. destruct (has _ _) eqn:H; [|done].
  apply has_spec in H. rewrite Hp in H.
  apply list_elem_of_In, in_map_iff in H as (e & He & Hin).
  apply filter_In in Hin as [_ Hin]. apply negb_true_iff in Hin.
  unfold inBlock in Hin.
  assert (Hex : existsb (fun tx0 => String.eqb (fst e) (Ledger.tx_id tx0))
                        (Ledger.transactions block) = true).
  { apply existsb_exists. exists tx. split; [by apply list_elem_of_In|].
    by apply String.eqb_eq. }
  congruence.
Qed.

Lemma removeExpired_fold (cfg : MempoolConfig) (now : Z)
    (todo kept : list (string * PendingTx)) (c : Z) (s : MempoolService) :
  pendingTransactions s = kept ++ todo ->
  NoDup (List.map fst (kept ++ todo)) ->
  let r := List.fold_left
             (fun acc e =>
                if expirationTime cfg <? now - addedAt (snd e)
                then
                  let '(r, s') := removeTransaction (fst e) (snd acc) in
                  (if r then fst acc + 1 else fst acc, s')
                else acc)
             todo (c, s) in
  pendingTransactions (snd r)
  = kept ++ List.filter (fun e => negb (expired cfg now e)) todo
  /\ fst r = c + Z.of_nat (List.length (List.filter (expired cfg now) todo)).
Proof.
  cbv zeta. revert kept c s. induction todo as [|e todo IH]; intros kept c s Hp Hnd; simpl.
  - split; [done|lia].
  - change (expirationTime cfg <? now - addedAt (snd e)) with (expired cfg now e).
    destruct (expired cfg now e) eqn:E; simpl.
    + pose proof (removeTransaction_pending (fst e) s) as Hrp.
      pose proof (removeTransaction_result (fst e) s) as Hrr.
      destruct (removeTransaction (fst e) s) as [r s'] eqn:Er. simpl in Hrp, Hrr.
      rewrite List.map_app in Hnd. simpl in Hnd.
      apply NoDup_app in Hnd as (Hk & Hd & Ht).
      apply NoDup_cons in Ht as [He Ht].
      assert (Hr : r = true).
      { rewrite Hrr. apply has_spec. rewrite Hp, List.map_app. simpl.
        apply elem_of_app. right. by left. }
      assert (Hp' : pendingTransactions s' = kept ++ todo).
      { rewrite Hrp, Hp, List.filter_app. simpl. rewrite String.eqb_refl. simpl.
        rewrite !filter_key_notin; [done|done|].
        intros Hin. apply (Hd _ Hin). by left. }
      destruct (IH kept (c + 1) s' Hp') as [H1 H2].
      { rewrite List.map_app. apply NoDup_app. split; [done|]. split; [|done].
        intros x Hx Hx'. apply (Hd x Hx). by right. }
      rewrite Hr. simpl. rewrite H1, H2. split; [done|lia].
    + destruct (IH (kept ++ [e]) c s) as [H1 H2].
      { by rewrite <- app_assoc. }
      { by rewrite <- app_assoc. }
      rewrite H1, H2. split; [by rewrite <- app_assoc|lia].
Qed.

(** [removeExpiredTransactions] removes exactly the transactions that
    have been pooled for longer than [mempool.expirationTime]: the others
    stay, in their old order, and the count is the number removed. *)
Theorem removeExpiredTransactions_pending (cfg : MempoolConfig) (now : Z)
    (s : MempoolService) :
  NoDup (List.map fst (pendingTransactions s)) ->
  pendingTransactions (snd (removeExpiredTransactions cfg now s))
  = List.filter (fun e => negb (expired cfg now e)) (pendingTransactions s)
  /\ fst (removeExpiredTransactions cfg now s)
     = Z.of_nat (List.length (List.filter (expired cfg now) (pendingTransactions s))).
Proof.
  intros Hnd. unfold removeExpiredTransactions.
  destruct (removeExpired_fold cfg now (pendingTransactions s) [] 0 s eq_refl Hnd)
    as [H1 H2].
  split; [exact H1|]. rewrite H2. lia.
Qed.

Lemma removeExpiredTransactions_pending_witness :
  pendingTransactions (snd (removeExpiredTransactions sampleConfig 3600250 smallPool))
  = List.filter (fun e => negb (expired sampleConfig 3600250 e))
                (pendingTransactions smallPool)
  /\ fst (removeExpiredTransactions sampleConfig 3600250 smallPool)
     = Z.of_nat (List.length (List.filter (expired sampleConfig 3600250)
                                          (pendingTransactions smallPool))).
Proof.
  apply (removeExpiredTransactions_pending sampleConfig 3600250 smallPool).
  vm_compute. repeat constructor; set_solver.
Defined.
End MempoolProperties.

(** ** Consensus: voters, proposers and rotation *)

Module ConsensusProperties.
Import JsNumber JsNumberFacts Consensus ConsensusFacts.

(** *** Who may vote *)

(** [voteOnBlock] throws, and changes nothing, for an address that is
    not a current validator and for a current validator that is not
    active; a validator that [addValidator] has just staged is therefore
    turned away until a rotation promotes it. *)
Theorem voteOnBlock_rejects (cmp : string -> string -> comparison)
    (block : Ledger.Block) (voter key : string) (now : Z) (eng : ConsensusEngine) :
  (currentValidators (state eng) !! voter = None ->
   voteOnBlock cmp block voter key now eng = (Throw InvalidOrInactiveValidator, eng))
  /\ (forall l v, currentValidators (state eng) !! voter = Some l ->
        objects eng !! l = Some v -> active v = false ->
        voteOnBlock cmp block voter key now eng = (Throw InvalidOrInactiveValidator, eng))
  /\ (forall l v, objects eng !! l = Some v -> address v = voter ->
        currentValidators (state eng) !! voter = None ->
        voteOnBlock cmp block voter key now (snd (addValidator l eng))
        = (Throw InvalidOrInactiveValidator, snd (addValidator l eng))).
Proof.
  split; [|split].
  - intros H. unfold voteOnBlock. by rewrite H.
  - intros l v Hl Hv Ha. unfold voteOnBlock. rewrite Hl. simpl. rewrite Hv, Ha. done.
  - intros l v Hl Hv Hcur.
    assert (Hsame : currentValidators (state (snd (addValidator l eng)))
                    = currentValidators (state eng)).
    { unfold addValidator. destruct (_ <=? _); [done|]. rewrite Hl.
      destruct (vtype v); destruct (gtb _ _); done. }
    unfold voteOnBlock. by rewrite Hsame, Hcur.
Qed.

(** *** The next proposer *)



(** *** Rotation and finalization *)

(** [rotateValidators] empties the pending map and records the height.
    Afterwards the current map holds exactly the entries of the pending
    map and, for the other addresses, of the old current map whose
    objects are not more than 100 blocks behind. *)
Theorem rotateValidators_promotes (h : Z) (eng : ConsensusEngine) :
  pendingValidators (state (rotateValidators h eng)) = ∅
  /\ lastRotationBlock (state (rotateValidators h eng)) = h
  /\ objects (rotateValidators h eng) = objects eng
  /\ forall a l,
       currentValidators (state (rotateValidators h eng)) !! a = Some l
       <-> stale (objects eng) h l = false
           /\ (pendingValidators (state eng) !! a = Some l
               \/ (pendingValidators (state eng) !! a = None
                   /\ currentValidators (state eng) !! a = Some l)).
Proof.
  split; [done|]. split; [done|]. split; [done|].
  intros a l. rewrite rotate_current, lookup_union.
  destruct (pendingValidators (state eng) !! a) as [p|] eqn:Ep;
    destruct (currentValidators (state eng) !! a) as [c|] eqn:Ec; simpl.
  - destruct (stale (objects eng) h p) eqn:Es; split.
    + done.
    + intros [Hs [[= ->]|[? _]]]; congruence.
    + intros [= ->]. split; [done|by left].
    + intros [Hs [[= ->]|[? _]]]; [done|congruence].
  - destruct (stale (objects eng) h p) eqn:Es; split.
    + done.
    + intros [Hs [[= ->]|[? _]]]; congruence.
    + intros [= ->]. split; [done|by left].
    + intros [Hs [[= ->]|[? _]]]; [done|congruence].
  - destruct (stale (objects eng) h c) eqn:Es; split.
    + done.
    + intros [Hs [?|[_ [= ->]]]]; congruence.
    + intros [= ->]. split; [done|by right].
    + intros [Hs [?|[_ [= ->]]]]; [congruence|done].
  - split; [done|]. intros [_ [?|[_ ?]]]; congruence.
Qed.


End ConsensusProperties.

(** ** P2P: handshakes, discovery and stale peers *)

Module P2PProperties.
Import P2P.

(** *** An accepted handshake *)



(** *** Peer discovery *)

Lemma discovery_fold (ps : list Peer) (n : P2PNetwork) :
  let step := fun n peer =>
    match peers n !! peer_id peer with
    | Some _ => n
    | None =>
        if String.eqb (peer_id peer) (nodeId n) then n
        else connectToPeer peer (set_peers (insert (peer_id peer) peer) n)
    end in
  let n' := List.fold_left step ps n in
  nodeId n' = nodeId n /\ connections n' = connections n /\ config n' = config n
  /\ (forall k p, peers n !! k = Some p -> peers n' !! k = Some p)
  /\ (peers n !! nodeId n = None -> peers n' !! nodeId n = None)
  /\ (forall p, p ∈ ps -> peer_id p <> nodeId n -> is_Some (peers n' !! peer_id p))
  /\ (forall k, is_Some (peers n' !! k) ->
        is_Some (peers n !! k) \/ exists p, p ∈ ps /\ peer_id p = k).
Proof.
  cbv zeta. revert n. induction ps as [|q ps IH]; intros n; simpl.
  - do 5 (split; [done|]). split.
    + intros p Hp. by apply elem_of_nil in Hp.
    + intros k Hk. by left.
  - set (n1 := match peers n !! peer_id q with
               | Some _ => n
               | None => if String.eqb (peer_id q) (nodeId n) then n
                         else connectToPeer q (set_peers (insert (peer_id q) q) n)
               end).
    assert (H1 : nodeId n1 = nodeId n /\ connections n1 = connections n
                 /\ config n1 = config n
                 /\ (forall k p, peers n !! k = Some p -> peers n1 !! k = Some p)
                 /\ (peers n !! nodeId n = None -> peers n1 !! nodeId n = None)
                 /\ (peer_id q <> nodeId n -> is_Some (peers n1 !! peer_id q))
                 /\ (forall k, is_Some (peers n1 !! k) ->
                       is_Some (peers n !! k) \/ peer_id q = k)).
    { unfold n1. destruct (peers n !! peer_id q) as [p0|] eqn:E.
      - do 5 (split; [done|]). split; [by rewrite E|]. intros k Hk. by left.
      - destruct (String.eqb (peer_id q) (nodeId n)) eqn:E2.
        + apply String.eqb_eq in E2. do 5 (split; [done|]).
          split; [congruence|]. intros k Hk. by left.
        + apply String.eqb_neq in E2.
          assert (Hs : peers (connectToPeer q (set_peers (insert (peer_id q) q) n))
                       = <[peer_id q := q]> (peers n)
                       /\ nodeId (connectToPeer q (set_peers (insert (peer_id q) q) n))
                          = nodeId n
                       /\ connections (connectToPeer q (set_peers (insert (peer_id q) q) n))
                          = connections n
                       /\ config (connectToPeer q (set_peers (insert (peer_id q) q) n))
                          = config n).
          { unfold connectToPeer. simpl. by destruct (connections n !! peer_id q). }
          destruct Hs as (-> & -> & -> & ->).
          do 3 (split; [done|]). split; [|split; [|split]].
          * intros k p Hk. rewrite lookup_insert_ne; [done|congruence].
          * intros Hk. by rewrite lookup_insert_ne.
          * intros _. by rewrite lookup_insert_eq.
          * intros k Hk. destruct (decide (peer_id q = k)) as [|Hne]; [by right|].
            left. by rewrite lookup_insert_ne in Hk. }
    destruct H1 as (Hn & Hc & Hcfg & Hkeep & Hself & Hq & Hnew).
    destruct (IH n1) as (Hn' & Hc' & Hcfg' & Hkeep' & Hself' & Hall' & Hnew').
    rewrite Hn in *. do 3 (split; [congruence|]). split; [|split; [|split]].
    + intros k p Hk. by apply Hkeep', Hkeep.
    + intros Hk. by apply Hself', Hself.
    + intros p Hp Hne. apply elem_of_cons in Hp as [->|Hp]; [|by apply Hall'].
      destruct (Hq Hne) as [x Hx]. exists x. by apply Hkeep'.
    + intros k Hk. destruct (Hnew' k Hk) as [Hk1|(p & Hp & Hpk)].
      * destruct (Hnew k Hk1) as [?|Hqk]; [by left|].
        right. exists q. split; [by left|done].
      * right. exists p. split; [by right|done].
Qed.

(** A PEER_DISCOVERY message with a list of peers never replaces the
    record of a known peer and never registers the node itself; every
    other listed peer is known afterwards, whatever [maxPeers] says, and
    nothing but listed peers is added.  The connection map is untouched. *)
Theorem handlePeerDiscovery_registers (now : Z) (message : NetworkMessage)
    (peerId : string) (ws : WebSocket) (n : P2PNetwork) (ps : list Peer) :
  msg_type message = PEER_DISCOVERY ->
  payload message = PPeers ps ->
  exists n',
    handleMessage now message peerId ws n = (Ok tt, n')
    /\ connections n' = connections n
    /\ (forall k p, peers n !! k = Some p -> peers n' !! k = Some p)
    /\ (peers n !! nodeId n = None -> peers n' !! nodeId n = None)
    /\ (forall p, p ∈ ps -> peer_id p <> nodeId n -> is_Some (peers n' !! peer_id p))
    /\ (forall k, is_Some (peers n' !! k) ->
          is_Some (peers n !! k) \/ exists p, p ∈ ps /\ peer_id p = k).
Proof.
  intros Hty Hp. unfold handleMessage. rewrite Hty, Hp. unfold handlePeerDiscovery, modify.
  eexists. split; [reflexivity|].
  destruct (discovery_fold ps n) as (_ & Hc & _ & H1 & H2 & H3 & H4). done.
Qed.

Lemma handlePeerDiscovery_registers_witness :
  let newcomer := {| peer_id := "CHKpeer3"; peer_address := "10.0.0.3"; peer_port := 8333;
                     lastSeen := 0; peer_version := "1.0.0"; peer_chainHeight := 0 |} in
  let message := {| msg_type := PEER_DISCOVERY; payload := PPeers [newcomer];
                    msg_from := "CHKpeer1"; msg_timestamp := 1700000001000;
                    msg_signature := None |} in
  exists n',
    handleMessage 1700000002000 message "CHKpeer1" inboundSocket sampleNetwork = (Ok tt, n')
    /\ connections n' = connections sampleNetwork
    /\ (forall k p, peers sampleNetwork !! k = Some p -> peers n' !! k = Some p)
    /\ (peers sampleNetwork !! nodeId sampleNetwork = None ->
        peers n' !! nodeId sampleNetwork = None)
    /\ (forall p, p ∈ [newcomer] -> peer_id p <> nodeId sampleNetwork ->
          is_Some (peers n' !! peer_id p))
    /\ (forall k, is_Some (peers n' !! k) ->
          is_Some (peers sampleNetwork !! k) \/ exists p, p ∈ [newcomer] /\ peer_id p = k).
Proof.
  intros newcomer message.
  apply (handlePeerDiscovery_registers 1700000002000 message "CHKpeer1" inboundSocket
           sampleNetwork [newcomer]); reflexivity.
Defined.

(** The request for peers that [requestPeerDiscovery] sends carries no
    list: the node that receives it raises a TypeError inside the
    handler, which the message listener swallows, and sends nothing
    back. *)
Theorem peer_discovery_request_unanswered (now : Z) (ws : WebSocket) (n : P2PNetwork)
    (m : NetworkMessage) (now' : Z) (peerId : string) (ws' : WebSocket)
    (n' : P2PNetwork) :
  List.last (effects (requestPeerDiscovery now ws n)) (Close ws 0 "") = Send ws m ->
  handleMessage now' m peerId ws' n' = (Throw TypeError, n')
  /\ onMessage now' m peerId ws' n' = n'.
Proof.
  unfold requestPeerDiscovery, sendMessage, perform. simpl.
  rewrite last_last. intros [= <-]. done.
Qed.

Lemma peer_discovery_request_unanswered_witness :
  exists m,
    List.last (effects (requestPeerDiscovery 1700000002000 inboundSocket sampleNetwork))
              (Close inboundSocket 0 "") = Send inboundSocket m
    /\ handleMessage 1700000003000 m "CHKpeer1" inboundSocket sampleNetwork
       = (Throw TypeError, sampleNetwork)
    /\ onMessage 1700000003000 m "CHKpeer1" inboundSocket sampleNetwork = sampleNetwork.
Proof.
  eexists. split; [reflexivity|].
  apply (peer_discovery_request_unanswered 1700000002000 inboundSocket sampleNetwork _
           1700000003000 "CHKpeer1" inboundSocket sampleNetwork).
  reflexivity.
Defined.

(** *** Stale peers *)

(** [cleanupStalePeers] drops exactly the peers not seen for more than
    two minutes, together with the connections stored under their ids;
    every other peer and every other connection stays, and nothing is
    sent. *)
Theorem cleanupStalePeers_drops (now : Z) (n : P2PNetwork) (k : string) :
  let gone := match peers n !! k with
              | Some peer => staleTimeout <? now - lastSeen peer
              | None => false
              end in
  peers (cleanupStalePeers now n) !! k = (if gone then None else peers n !! k)
  /\ connections (cleanupStalePeers now n) !! k
     = (if gone then None else connections n !! k)
  /\ effects (cleanupStalePeers now n) = effects n.
Proof.
  cbv zeta. unfold cleanupStalePeers.
  assert (H : forall m0 : gmap string Peer,
    let r := map_fold
               (fun peerId peer n0 =>
                  if staleTimeout <? now - lastSeen peer
                  then handlePeerDisconnect peerId n0 else n0) n m0 in
    let gone := match m0 !! k with
                | Some peer => staleTimeout <? now - lastSeen peer
                | None => false
                end in
    peers r !! k = (if gone then None else peers n !! k)
    /\ connections r !! k = (if gone then None else connections n !! k)
    /\ effects r = effects n).
  { intros m0. cbv zeta.
    apply (map_fold_weak_ind (fun (r : P2PNetwork) (m1 : gmap string Peer) =>
      peers r !! k = (if match m1 !! k with
                         | Some peer => staleTimeout <? now - lastSeen peer
                         | None => false
                         end then None else peers n !! k)
      /\ connections r !! k = (if match m1 !! k with
                                  | Some peer => staleTimeout <? now - lastSeen peer
                                  | None => false
                                  end then None else connections n !! k)
      /\ effects r = effects n)).
    - by rewrite lookup_empty.
    - intros i x m1 r Hnone (IH1 & IH2 & IH3).
      destruct (decide (i = k)) as [->|Hne].
      + rewrite lookup_insert_eq. rewrite Hnone in IH1, IH2.
        destruct (staleTimeout <? now - lastSeen x); [|done].
        unfold handlePeerDisconnect. simpl. by rewrite !lookup_delete_eq.
      + rewrite lookup_insert_ne by done.
        destruct (staleTimeout <? now - lastSeen x); [|done].
        unfold handlePeerDisconnect. simpl. by rewrite !lookup_delete_ne. }
  apply (H (peers n)).
Qed.
End P2PProperties.

(** ** Currency *)

Module CurrencyFacts.
Import Currency.

Lemma quot_rem_nonneg (a b : Z) :
  0 <= a -> 0 < b -> 0 <= Z.quot a b /\ 0 <= Z.rem a b < b /\ a = b * Z.quot a b + Z.rem a b.
Proof.
  intros Ha Hb. split; [by apply Z.quot_pos; lia|].
  split; [apply Z.rem_bound_pos; lia|apply Z.quot_rem'].
Qed.

Lemma quot_rem_nonpos (a b : Z) :
  a <= 0 -> 0 < b -> Z.quot a b <= 0 /\ Z.rem a b <= 0.
Proof.
  intros Ha Hb. rewrite <- (Z.opp_involutive a).
  rewrite Z.quot_opp_l, Z.rem_opp_l by lia.
  destruct (quot_rem_nonneg (- a) b ltac:(lia) Hb) as (Hq & Hr & _). lia.
Qed.

(** Breaking an amount down and adding the parts up again gives the
    amount back, for every integer, negative ones included. *)
Theorem denominationToCash_cashToDenomination (totalCash : Z) :
  denominationToCash (cashToDenomination totalCash) = totalCash.
Proof.
  unfold denominationToCash, cashToDenomination. simpl.
  pose proof (Z.quot_rem' totalCash cashPerCrore) as H1.
  pose proof (Z.quot_rem' (Z.rem totalCash cashPerCrore) cashPerLakh) as H2.
  pose proof (Z.quot_rem' (Z.rem (Z.rem totalCash cashPerCrore) cashPerLakh)
                cashPerVaraha) as H3.
  pose proof (Z.quot_rem'
                (Z.rem (Z.rem (Z.rem totalCash cashPerCrore) cashPerLakh) cashPerVaraha)
                cashPerFanam) as H4.
  pose proof (Z.quot_rem'
                (Z.rem (Z.rem (Z.rem (Z.rem totalCash cashPerCrore) cashPerLakh)
                          cashPerVaraha) cashPerFanam)
                cashPerChuckram) as H5.
  lia.
Qed.

(** The breakdown of an amount that is not negative is canonical, and a
    canonical breakdown is the breakdown of its own total: on these the
    two conversions are inverse to each other. *)
Theorem cashToDenomination_canonical (totalCash : Z) (d : ChuckramDenomination) :
  (0 <= totalCash -> canonical (cashToDenomination totalCash))
  /\ (canonical d -> cashToDenomination (denominationToCash d) = d).
Proof.
  split.
  - intros H0. unfold canonical, cashToDenomination. simpl.
    destruct (quot_rem_nonneg totalCash cashPerCrore H0 eq_refl) as (Q1 & R1 & E1).
    destruct (quot_rem_nonneg _ cashPerLakh (proj1 R1) eq_refl) as (Q2 & R2 & E2).
    destruct (quot_rem_nonneg _ cashPerVaraha (proj1 R2) eq_refl) as (Q3 & R3 & E3).
    destruct (quot_rem_nonneg _ cashPerFanam (proj1 R3) eq_refl) as (Q4 & R4 & E4).
    destruct (quot_rem_nonneg _ cashPerChuckram (proj1 R4) eq_refl) as (Q5 & R5 & E5).
    unfold cashPerCrore, cashPerLakh, cashPerVaraha, cashPerFanam, cashPerChuckram,
      CHUCKRAMS_PER_CRORE, CHUCKRAMS_PER_LAKH, FANAMS_PER_VARAHA, CHUCKRAMS_PER_FANAM,
      CASH_PER_CHUCKRAM in *.
    simpl in *. lia.
  - destruct d as [cr la va fa ch ca]. unfold canonical, denominationToCash. simpl.
    unfold cashPerCrore, cashPerLakh, cashPerVaraha, cashPerFanam, cashPerChuckram,
      CHUCKRAMS_PER_CRORE, CHUCKRAMS_PER_LAKH, FANAMS_PER_VARAHA, CHUCKRAMS_PER_FANAM,
      CASH_PER_CHUCKRAM. simpl.
    intros (Hcr & Hla & Hva & Hfa & Hch & Hca & Hsub).
    unfold cashToDenomination,
      cashPerCrore, cashPerLakh, cashPerVaraha, cashPerFanam, cashPerChuckram,
      CHUCKRAMS_PER_CRORE, CHUCKRAMS_PER_LAKH, FANAMS_PER_VARAHA, CHUCKRAMS_PER_FANAM,
      CASH_PER_CHUCKRAM. simpl.
    change (10000000 * 16) with 160000000 in *.
    change (100000 * 16) with 1600000 in *.
    change (16 * 4 * 16) with 1024 in *.
    change (4 * 16) with 64 in *.
    set (t := cr * 160000000 + la * 1600000 + va * 1024 + fa * 64 + ch * 16 + ca).
    assert (Q1 : Z.quot t 160000000 = cr /\ Z.rem t 160000000
                 = la * 1600000 + va * 1024 + fa * 64 + ch * 16 + ca).
    { rewrite Z.quot_div_nonneg, Z.rem_mod_nonneg by (unfold t; lia).
      unfold t. split.
      - symmetry. apply (Z.div_unique _ _ _ (la * 1600000 + va * 1024 + fa * 64 + ch * 16 + ca)); lia.
      - symmetry. apply (Z.mod_unique _ _ cr); lia. }
    destruct Q1 as [-> ->].
    set (t2 := la * 1600000 + va * 1024 + fa * 64 + ch * 16 + ca).
    assert (Q2 : Z.quot t2 1600000 = la
                 /\ Z.rem t2 1600000 = va * 1024 + fa * 64 + ch * 16 + ca).
    { rewrite Z.quot_div_nonneg, Z.rem_mod_nonneg by (unfold t2; lia).
      unfold t2. split.
      - symmetry. apply (Z.div_unique _ _ _ (va * 1024 + fa * 64 + ch * 16 + ca)); lia.
      - symmetry. apply (Z.mod_unique _ _ la); lia. }
    destruct Q2 as [-> ->].
    set (t3 := va * 1024 + fa * 64 + ch * 16 + ca).
    assert (Q3 : Z.quot t3 1024 = va /\ Z.rem t3 1024 = fa * 64 + ch * 16 + ca).
    { rewrite Z.quot_div_nonneg, Z.rem_mod_nonneg by (unfold t3; lia).
      unfold t3. split.
      - symmetry. apply (Z.div_unique _ _ _ (fa * 64 + ch * 16 + ca)); lia.
      - symmetry. apply (Z.mod_unique _ _ va); lia. }
    destruct Q3 as [-> ->].
    set (t4 := fa * 64 + ch * 16 + ca).
    assert (Q4 : Z.quot t4 64 = fa /\ Z.rem t4 64 = ch * 16 + ca).
    { rewrite Z.quot_div_nonneg, Z.rem_mod_nonneg by (unfold t4; lia).
      unfold t4. split.
      - symmetry. apply (Z.div_unique _ _ _ (ch * 16 + ca)); lia.
      - symmetry. apply (Z.mod_unique _ _ fa); lia. }
    destruct Q4 as [-> ->].
    assert (Q5 : Z.quot (ch * 16 + ca) 16 = ch /\ Z.rem (ch * 16 + ca) 16 = ca).
    { rewrite Z.quot_div_nonneg, Z.rem_mod_nonneg by lia. split.
      - symmetry. apply (Z.div_unique _ _ _ ca); lia.
      - symmetry. apply (Z.mod_unique _ _ ch); lia. }
    destruct Q5 as [-> ->]. reflexivity.
Qed.

(** An amount that is zero or negative is displayed as "0 c": no part
    of its breakdown is positive. *)
Theorem formatDenomination_nonpositive (totalCash : Z) :
  totalCash <= 0 -> formatDenomination (cashToDenomination totalCash) = "0 c"%string.
Proof.
  intros H0. unfold formatDenomination, cashToDenomination. simpl.
  destruct (quot_rem_nonpos totalCash cashPerCrore H0 eq_refl) as (Q1 & R1).
  destruct (quot_rem_nonpos _ cashPerLakh R1 eq_refl) as (Q2 & R2).
  destruct (quot_rem_nonpos _ cashPerVaraha R2 eq_refl) as (Q3 & R3).
  destruct (quot_rem_nonpos _ cashPerFanam R3 eq_refl) as (Q4 & R4).
  destruct (quot_rem_nonpos _ cashPerChuckram R4 eq_refl) as (Q5 & R5).
  unfold part.
  repeat match goal with
  | |- context [0 <? ?x] =>
      let E := fresh in
      destruct (0 <? x) eqn:E; [apply Z.ltb_lt in E; lia|]
  end.
  reflexivity.
Qed.

Lemma formatDenomination_nonpositive_witness :
  formatDenomination (cashToDenomination (-1000)) = "0 c"%string.
Proof. apply (formatDenomination_nonpositive (-1000)). lia. Defined.
End CurrencyFacts.

